(** * The observer core of Vue: a shallow embedding

    Sources embedded here:
    - [src/core/observer/dep.js]    : [Dep], [pushTarget], [popTarget]
    - [src/core/observer/index.js]  : [Observer], [observe], [defineReactive],
                                      [set], [del], [dependArray]
    - [src/core/observer/array.js]  : the seven array interceptors ([mutator])
    - [src/core/vdom/vnode.js]      : [VNode], [createEmptyVNode],
                                      [createTextVNode], [cloneVNode]

    JavaScript objects live in a store indexed by reference; the closures
    created by [defineReactive] are records ("slots") of the same store; the
    calls the code makes to the outside (subscribers, user accessors,
    comparators) are parameters of the model.  A computation takes a store
    and gives an outcome (a value, an exception, or "out of fuel" for the
    one recursion that is bounded by fuel), the new store and the events it
    emitted: calls of [notify], [update], [customSetter] and [warn].

    Scope of the object model:
    - numbers are the integers and not-a-number;
    - an array is a list of at most [2^32 - 1] elements: a write that would
      make it longer throws a [RangeError], and a property named by an
      integer above [2^32 - 2] is an ordinary named property; a hole reads
      as [undefined]; elements carry no descriptor of their own;
    - an object is extensible or not: creating a property or an element on
      one that is not throws a [TypeError]; [length] and the elements of an
      array stay writable;
    - the modules are strict-mode code: a write or a delete that cannot be
      performed throws a [TypeError];
    - a VNode inherits [child] and [constructor] from [VNode.prototype];
    - [__ob__] is read as a data property, [_isVue] is a flag of the object;
    - Observer instances are not data values, function objects carry no
      properties;
    - a subscriber's [update], a user setter and a [customSetter] transform
      the store and return normally, a user getter reads it; the
      comparisons of [sort] and the conversions of a value to a number or
      to a string read the store and can throw. *)

From Stdlib Require Import ZArith Lia List Permutation Sorted.
From stdpp Require Import base list strings pretty.

Open Scope string_scope.
Open Scope list_scope.

(** ** Values *)

Abbreviation Ref := nat (only parsing).
Abbreviation DepId := nat (only parsing).
Abbreviation SlotId := nat (only parsing).
Abbreviation FnId := nat (only parsing).

(** Property keys.  [KIdx i] is the canonical array index [i] (the number or
    its decimal string); [KStr s] is any other name. *)
Inductive Key := KStr (s : string) | KIdx (i : nat).

(** [methodsToPatch] *)
Inductive Method := Push | Pop | Shift | Unshift | Splice | Sort | Reverse.

Inductive Fn :=
  | FMutator (m : Method)      (* an interceptor defined in array.js *)
  | FNative (m : Method)       (* [arrayProto[method]] *)
  | FBuiltin (name : string)   (* any other engine function *)
  | FUser (f : FnId).          (* a function of the application *)

(** Numbers are the integers and not-a-number: the code under study only
    compares numbers with [===] and uses them as indices and lengths. *)
Inductive Value :=
  | VUndef
  | VNull
  | VBool (b : bool)
  | VNum (z : Z)
  | VNaN
  | VStr (s : string)
  | VSym (n : nat)
  | VObj (r : Ref)
  | VFun (f : Fn).

#[global] Instance Key_eq_dec : EqDecision Key.
Proof. solve_decision. Defined.
#[global] Instance Method_eq_dec : EqDecision Method.
Proof. solve_decision. Defined.
#[global] Instance Fn_eq_dec : EqDecision Fn.
Proof. solve_decision. Defined.
#[global] Instance Value_eq_dec : EqDecision Value.
Proof. solve_decision. Defined.

(** A subscriber: [{ id, addDep, update }].  [w_ref] is its identity. *)
Record Watcher := { w_ref : nat; w_id : Z }.

#[global] Instance Watcher_eq_dec : EqDecision Watcher.
Proof. solve_decision. Defined.

(** [Dep.target : ?Watcher] *)
Inductive Target := TNull | TUndef | TWatcher (w : Watcher).

#[global] Instance Target_eq_dec : EqDecision Target.
Proof. solve_decision. Defined.

(** ** Objects *)

Inductive Getter :=
  | GUser (f : FnId)       (* a getter of the application *)
  | GSlot (s : SlotId)     (* [reactiveGetter] of a [defineReactive] call *)
  | GChild.                (* [get child()] of vnode.js *)
Inductive Setter := SUser (f : FnId) | SSlot (s : SlotId).

Inductive PropBody :=
  | PData (v : Value) (writable : bool)
  | PAccessor (g : option Getter) (s : option Setter).

Record PropDesc := { p_body : PropBody; p_enum : bool; p_conf : bool }.

Inductive Proto :=
  | ProtoNull
  | ProtoObject            (* Object.prototype *)
  | ProtoArray             (* Array.prototype, over Object.prototype *)
  | ProtoArrayMethods      (* arrayMethods = Object.create(arrayProto) *)
  | ProtoVNode             (* VNode.prototype, over Object.prototype *)
  | ProtoRef (r : Ref).

(** What [Object.prototype.toString] tells [isPlainObject] and
    [Array.isArray]. *)
Inductive Class := CPlain | CArray | COther.

#[global] Instance Class_eq_dec : EqDecision Class.
Proof. solve_decision. Defined.

Record Obj := {
  o_class : Class;
  o_vnode : bool;                      (* instanceof VNode *)
  o_isVue : bool;                      (* the [_isVue] flag of a Vue instance *)
  o_ext : bool;                        (* Object.isExtensible *)
  o_proto : Proto;
  o_props : list (Key * PropDesc);     (* named own properties, in key order *)
  o_elems : list Value                 (* elements, when an array *)
}.

(** [class Observer { value; dep; vmCount }] *)
Record ObserverRec := { ob_value : Ref; ob_dep : DepId; ob_vmCount : nat }.

Inductive Cell := CObj (o : Obj) | CObserver (ob : ObserverRec).

(** The variables a [defineReactive] call closes over. [val] and [childOb]
    are assigned by [reactiveSetter]; the others are constant. *)
Record Slot := {
  s_obj : Ref;
  s_key : Key;
  s_val : Value;
  s_childOb : option Ref;
  s_dep : DepId;
  s_getter : option Getter;
  s_setter : option Setter;
  s_custom : option FnId;
  s_shallow : bool
}.

Record State := {
  heap : list Cell;
  slots : list Slot;
  deps : list (list Watcher);   (* [subs] of the Dep whose [id] is the index;
                                   [uid] is the length *)
  shouldObserve : bool;
  target : Target;              (* Dep.target *)
  targetStack : list Target
}.

(** Build- and platform-constants the code reads. *)
Record Env := {
  production : bool;         (* process.env.NODE_ENV === "production" *)
  config_async : bool;       (* config.async *)
  hasProto : bool;           (* '__proto__' in {} *)
  serverRendering : bool     (* isServerRendering() *)
}.

Inductive Err := TypeError | RangeError | StackOverflow.

(** Code running outside the observer core.  A subscriber's [update], a user
    setter and a [customSetter] may do anything to the store and return
    normally; a user getter only reads it.  The comparisons of
    [Array.prototype.sort] (the comparator, or the conversion of the
    elements to strings without one) and the conversion of a string, a
    function or an object to a number read the store too, and can throw:
    [x_sort args es] is the sorted list or the exception, [x_toNumber v]
    the integer, not-a-number ([None]) or the exception. *)
Record Ext := {
  x_update : Watcher -> State -> State;
  x_get : FnId -> Ref -> State -> Value;
  x_set : FnId -> Ref -> Value -> State -> State;
  x_hook : FnId -> State -> State;
  x_sort : list Value -> list Value -> State -> Err + list Value;
  x_toNumber : Value -> State -> Err + option Z
}.

Inductive Msg :=
  | WarnSetPrimitive | WarnDelPrimitive | WarnAvoidAdding | WarnAvoidDeleting.

(** What a call does besides changing the store. *)
Inductive Event :=
  | ENotify (d : DepId)          (* [notify()] entered on the Dep with id d *)
  | EUpdate (w : Watcher)        (* [w.update()] called by a [notify] *)
  | ECustomSetter (f : FnId)     (* [customSetter()] called *)
  | EWarn (m : Msg).             (* [warn(...)] called *)

#[global] Instance Msg_eq_dec : EqDecision Msg.
Proof. solve_decision. Defined.
#[global] Instance Event_eq_dec : EqDecision Event.
Proof. solve_decision. Defined.

(** ** Errors and the monad of the model *)

Inductive Outcome (A : Type) :=
  | Ret (a : A)
  | Throw (e : Err)
  | OutOfFuel.
Arguments Ret {A} a.
Arguments Throw {A} e.
Arguments OutOfFuel {A}.

Definition M (A : Type) : Type := State -> Outcome A * State * list Event.

Definition ret {A} (a : A) : M A := fun st => (Ret a, st, []).
Definition throw {A} (e : Err) : M A := fun st => (Throw e, st, []).
Definition bind {A B} (m : M A) (f : A -> M B) : M B := fun st =>
  match m st with
  | (Ret a, st1, ev1) =>
      match f a st1 with (o, st2, ev2) => (o, st2, ev1 ++ ev2) end
  | (Throw e, st1, ev1) => (Throw e, st1, ev1)
  | (OutOfFuel, st1, ev1) => (OutOfFuel, st1, ev1)
  end.
Definition emit (e : Event) : M unit := fun st => (Ret tt, st, [e]).
Definition modify (f : State -> State) : M unit := fun st => (Ret tt, f st, []).
Definition gets {A} (f : State -> A) : M A := fun st => (Ret (f st), st, []).
Definition when (b : bool) (m : M unit) : M unit := if b then m else ret tt.
(** A computation outside the core that reads the store and can throw. *)
Definition host {A} (f : State -> Err + A) : M A := fun st =>
  match f st with
  | inl e => (Throw e, st, [])
  | inr a => (Ret a, st, [])
  end.

Notation "x <- m ;; k" := (bind m (fun x => k))
  (at level 100, m at next level, right associativity).
Notation "m ;;; k" := (bind m (fun _ => k))
  (at level 100, right associativity).

Definition outcome {A} (r : Outcome A * State * list Event) : Outcome A := r.1.1.
Definition post {A} (r : Outcome A * State * list Event) : State := r.1.2.
Definition trace {A} (r : Outcome A * State * list Event) : list Event := r.2.

(** [for (let i = i0, l = ...; i < l; i++) body(i)], with [k] iterations left. *)
Fixpoint for_range (i k : nat) (body : nat -> M unit) : M unit :=
  match k with
  | 0 => ret tt
  | S k' => body i ;;; for_range (S i) k' body
  end.

(** ** The store *)

Definition set_heap (h : list Cell) (st : State) : State :=
  {| heap := h; slots := slots st; deps := deps st;
     shouldObserve := shouldObserve st; target := target st;
     targetStack := targetStack st |}.
Definition set_slots (s : list Slot) (st : State) : State :=
  {| heap := heap st; slots := s; deps := deps st;
     shouldObserve := shouldObserve st; target := target st;
     targetStack := targetStack st |}.
Definition set_deps (d : list (list Watcher)) (st : State) : State :=
  {| heap := heap st; slots := slots st; deps := d;
     shouldObserve := shouldObserve st; target := target st;
     targetStack := targetStack st |}.

Definition get_obj (st : State) (r : Ref) : option Obj :=
  match heap st !! r with Some (CObj o) => Some o | _ => None end.
Definition get_observer (st : State) (r : Ref) : option ObserverRec :=
  match heap st !! r with Some (CObserver ob) => Some ob | _ => None end.
Definition put_obj (r : Ref) (o : Obj) (st : State) : State :=
  set_heap (<[r := CObj o]> (heap st)) st.
Definition put_observer (r : Ref) (ob : ObserverRec) (st : State) : State :=
  set_heap (<[r := CObserver ob]> (heap st)) st.
(** [new]: the fresh reference is the next free index. *)
Definition alloc (c : Cell) : M Ref := fun st =>
  (Ret (length (heap st)), set_heap (heap st ++ [c]) st, []).

Definition with_props (ps : list (Key * PropDesc)) (o : Obj) : Obj :=
  {| o_class := o_class o; o_vnode := o_vnode o; o_isVue := o_isVue o;
     o_ext := o_ext o;
     o_proto := o_proto o; o_props := ps; o_elems := o_elems o |}.
Definition with_elems (es : list Value) (o : Obj) : Obj :=
  {| o_class := o_class o; o_vnode := o_vnode o; o_isVue := o_isVue o;
     o_ext := o_ext o;
     o_proto := o_proto o; o_props := o_props o; o_elems := es |}.
Definition with_proto (p : Proto) (o : Obj) : Obj :=
  {| o_class := o_class o; o_vnode := o_vnode o; o_isVue := o_isVue o;
     o_ext := o_ext o;
     o_proto := p; o_props := o_props o; o_elems := o_elems o |}.

Fixpoint assoc_lookup (k : Key) (l : list (Key * PropDesc)) : option PropDesc :=
  match l with
  | [] => None
  | (k', p) :: l' => if decide (k = k') then Some p else assoc_lookup k l'
  end.
(** Redefinition keeps the position of an existing key; a new key goes last. *)
Fixpoint assoc_set (k : Key) (p : PropDesc) (l : list (Key * PropDesc))
  : list (Key * PropDesc) :=
  match l with
  | [] => [(k, p)]
  | (k', p') :: l' =>
      if decide (k = k') then (k, p) :: l' else (k', p') :: assoc_set k p l'
  end.
Fixpoint assoc_remove (k : Key) (l : list (Key * PropDesc))
  : list (Key * PropDesc) :=
  match l with
  | [] => []
  | (k', p') :: l' =>
      if decide (k = k') then assoc_remove k l' else (k', p') :: assoc_remove k l'
  end.

Definition data_prop (v : Value) (w e c : bool) : PropDesc :=
  {| p_body := PData v w; p_enum := e; p_conf := c |}.

Definition method_name (m : Method) : string :=
  match m with
  | Push => "push" | Pop => "pop" | Shift => "shift" | Unshift => "unshift"
  | Splice => "splice" | Sort => "sort" | Reverse => "reverse"
  end.
Definition methodsToPatch : list Method :=
  [Push; Pop; Shift; Unshift; Splice; Sort; Reverse].
Definition method_of_name (s : string) : option Method :=
  List.find (fun m => bool_decide (method_name m = s)) methodsToPatch.

(** The largest length of an array, [2^32 - 1]; the array indices are the
    integers below it. *)
Definition max_array_length : Z := 4294967295.
Definition is_array_index (k : Key) : bool :=
  match k with
  | KIdx i => (Z.of_nat i <? max_array_length)%Z
  | KStr _ => false
  end.

(** The own property [k] of an object: for an array the elements and
    [length] are own properties too; an integer key that is no element is
    a named property like any other (it is one when it is no array
    index). *)
Definition own_prop (o : Obj) (k : Key) : option PropDesc :=
  if bool_decide (o_class o = CArray) then
    match k with
    | KIdx i =>
        match o_elems o !! i with
        | Some v => Some (data_prop v true true true)
        | None => assoc_lookup k (o_props o)
        end
    | KStr s =>
        if bool_decide (s = "length")
        then Some (data_prop (VNum (Z.of_nat (length (o_elems o)))) true false false)
        else assoc_lookup k (o_props o)
    end
  else assoc_lookup k (o_props o).

(** Names defined by [Object.prototype]. *)
Definition objectProtoKeys : list string :=
  ["constructor"; "__defineGetter__"; "__defineSetter__"; "hasOwnProperty";
   "__lookupGetter__"; "__lookupSetter__"; "isPrototypeOf";
   "propertyIsEnumerable"; "toString"; "valueOf"; "__proto__";
   "toLocaleString"].
(** Names defined by [Array.prototype] besides the seven patched ones. *)
Definition arrayProtoKeys : list string :=
  ["concat"; "copyWithin"; "fill"; "find"; "findIndex"; "lastIndexOf";
   "slice"; "includes"; "indexOf"; "join"; "keys"; "entries"; "values";
   "forEach"; "filter"; "flat"; "flatMap"; "map"; "every"; "some"; "reduce";
   "reduceRight"].

Definition in_strings (s : string) (l : list string) : bool :=
  bool_decide (s ∈ l).

Definition object_proto_prop (k : Key) : option PropDesc :=
  match k with
  | KStr s =>
      if in_strings s objectProtoKeys
      then Some (data_prop (VFun (FBuiltin s)) true false true) else None
  | KIdx _ => None
  end.
Definition array_proto_prop (k : Key) : option PropDesc :=
  match k with
  | KStr s =>
      match method_of_name s with
      | Some m => Some (data_prop (VFun (FNative m)) true false true)
      | None =>
          if in_strings s arrayProtoKeys
          then Some (data_prop (VFun (FBuiltin s)) true false true)
          else object_proto_prop k
      end
  | KIdx _ => None
  end.
(** [def(arrayMethods, method, function mutator ...)]: hidden, writable. *)
Definition array_methods_prop (k : Key) : option PropDesc :=
  match k with
  | KStr s =>
      match method_of_name s with
      | Some m => Some (data_prop (VFun (FMutator m)) true false true)
      | None => array_proto_prop k
      end
  | KIdx _ => None
  end.

(** [VNode.prototype]: what [class VNode] defines, the accessor [child]
    (a getter and no setter) and [constructor], over [Object.prototype]. *)
Definition vnode_proto_prop (k : Key) : option PropDesc :=
  match k with
  | KStr s =>
      if bool_decide (s = "child")
      then Some {| p_body := PAccessor (Some GChild) None;
                   p_enum := false; p_conf := true |}
      else if bool_decide (s = "constructor")
      then Some (data_prop (VFun (FBuiltin "VNode")) true false true)
      else object_proto_prop k
  | KIdx _ => None
  end.

(** The property [k] of [r], own or inherited.  A prototype chain has no
    cycle, so it is no longer than the store: [n] bounds the walk. *)
Fixpoint find_prop (n : nat) (st : State) (r : Ref) (k : Key) : option PropDesc :=
  match get_obj st r with
  | None => None
  | Some o =>
      match own_prop o k with
      | Some p => Some p
      | None =>
          match o_proto o with
          | ProtoNull => None
          | ProtoObject => object_proto_prop k
          | ProtoArray => array_proto_prop k
          | ProtoArrayMethods => array_methods_prop k
          | ProtoVNode => vnode_proto_prop k
          | ProtoRef r' =>
              match n with
              | 0 => None
              | S n' => find_prop n' st r' k
              end
          end
      end
  end.

Definition lookup_prop (st : State) (r : Ref) (k : Key) : option PropDesc :=
  find_prop (length (heap st)) st r k.

(** ** Helpers of [core/util] *)

(** Modelled from the spec: [isUndef] of core/util, "null/undefined". *)
Definition isUndef (v : Value) : bool :=
  match v with VUndef | VNull => true | _ => false end.

(** Modelled from the spec: [isPrimitive] of core/util, a "primitive value":
    string, number, symbol or boolean. *)
Definition isPrimitive (v : Value) : bool :=
  match v with
  | VStr _ | VNum _ | VNaN | VSym _ | VBool _ => true
  | _ => false
  end.

(** Modelled from the spec: [isObject] of core/util, a "container value":
    non-null with [typeof] "object".  Observer instances are not data and do
    not count. *)
Definition isObject (st : State) (v : Value) : bool :=
  match v with
  | VObj r => bool_decide (is_Some (get_obj st r))
  | _ => false
  end.

Definition class_of (st : State) (v : Value) : option Class :=
  match v with
  | VObj r => o_class <$> get_obj st r
  | _ => None
  end.
Definition isArray (st : State) (v : Value) : bool :=
  bool_decide (class_of st v = Some CArray).
(** Modelled from the spec: [isPlainObject] of core/util, "a plain object". *)
Definition isPlainObject (st : State) (v : Value) : bool :=
  bool_decide (class_of st v = Some CPlain).
Definition isVNode (st : State) (v : Value) : bool :=
  match v with
  | VObj r => match get_obj st r with Some o => o_vnode o | None => false end
  | _ => false
  end.
Definition isExtensible (st : State) (v : Value) : bool :=
  match v with
  | VObj r => match get_obj st r with Some o => o_ext o | None => false end
  | _ => false
  end.

(** Modelled from the spec: [isValidArrayIndex] of core/util, "a valid
    non-negative integer index". *)
Definition isValidArrayIndex (k : Key) : bool :=
  match k with KIdx _ => true | KStr _ => false end.

(** The length of a string, in UTF-16 code units.  The strings of the model
    are UTF-8 text: a byte that starts a character counts one unit, two when
    it starts a character of four bytes (beyond the basic plane, a surrogate
    pair), and a continuation byte counts none. *)
Definition utf16_units (c : Ascii.ascii) : nat :=
  let n := Ascii.nat_of_ascii c in
  if (n <? 128)%nat then 1          (* one byte *)
  else if (n <? 192)%nat then 0     (* continuation *)
  else if (n <? 240)%nat then 1     (* first of two or three bytes *)
  else 2.                           (* first of four bytes *)
Fixpoint utf16_length (s : string) : nat :=
  match s with
  | EmptyString => 0
  | String c s' => utf16_units c + utf16_length s'
  end.

(** Own keys of a primitive: a string has its indices and [length]. *)
Definition prim_has_own (v : Value) (k : Key) : bool :=
  match v, k with
  | VStr s, KIdx i => bool_decide (i < utf16_length s)
  | VStr s, KStr n => bool_decide (n = "length")
  | _, _ => false
  end.

(** Modelled from the spec: [hasOwn] of core/util, "an own property". *)
Definition hasOwn (st : State) (v : Value) (k : Key) : bool :=
  match v with
  | VObj r =>
      match get_obj st r with
      | Some o => bool_decide (is_Some (own_prop o k))
      | None => false
      end
  | _ => prim_has_own v k
  end.

Definition truthy (v : Value) : bool :=
  match v with
  | VUndef | VNull | VNaN => false
  | VBool b => b
  | VNum z => negb (z =? 0)%Z
  | VStr s => negb (bool_decide (s = ""))
  | _ => true
  end.

(** [a === b] *)
Definition strict_eq (a b : Value) : bool :=
  match a with
  | VNaN => false
  | _ => bool_decide (a = b)
  end.

(** The guard of [reactiveSetter]:
    [newVal === value || (newVal !== newVal && value !== value)]. *)
Definition unchanged (newVal value : Value) : bool :=
  strict_eq newVal value
  || (negb (strict_eq newVal newVal) && negb (strict_eq value value)).

Definition ob_key : Key := KStr "__ob__".

(** [v.__ob__].  The marker is installed by [def] as a data property; an
    accessor under that name reads as [undefined] here. *)
Definition marker_of (st : State) (v : Value) : Value :=
  match v with
  | VObj r =>
      match lookup_prop st r ob_key with
      | Some p =>
          match p_body p with
          | PData x _ => x
          | PAccessor _ _ => VUndef
          end
      | None => VUndef
      end
  | _ => VUndef
  end.

(** [v._isVue] *)
Definition isVue (st : State) (v : Value) : bool :=
  match v with
  | VObj r => match get_obj st r with Some o => o_isVue o | None => false end
  | _ => false
  end.

(** [v instanceof Observer] *)
Definition as_observer (st : State) (v : Value) : option (Ref * ObserverRec) :=
  match v with
  | VObj r => match get_observer st r with Some ob => Some (r, ob) | None => None end
  | _ => None
  end.

Fixpoint for_each {A} (l : list A) (body : A -> M unit) : M unit :=
  match l with
  | [] => ret tt
  | a :: l' => body a ;;; for_each l' body
  end.

Definition elem (st : State) (r : Ref) (i : nat) : Value :=
  match get_obj st r with
  | Some o => default VUndef (o_elems o !! i)
  | None => VUndef
  end.
Definition array_length (st : State) (r : Ref) : nat :=
  match get_obj st r with
  | Some o => length (o_elems o)
  | None => 0
  end.

(** [Object.keys(obj)]: the enumerable own keys. *)
Definition enum_keys (ps : list (Key * PropDesc)) : list Key :=
  List.filter (fun k => match assoc_lookup k ps with
                        | Some p => p_enum p
                        | None => false
                        end) (map fst ps).
Definition object_keys (st : State) (r : Ref) : list Key :=
  match get_obj st r with
  | Some o =>
      (if bool_decide (o_class o = CArray)
       then map KIdx (seq 0 (length (o_elems o))) else [])
      ++ enum_keys (o_props o)
  | None => []
  end.

(** ** dep.js *)

Definition dep_subs (st : State) (d : DepId) : list Watcher :=
  default [] (deps st !! d).
Definition set_subs (d : DepId) (l : list Watcher) (st : State) : State :=
  set_deps (<[d := l]> (deps st)) st.

(** [new Dep()]: [this.id = uid++; this.subs = []] *)
Definition newDep : M DepId := fun st =>
  (Ret (length (deps st)), set_deps (deps st ++ [[]]) st, []).

(** [addSub(sub) { this.subs.push(sub) }] *)
Definition addSub (d : DepId) (w : Watcher) (st : State) : State :=
  set_subs d (dep_subs st d ++ [w]) st.

(** Modelled from the spec: [remove] of core/util, "removal deletes first
    match". *)
Fixpoint remove (l : list Watcher) (w : Watcher) : list Watcher :=
  match l with
  | [] => []
  | x :: l' => if decide (x = w) then l' else x :: remove l' w
  end.

(** [removeSub(sub) { remove(this.subs, sub) }] *)
Definition removeSub (d : DepId) (w : Watcher) (st : State) : State :=
  set_subs d (remove (dep_subs st d) w) st.

(** Modelled from the spec: [addDep] of the subscriber (observer/watcher.js),
    "Dependency gains the Subscriber", one edge however often the slot is
    read. *)
Definition addDep (w : Watcher) (d : DepId) (st : State) : State :=
  if bool_decide (w ∈ dep_subs st d) then st else addSub d w st.

(** [depend() { if (Dep.target) Dep.target.addDep(this) }] *)
Definition depend (d : DepId) : M unit := fun st =>
  match target st with
  | TWatcher w => (Ret tt, addDep w d st, [])
  | _ => (Ret tt, st, [])
  end.

(** [subs.sort((a, b) => a.id - b.id)], a stable sort. *)
Fixpoint insert_by_id (w : Watcher) (l : list Watcher) : list Watcher :=
  match l with
  | [] => [w]
  | x :: l' =>
      if (w_id w <=? w_id x)%Z then w :: l else x :: insert_by_id w l'
  end.
Definition sort_by_id (l : list Watcher) : list Watcher :=
  foldr insert_by_id [] l.

(** [pushTarget] and [popTarget] *)
Definition pushTarget (t : Target) (st : State) : State :=
  {| heap := heap st; slots := slots st; deps := deps st;
     shouldObserve := shouldObserve st;
     target := t;
     targetStack := targetStack st ++ [t] |}.

(** [targetStack.pop(); Dep.target = targetStack[targetStack.length - 1]]:
    reading below index 0 gives [undefined]. *)
Definition popTarget (st : State) : State :=
  let stack := removelast (targetStack st) in
  {| heap := heap st; slots := slots st; deps := deps st;
     shouldObserve := shouldObserve st;
     target := default TUndef (last stack);
     targetStack := stack |}.

(** [Dep.target = null; const targetStack = []], [uid = 0],
    [shouldObserve = true], nothing allocated. *)
Definition initial : State :=
  {| heap := []; slots := []; deps := []; shouldObserve := true;
     target := TNull; targetStack := [] |}.

(** [toggleObserving] *)
Definition toggleObserving (value : bool) (st : State) : State :=
  {| heap := heap st; slots := slots st; deps := deps st;
     shouldObserve := value; target := target st;
     targetStack := targetStack st |}.

Definition target_active (st : State) : bool :=
  match target st with TWatcher _ => true | _ => false end.

Section Core.

Variable E : Env.
Variable X : Ext.

(** [notify()] *)
Definition call_update (subs : list Watcher) (i : nat) : M unit :=
  match subs !! i with
  | Some w => emit (EUpdate w) ;;; modify (x_update X w)
  | None => throw TypeError
  end.

Definition notify (d : DepId) : M unit :=
  emit (ENotify d) ;;;
  subs <- gets (fun st => dep_subs st d) ;;
  let subs :=
    if negb (production E) && negb (config_async E)
    then sort_by_id subs else subs in
  for_range 0 (length subs) (call_update subs).

(** ** index.js: reading *)

(** [e && e.__ob__ && e.__ob__.dep.depend()] *)
Definition depend_on_marker (e : Value) : M unit :=
  if truthy e then
    m <- gets (fun st => marker_of st e) ;;
    if truthy m then
      ob <- gets (fun st => as_observer st m) ;;
      match ob with
      | Some (_, ob) => depend (ob_dep ob)
      | None => throw TypeError
      end
    else ret tt
  else ret tt.

(** [dependArray(value)].  Arrays nested deeper than the store is large
    contain themselves: the recursion then exhausts the call stack. *)
Fixpoint dependArray_at (n : nat) (r : Ref) : M unit :=
  match n with
  | 0 => throw StackOverflow
  | S n' =>
      l <- gets (fun st => array_length st r) ;;
      for_range 0 l (fun i =>
        e <- gets (fun st => elem st r i) ;;
        depend_on_marker e ;;;
        isarr <- gets (fun st => isArray st e) ;;
        match e with
        | VObj r' => if isarr : bool then dependArray_at n' r' else ret tt
        | _ => ret tt
        end)
  end.
Definition dependArray (r : Ref) : M unit := fun st =>
  dependArray_at (S (length (heap st))) r st.

(** vnode.js, [get child() { return this.componentInstance }], with the
    call of a reactive getter as a parameter.  When [componentInstance] is
    itself defined with this getter the call never ends. *)
Definition child_with (rg : SlotId -> M Value) (this : Ref) : M Value :=
  p <- gets (fun st => lookup_prop st this (KStr "componentInstance")) ;;
  match p_body <$> p with
  | Some (PData v _) => ret v
  | Some (PAccessor (Some (GUser f)) _) => gets (x_get X f this)
  | Some (PAccessor (Some (GSlot s)) _) => rg s
  | Some (PAccessor (Some GChild) _) => throw StackOverflow
  | Some (PAccessor None _) => ret VUndef
  | None => ret VUndef
  end.

(** [reactiveGetter], for the slot [s].  A getter that is itself a reactive
    getter belongs to another slot; a chain longer than the number of slots
    is a cycle. *)
Fixpoint reactiveGetter_at (n : nat) (s : SlotId) : M Value :=
  match n with
  | 0 => throw StackOverflow
  | S n' =>
      sl <- gets (fun st => slots st !! s) ;;
      match sl with
      | None => ret VUndef
      | Some sl =>
          value <- match s_getter sl with
                   | Some (GUser f) => gets (x_get X f (s_obj sl))
                   | Some (GSlot s') => reactiveGetter_at n' s'
                   | Some GChild =>
                       child_with (reactiveGetter_at n') (s_obj sl)
                   | None => ret (s_val sl)
                   end ;;
          active <- gets target_active ;;
          (if active : bool then
             depend (s_dep sl) ;;;
             match s_childOb sl with
             | Some obr =>
                 ob <- gets (fun st => get_observer st obr) ;;
                 match ob with
                 | Some ob => depend (ob_dep ob)
                 | None => throw TypeError
                 end ;;;
                 isarr <- gets (fun st => isArray st value) ;;
                 match value with
                 | VObj r => if isarr : bool then dependArray r else ret tt
                 | _ => ret tt
                 end
             | None => ret tt
             end
           else ret tt) ;;;
          ret value
      end
  end.
Definition reactiveGetter (s : SlotId) : M Value := fun st =>
  reactiveGetter_at (S (length (slots st))) s st.

(** [get child()], called on [this]. *)
Definition child (this : Ref) : M Value := child_with reactiveGetter this.

Definition call_getter (g : Getter) (this : Ref) : M Value :=
  match g with
  | GUser f => gets (x_get X f this)
  | GSlot s => reactiveGetter s
  | GChild => child this
  end.

(** [obj[key]] *)
Definition get_prop (r : Ref) (k : Key) : M Value :=
  p <- gets (fun st => lookup_prop st r k) ;;
  match p_body <$> p with
  | Some (PData v _) => ret v
  | Some (PAccessor (Some g) _) => call_getter g r
  | Some (PAccessor None _) => ret VUndef
  | None => ret VUndef
  end.

(** ** index.js: defining *)

(** [Object.defineProperty(obj, key, descriptor)] for a named property.
    The elements of an array cannot carry a descriptor here; the observer
    never defines one. *)
Definition define_own (r : Ref) (k : Key) (p : PropDesc) : M unit :=
  o <- gets (fun st => get_obj st r) ;;
  match o with
  | None => throw TypeError
  | Some o =>
      match own_prop o k with
      | Some old =>
          if p_conf old && negb (bool_decide (o_class o = CArray)
                                 && is_array_index k)
          then modify (put_obj r (with_props (assoc_set k p (o_props o)) o))
          else throw TypeError
      | None =>
          if o_ext o && negb (bool_decide (o_class o = CArray)
                               && is_array_index k)
          then modify (put_obj r (with_props (assoc_set k p (o_props o)) o))
          else throw TypeError
      end
  end.

(** Modelled from the spec: [def] of core/util, a "hidden, non-enumerable,
    writable marker" ([enumerable: false, writable: true,
    configurable: true]). *)
Definition def (r : Ref) (k : Key) (v : Value) : M unit :=
  define_own r k (data_prop v true false true).

Definition prop_getter (p : option PropDesc) : option Getter :=
  match p_body <$> p with
  | Some (PAccessor g _) => g
  | _ => None
  end.
Definition prop_setter (p : option PropDesc) : option Setter :=
  match p_body <$> p with
  | Some (PAccessor _ s) => s
  | _ => None
  end.

Definition reactive_prop (s : SlotId) : PropDesc :=
  {| p_body := PAccessor (Some (GSlot s)) (Some (SSlot s));
     p_enum := true; p_conf := true |}.

Definition push_slot (sl : Slot) (st : State) : State :=
  set_slots (slots st ++ [sl]) st.

(** [defineReactive(obj, key, val, customSetter, shallow)], with the
    recursive call of [observe] as a parameter.  [val = None] is the call
    with two arguments. *)
Definition defineReactive_with (obs : Value -> M (option Ref))
    (obj : Ref) (key : Key) (val : option Value)
    (customSetter : option FnId) (shallow : bool) : M unit :=
  dep <- newDep ;;
  o <- gets (fun st => get_obj st obj) ;;
  match o with
  | None => throw TypeError
  | Some o =>
      let property := own_prop o key in
      if match property with Some p => negb (p_conf p) | None => false end
      then ret tt
      else
        let getter := prop_getter property in
        let setter := prop_setter property in
        v <- match val with
             | Some v => ret v
             | None =>
                 if negb (bool_decide (is_Some getter))
                    || bool_decide (is_Some setter)
                 then get_prop obj key
                 else ret VUndef
             end ;;
        childOb <- (if shallow then ret None else obs v) ;;
        sid <- gets (fun st => length (slots st)) ;;
        define_own obj key (reactive_prop sid) ;;;
        modify (push_slot
                  {| s_obj := obj; s_key := key; s_val := v;
                     s_childOb := childOb; s_dep := dep;
                     s_getter := getter; s_setter := setter;
                     s_custom := customSetter; s_shallow := shallow |})
  end.

(** [walk(obj)] *)
Definition walk_with (obs : Value -> M (option Ref)) (obj : Ref) : M unit :=
  keys <- gets (fun st => object_keys st obj) ;;
  for_each keys (fun k => defineReactive_with obs obj k None None false).

(** [observeArray(items)]; [read i] is [items[i]]. *)
Definition observeArray_with (obs : Value -> M (option Ref))
    (read : nat -> State -> Value) (l : nat) : M unit :=
  for_range 0 l (fun i => v <- gets (read i) ;; obs v ;;; ret tt).

(** [protoAugment(target, src)]: [target.__proto__ = src] *)
Definition protoAugment (r : Ref) : M unit :=
  modify (fun st => match get_obj st r with
                    | Some o => put_obj r (with_proto ProtoArrayMethods o) st
                    | None => st
                    end).

(** [copyAugment(target, src, keys)] *)
Definition copyAugment (r : Ref) : M unit :=
  for_each methodsToPatch
    (fun m => def r (KStr (method_name m)) (VFun (FMutator m))).

(** [new Observer(value)] *)
Definition newObserver_with (obs : Value -> M (option Ref)) (value : Ref)
  : M Ref :=
  dep <- newDep ;;
  this <- alloc (CObserver {| ob_value := value; ob_dep := dep;
                              ob_vmCount := 0 |}) ;;
  def value ob_key (VObj this) ;;;
  isarr <- gets (fun st => isArray st (VObj value)) ;;
  (if isarr : bool then
     (if hasProto E then protoAugment value else copyAugment value) ;;;
     l <- gets (fun st => array_length st value) ;;
     observeArray_with obs (fun i st => elem st value i) l
   else walk_with obs value) ;;;
  ret this.

Definition has_observer (st : State) (v : Value) : bool :=
  hasOwn st v ob_key && bool_decide (is_Some (as_observer st (marker_of st v))).

(** The conditions under which [observe] creates an Observer. *)
Definition observable (st : State) (v : Value) : bool :=
  shouldObserve st
  && negb (serverRendering E)
  && (isArray st v || isPlainObject st v)
  && isExtensible st v
  && negb (isVue st v).

Definition bump_vmCount (obr : Ref) (st : State) : State :=
  match get_observer st obr with
  | Some ob =>
      put_observer obr {| ob_value := ob_value ob; ob_dep := ob_dep ob;
                          ob_vmCount := S (ob_vmCount ob) |} st
  | None => st
  end.

(** [observe(value, asRootData)], one level. *)
Definition observe_body (obs : Value -> M (option Ref))
    (value : Value) (asRootData : bool) : M (option Ref) :=
  skip <- gets (fun st => negb (isObject st value) || isVNode st value) ;;
  if skip : bool then ret None
  else
    has <- gets (fun st => has_observer st value) ;;
    ob <- (if has : bool then
             gets (fun st => fst <$> as_observer st (marker_of st value))
           else
             can <- gets (fun st => observable st value) ;;
             match value with
             | VObj r =>
                 if can : bool then
                   this <- newObserver_with obs r ;; ret (Some this)
                 else ret None
             | _ => ret None
             end) ;;
    match ob with
    | Some obr => when asRootData (modify (bump_vmCount obr))
    | None => ret tt
    end ;;;
    ret ob.

Fixpoint observe_fuel (n : nat) (value : Value) (asRootData : bool)
  : M (option Ref) :=
  match n with
  | 0 => fun st => (OutOfFuel, st, [])
  | S n' => observe_body (fun v => observe_fuel n' v false) value asRootData
  end.

(** [observe]: each nested call first marks an object that had no Observer,
    so the nesting is bounded by the number of cells. *)
Definition observe (value : Value) (asRootData : bool) : M (option Ref) :=
  fun st => observe_fuel (S (length (heap st))) value asRootData st.

Definition defineReactive := defineReactive_with (fun v => observe v false).
Definition observeArray := observeArray_with (fun v => observe v false).

(** ** index.js: writing *)

Definition alter_slot (s : SlotId) (f : Slot -> Slot) (st : State) : State :=
  match slots st !! s with
  | Some sl => set_slots (<[s := f sl]> (slots st)) st
  | None => st
  end.
Definition with_val (v : Value) (sl : Slot) : Slot :=
  {| s_obj := s_obj sl; s_key := s_key sl; s_val := v;
     s_childOb := s_childOb sl; s_dep := s_dep sl; s_getter := s_getter sl;
     s_setter := s_setter sl; s_custom := s_custom sl;
     s_shallow := s_shallow sl |}.
Definition with_childOb (c : option Ref) (sl : Slot) : Slot :=
  {| s_obj := s_obj sl; s_key := s_key sl; s_val := s_val sl;
     s_childOb := c; s_dep := s_dep sl; s_getter := s_getter sl;
     s_setter := s_setter sl; s_custom := s_custom sl;
     s_shallow := s_shallow sl |}.

(** [getter ? getter.call(obj) : val] *)
Definition current_value (sl : Slot) : M Value :=
  match s_getter sl with
  | Some g => call_getter g (s_obj sl)
  | None => ret (s_val sl)
  end.

(** [if (process.env.NODE_ENV !== "production" && customSetter)
    customSetter()] *)
Definition call_customSetter (sl : Slot) : M unit :=
  match s_custom sl with
  | Some h =>
      when (negb (production E))
        (emit (ECustomSetter h) ;;; modify (x_hook X h))
  | None => ret tt
  end.

(** [reactiveSetter(newVal)], for the slot [s]. *)
Fixpoint reactiveSetter_at (n : nat) (s : SlotId) (newVal : Value) : M unit :=
  match n with
  | 0 => throw StackOverflow
  | S n' =>
      sl <- gets (fun st => slots st !! s) ;;
      match sl with
      | None => ret tt
      | Some sl =>
          value <- current_value sl ;;
          if unchanged newVal value then ret tt
          else
            call_customSetter sl ;;;
            if bool_decide (is_Some (s_getter sl))
               && negb (bool_decide (is_Some (s_setter sl)))
            then ret tt
            else
              match s_setter sl with
              | Some (SUser f) => modify (x_set X f (s_obj sl) newVal)
              | Some (SSlot s') => reactiveSetter_at n' s' newVal
              | None => modify (alter_slot s (with_val newVal))
              end ;;;
              childOb <- (if s_shallow sl then ret None
                          else observe newVal false) ;;
              modify (alter_slot s (with_childOb childOb)) ;;;
              notify (s_dep sl)
      end
  end.
Definition reactiveSetter (s : SlotId) (newVal : Value) : M unit := fun st =>
  reactiveSetter_at (S (length (slots st))) s newVal st.

Definition call_setter (f : Setter) (this : Ref) (v : Value) : M unit :=
  match f with
  | SUser f => modify (x_set X f this v)
  | SSlot s => reactiveSetter s v
  end.

(** [ToNumber(v)]: an integer, or not-a-number ([None]). *)
Definition toNumber (v : Value) : M (option Z) :=
  match v with
  | VNum z => ret (Some z)
  | VUndef | VNaN => ret None
  | VNull => ret (Some 0%Z)
  | VBool b => ret (Some (if b then 1 else 0)%Z)
  | VSym _ => throw TypeError
  | _ => host (x_toNumber X v)
  end.

(** [ToInteger(v)] *)
Definition toInteger (v : Value) : M Z :=
  n <- toNumber v ;; ret (default 0%Z n).

(** [target.length = n]: a length above [2^32 - 1] is a [RangeError]; a
    longer array is padded (a hole reads as [undefined]). *)
Definition set_length (r : Ref) (n : nat) : M unit :=
  if (max_array_length <? Z.of_nat n)%Z then throw RangeError
  else
    modify (fun st =>
      match get_obj st r with
      | Some o =>
          put_obj r (with_elems (take n (o_elems o)
                                 ++ replicate (n - length (o_elems o)) VUndef)
                       o) st
      | None => st
      end).

(** Writing a named property the object owns or is about to own. *)
Definition write_own (r : Ref) (o : Obj) (k : Key) (v : Value) : M unit :=
  match assoc_lookup k (o_props o) with
  | Some old =>
      modify (put_obj r (with_props
                (assoc_set k (data_prop v true (p_enum old) (p_conf old))
                   (o_props o)) o))
  | None =>
      if o_ext o
      then modify (put_obj r (with_props
                     (assoc_set k (data_prop v true true true) (o_props o)) o))
      else throw TypeError
  end.

(** [r[key] = val] in strict mode, for a key that is neither an array index
    nor the length of an array. *)
Definition put_named (r : Ref) (key : Key) (val : Value) : M unit :=
  o <- gets (fun st => get_obj st r) ;;
  match o with
  | None => throw TypeError
  | Some o =>
      p <- gets (fun st => lookup_prop st r key) ;;
      match p_body <$> p with
      | Some (PData _ true) => write_own r o key val
      | Some (PData _ false) => throw TypeError
      | Some (PAccessor _ (Some f)) => call_setter f r val
      | Some (PAccessor _ None) => throw TypeError
      | None => write_own r o key val
      end
  end.

(** [target[key] = val], in strict mode: a write that cannot be performed
    throws. *)
Definition assign (target : Value) (key : Key) (val : Value) : M unit :=
  match target with
  | VUndef | VNull => throw TypeError
  | VFun _ => ret tt
  | VObj r =>
      o <- gets (fun st => get_obj st r) ;;
      match o with
      | None => throw TypeError
      | Some o =>
          if bool_decide (o_class o = CArray) && is_array_index key then
            match key with
            | KIdx i =>
                if bool_decide (i < length (o_elems o)) || o_ext o then
                  modify (put_obj r (with_elems
                    (<[i := val]> (o_elems o
                       ++ replicate (S i - length (o_elems o)) VUndef)) o))
                else throw TypeError
            | KStr _ => ret tt
            end
          else if bool_decide (o_class o = CArray)
                  && bool_decide (key = KStr "length") then
            n <- toNumber val ;;
            match n with
            | Some n =>
                if (0 <=? n)%Z then set_length r (Z.to_nat n)
                else throw RangeError
            | None => throw RangeError
            end
          else put_named r key val
      end
  | _ => throw TypeError
  end.

(** [key in target] *)
Definition key_in (key : Key) (target : Value) : M bool :=
  match target with
  | VObj r => gets (fun st => bool_decide (is_Some (lookup_prop st r key)))
  | VFun _ => ret false
  | _ => throw TypeError
  end.

(** [key in Object.prototype] *)
Definition in_object_prototype (key : Key) : bool :=
  bool_decide (is_Some (object_proto_prop key)).

(** [delete target[key]], in strict mode. *)
Definition delete_prop (target : Value) (key : Key) : M unit :=
  match target with
  | VObj r =>
      o <- gets (fun st => get_obj st r) ;;
      match o with
      | None => ret tt
      | Some o =>
          match own_prop o key with
          | None => ret tt
          | Some p =>
              if p_conf p then
                match key with
                | KIdx i =>
                    if bool_decide (o_class o = CArray)
                       && bool_decide (i < length (o_elems o))
                    then modify (put_obj r (with_elems (<[i := VUndef]> (o_elems o)) o))
                    else modify (put_obj r (with_props (assoc_remove key (o_props o)) o))
                | KStr _ =>
                    modify (put_obj r (with_props (assoc_remove key (o_props o)) o))
                end
              else throw TypeError
          end
      end
  | VUndef | VNull => throw TypeError
  | _ => if prim_has_own target key then throw TypeError else ret tt
  end.

(** ** array.js *)

Definition new_array (es : list Value) : Cell :=
  CObj {| o_class := CArray; o_vnode := false; o_isVue := false;
          o_ext := true; o_proto := ProtoArray; o_props := [];
          o_elems := es |}.

Definition put_elems (r : Ref) (o : Obj) (es : list Value) : M unit :=
  modify (put_obj r (with_elems es o)).

(** The places [from, upto) of a list, each with its index. *)
Definition places (from upto : nat) (l : list Value) : list (nat * Value) :=
  zip (seq from (upto - from)) (take (upto - from) (drop from l)).

(** The writes of [push], [unshift] and [splice] on the array [o]: [d]
    elements are removed at [s] and [items] put in their place.  Nothing
    fails while no property is created.  On an array that is not
    extensible the first write that would create one throws a [TypeError]:
    at once when elements have to move up, after the [d] existing places
    have been rewritten when there are none.  An array that would grow
    beyond [2^32 - 1] gets all its writes (the elements that move up, from
    the last, then the items, from the first), those beyond the last index
    as named properties, and then a [RangeError] from the write of
    [length]. *)
Definition replace_at (this : Ref) (o : Obj) (s d : nat) (items : list Value)
  : M unit :=
  let es := o_elems o in
  let all := take s es ++ items ++ drop (s + d) es in
  if (length items <=? d)%nat then put_elems this o all
  else if negb (o_ext o) then
    when (bool_decide (s + d = length es) && (0 <? d)%nat)
      (put_elems this o (take s es ++ take d items)) ;;;
    throw TypeError
  else if (Z.of_nat (length all) <=? max_array_length)%Z
  then put_elems this o all
  else
    let m := Z.to_nat max_array_length in
    for_each (rev (places (Nat.max m (s + length items)) (length all) all))
      (fun pv => put_named this (KIdx pv.1) pv.2) ;;;
    modify (fun st =>
      match get_obj st this with
      | Some o' => put_obj this (with_elems (take m all) o') st
      | None => st
      end) ;;;
    for_each (places m (s + length items) all)
      (fun pv => put_named this (KIdx pv.1) pv.2) ;;;
    throw RangeError.

(** [Array.prototype[method].apply(this, args)] on an array. *)
Definition native (m : Method) (this : Ref) (args : list Value) : M Value :=
  o <- gets (fun st => get_obj st this) ;;
  match o with
  | None => throw TypeError
  | Some o =>
      let es := o_elems o in
      if negb (bool_decide (o_class o = CArray)) then throw TypeError
      else
        match m with
        | Push =>
            replace_at this o (length es) 0 args ;;;
            ret (VNum (Z.of_nat (length (es ++ args))))
        | Unshift =>
            replace_at this o 0 0 args ;;;
            ret (VNum (Z.of_nat (length (args ++ es))))
        | Pop =>
            match last es with
            | Some v => put_elems this o (removelast es) ;;; ret v
            | None => ret VUndef
            end
        | Shift =>
            match es with
            | v :: es' => put_elems this o es' ;;; ret v
            | [] => ret VUndef
            end
        | Splice =>
            match args with
            | [] => r <- alloc (new_array []) ;; ret (VObj r)
            | start :: rest =>
                let len := Z.of_nat (length es) in
                rel <- toInteger start ;;
                let from :=
                  Z.to_nat (if (rel <? 0)%Z then Z.max (len + rel) 0
                            else Z.min rel len) in
                count <- match rest with
                         | [] => ret (length es - from)
                         | d :: _ =>
                             dc <- toInteger d ;;
                             ret (Z.to_nat (Z.min (Z.max dc 0)
                                              (len - Z.of_nat from)))
                         end ;;
                replace_at this o from count (drop 1 rest) ;;;
                r <- alloc (new_array (take count (drop from es))) ;;
                ret (VObj r)
            end
        | Sort =>
            match args with
            | [] | VUndef :: _ | VFun _ :: _ =>
                sorted <- host (x_sort X args es) ;;
                put_elems this o sorted ;;;
                ret (VObj this)
            | _ => throw TypeError
            end
        | Reverse => put_elems this o (rev es) ;;; ret (VObj this)
        end
  end.

(** What a call introduces: [args] for [push] and [unshift],
    [args.slice(2)] for [splice]. *)
Definition inserted_of (m : Method) (args : list Value) : option (list Value) :=
  match m with
  | Push | Unshift => Some args
  | Splice => Some (drop 2 args)
  | _ => None
  end.

Definition read_list (l : list Value) (i : nat) (_ : State) : Value :=
  default VUndef (l !! i).

(** [function mutator(...args)], the interceptor of [method]. *)
Definition mutator (m : Method) (this : Ref) (args : list Value) : M Value :=
  result <- native m this args ;;
  ob <- gets (fun st => marker_of st (VObj this)) ;;
  match inserted_of m args with
  | Some inserted =>
      o <- gets (fun st => as_observer st ob) ;;
      match o with
      | Some _ => observeArray (read_list inserted) (length inserted)
      | None => throw TypeError
      end
  | None => ret tt
  end ;;;
  o <- gets (fun st => as_observer st ob) ;;
  match o with
  | Some (_, rec) => notify (ob_dep rec)
  | None => throw TypeError
  end ;;;
  ret result.

(** [target.method(...args)] where [target] is an array: the method found on
    the prototype chain, which the observer may have replaced. *)
Definition call_method (target : Ref) (m : Method) (args : list Value)
  : M Value :=
  p <- gets (fun st => lookup_prop st target (KStr (method_name m))) ;;
  match p_body <$> p with
  | Some (PData (VFun (FMutator m')) _) => mutator m' target args
  | Some (PData (VFun (FNative m')) _) => native m' target args
  | _ => throw TypeError
  end.

(** ** index.js: [set] and [del] *)

(** [ob && ob.vmCount] *)
Definition root_count (st : State) (ob : Value) : bool :=
  match as_observer st ob with
  | Some (_, rec) => negb (Nat.eqb (ob_vmCount rec) 0)
  | None => false
  end.

(** [warn(`... ${target}`)] for a target that is no object: the message is
    built first, and a symbol cannot be converted to a string. *)
Definition warn_value (m : Msg) (target : Value) : M unit :=
  match target with
  | VSym _ => throw TypeError
  | _ => emit (EWarn m)
  end.

Definition set (target : Value) (key : Key) (val : Value) : M Value :=
  when (negb (production E) && (isUndef target || isPrimitive target))
    (warn_value WarnSetPrimitive target) ;;;
  isarr <- gets (fun st => isArray st target) ;;
  if isarr && isValidArrayIndex key then
    match target, key with
    | VObj r, KIdx k =>
        len <- gets (fun st => array_length st r) ;;
        set_length r (Nat.max len k) ;;;
        call_method r Splice [VNum (Z.of_nat k); VNum 1; val] ;;;
        ret val
    | _, _ => ret val
    end
  else
    present <- key_in key target ;;
    if present && negb (in_object_prototype key) then
      assign target key val ;;;
      ret val
    else
      ob <- gets (fun st => marker_of st target) ;;
      isvue <- gets (fun st => isVue st target) ;;
      root <- gets (fun st => root_count st ob) ;;
      if isvue || root then
        when (negb (production E)) (emit (EWarn WarnAvoidAdding)) ;;;
        ret val
      else if negb (truthy ob) then
        assign target key val ;;;
        ret val
      else
        o <- gets (fun st => as_observer st ob) ;;
        match o with
        | Some (obr, rec) =>
            defineReactive (ob_value rec) key (Some val) None false ;;;
            o' <- gets (fun st => get_observer st obr) ;;
            match o' with
            | Some rec' => notify (ob_dep rec')
            | None => throw TypeError
            end ;;;
            ret val
        | None => throw TypeError
        end.

Definition del (target : Value) (key : Key) : M unit :=
  when (negb (production E) && (isUndef target || isPrimitive target))
    (warn_value WarnDelPrimitive target) ;;;
  isarr <- gets (fun st => isArray st target) ;;
  if isarr && isValidArrayIndex key then
    match target, key with
    | VObj r, KIdx k =>
        call_method r Splice [VNum (Z.of_nat k); VNum 1] ;;;
        ret tt
    | _, _ => ret tt
    end
  else if isUndef target then throw TypeError
  else
    ob <- gets (fun st => marker_of st target) ;;
    isvue <- gets (fun st => isVue st target) ;;
    root <- gets (fun st => root_count st ob) ;;
    if isvue || root then
      when (negb (production E)) (emit (EWarn WarnAvoidDeleting))
    else
      own <- gets (fun st => hasOwn st target key) ;;
      if negb own then ret tt
      else
        delete_prop target key ;;;
        if negb (truthy ob) then ret tt
        else
          o <- gets (fun st => as_observer st ob) ;;
          match o with
          | Some (_, rec) => notify (ob_dep rec)
          | None => throw TypeError
          end.

End Core.

(** ** Reading a trace *)

(** The subscribers whose [update] a trace calls, in call order. *)
Definition updates (tr : list Event) : list Watcher :=
  omap (fun e => match e with EUpdate w => Some w | _ => None end) tr.

(** The number of [notify()] calls on the Dep [d] in a trace. *)
Definition notified (d : DepId) (tr : list Event) : nat :=
  length (List.filter (fun e => bool_decide (e = ENotify d)) tr).

(** [notify()] calls on any Dep. *)
Definition notifications (tr : list Event) : list DepId :=
  omap (fun e => match e with ENotify d => Some d | _ => None end) tr.


(** [Dep.target] is the top of the stack, [undefined] when it is empty. *)
Definition target_synced (st : State) : Prop :=
  target st = default TUndef (last (targetStack st)).

(** ** Sample configurations and stores *)

Definition env_dev : Env :=
  {| production := false; config_async := false; hasProto := true;
     serverRendering := false |}.
Definition env_dev_async : Env :=
  {| production := false; config_async := true; hasProto := true;
     serverRendering := false |}.
Definition env_prod_sync : Env :=
  {| production := true; config_async := false; hasProto := true;
     serverRendering := false |}.

(** Subscribers that do nothing, accessors that read [undefined]. *)
Definition ext_idle : Ext :=
  {| x_update := fun _ st => st;
     x_get := fun _ _ _ => VUndef;
     x_set := fun _ _ _ st => st;
     x_hook := fun _ st => st;
     x_sort := fun _ l _ => inr l;
     x_toNumber := fun _ _ => inr None |}.

(** A [customSetter] that writes elsewhere: the hook stores [0] in the
    closure of the slot [1]. *)
Definition ext_hook_writes : Ext :=
  {| x_update := fun _ st => st;
     x_get := fun _ _ _ => VUndef;
     x_set := fun _ _ _ st => st;
     x_hook := fun _ st => alter_slot 1 (with_val (VNum 0)) st;
     x_sort := fun _ l _ => inr l;
     x_toNumber := fun _ _ => inr None |}.

Definition watcher1 : Watcher := {| w_ref := 1; w_id := 1 |}.
Definition watcher2 : Watcher := {| w_ref := 2; w_id := 2 |}.
Definition watcher3 : Watcher := {| w_ref := 3; w_id := 3 |}.

(** Subscribers that rewrite the list they are called from: the update of
    [watcher2] subscribes [watcher3] to the Dep 0 and unsubscribes
    [watcher1]. *)
Definition ext_resubscribe : Ext :=
  {| x_update := fun w st =>
       if decide (w = watcher2)
       then removeSub 0 watcher1 (addSub 0 watcher3 st) else st;
     x_get := fun _ _ _ => VUndef;
     x_set := fun _ _ _ st => st;
     x_hook := fun _ st => st;
     x_sort := fun _ l _ => inr l;
     x_toNumber := fun _ _ => inr None |}.

(** One Dep to which [watcher2] subscribed before [watcher1]. *)
Definition store_two_subs : State :=
  {| heap := []; slots := []; deps := [[watcher2; watcher1]];
     shouldObserve := true; target := TNull; targetStack := [] |}.

Definition plain_object (ps : list (Key * PropDesc)) : Cell :=
  CObj {| o_class := CPlain; o_vnode := false; o_isVue := false;
          o_ext := true; o_proto := ProtoObject; o_props := ps;
          o_elems := [] |}.
Definition plain_prop (v : Value) : PropDesc := data_prop v true true true.

(** [a = { n: 1, b: b }], [b = { back: a }], [xs = [1, b]],
    nothing observed yet. *)
Definition store_graph : State :=
  {| heap := [ plain_object [(KStr "n", plain_prop (VNum 1));
                             (KStr "b", plain_prop (VObj 1))];
               plain_object [(KStr "back", plain_prop (VObj 0))];
               new_array [VNum 1; VObj 1] ];
     slots := []; deps := []; shouldObserve := true;
     target := TNull; targetStack := [] |}.

(** [store_graph] after [observe(a, true)] and [observe(xs)]. *)
Definition store_observed : State :=
  post (observe env_dev ext_idle (VObj 2) false
          (post (observe env_dev ext_idle (VObj 0) true store_graph))).

(** [xs = [1]] observed, with [watcher1] subscribed to its Observer's Dep,
    and [item = { k: 2 }] not observed. *)
Definition store_list : State :=
  addSub 0 watcher1
    (post (observe env_dev ext_idle (VObj 0) false
       {| heap := [ new_array [VNum 1];
                    plain_object [(KStr "k", plain_prop (VNum 2))] ];
          slots := []; deps := []; shouldObserve := true;
          target := TNull; targetStack := [] |})).

(** [Object.preventExtensions(r)] *)
Definition preventExtensions (r : Ref) (st : State) : State :=
  match get_obj st r with
  | Some o =>
      put_obj r {| o_class := o_class o; o_vnode := o_vnode o;
                   o_isVue := o_isVue o; o_ext := false;
                   o_proto := o_proto o; o_props := o_props o;
                   o_elems := o_elems o |} st
  | None => st
  end.

(** [store_list] after [Object.preventExtensions(xs)]. *)
Definition store_closed : State := preventExtensions 0 store_list.

(** [xs = [1]] observed, and [item] with an own property [__ob__] that is
    not configurable and holds [0]. *)
Definition store_stubborn : State :=
  post (observe env_dev ext_idle (VObj 0) false
     {| heap := [ new_array [VNum 1];
                  plain_object [(ob_key, data_prop (VNum 0) true false false)] ];
        slots := []; deps := []; shouldObserve := true;
        target := TNull; targetStack := [] |}).

(** A slot over a property that had a getter and no setter, defined with a
    [customSetter]; and a plain slot holding not-a-number. *)
Definition store_slots : State :=
  {| heap := [ plain_object [(KStr "ro", reactive_prop 0);
                             (KStr "x", reactive_prop 1)] ];
     slots := [ {| s_obj := 0; s_key := KStr "ro"; s_val := VUndef;
                   s_childOb := None; s_dep := 0;
                   s_getter := Some (GUser 0); s_setter := None;
                   s_custom := Some 7; s_shallow := false |};
                {| s_obj := 0; s_key := KStr "x"; s_val := VNaN;
                   s_childOb := None; s_dep := 1;
                   s_getter := None; s_setter := None;
                   s_custom := None; s_shallow := false |} ];
     deps := [[watcher1]; [watcher1; watcher2]];
     shouldObserve := true; target := TNull; targetStack := [] |}.

(** [root = { a: 1 }] observed as root data, after [watcher1] evaluated
    [root.a] between [pushTarget(watcher1)] and [popTarget()]. *)
Definition store_root_read : State :=
  popTarget
    (post (get_prop ext_idle 0 (KStr "a")
       (pushTarget (TWatcher watcher1)
          (post (observe env_dev ext_idle (VObj 0) true
             {| heap := [ plain_object [(KStr "a", plain_prop (VNum 1))] ];
                slots := []; deps := []; shouldObserve := true;
                target := TNull; targetStack := [] |}))))).

(** [letters = ["a", "b", "c", "d"]] and [bag = {}], both observed. *)
Definition store_letters : State :=
  post (observe env_dev ext_idle (VObj 1) false
    (post (observe env_dev ext_idle (VObj 0) false
       {| heap := [ new_array [VStr "a"; VStr "b"; VStr "c"; VStr "d"];
                    plain_object [] ];
          slots := []; deps := []; shouldObserve := true;
          target := TNull; targetStack := [] |}))).

(** The elements of the array [r]. *)
Definition elems_of (st : State) (r : Ref) : list Value :=
  match get_obj st r with
  | Some o => o_elems o
  | None => []
  end.


(** A run of [observe] calls, one after the other. *)
Fixpoint observe_all (E : Env) (X : Ext) (l : list (Value * bool))
    (st : State) : State :=
  match l with
  | [] => st
  | (v, a) :: l' => observe_all E X l' (post (observe E X v a st))
  end.

(** ** What observation maintains *)

(** The Observer an object carries: its own data property [__ob__], when it
    holds an Observer instance. *)
Definition marker_data (o : Obj) : option Ref :=
  match p_body <$> own_prop o ob_key with
  | Some (PData (VObj r) _) => Some r
  | _ => None
  end.
Definition marker_ref (st : State) (r : Ref) : option Ref :=
  match get_obj st r with
  | Some o =>
      match marker_data o with
      | Some obr =>
          match get_observer st obr with Some _ => Some obr | None => None end
      | None => None
      end
  | None => None
  end.

(** The objects that carry no Observer. *)
Definition unobserved (st : State) : list Ref :=
  List.filter
    (fun r => bool_decide (is_Some (get_obj st r))
              && negb (bool_decide (is_Some (marker_ref st r))))
    (seq 0 (length (heap st))).

(** What [observe] may do to a store: objects keep their identity, kind,
    flags and elements, Observers once attached stay attached, no object is
    created, and the reader context is left alone. *)
Record obs_le (st st' : State) : Prop := {
  le_should : shouldObserve st' = shouldObserve st;
  le_target : target st' = target st;
  le_stack : targetStack st' = targetStack st;
  le_obj : forall r o, get_obj st r = Some o ->
    exists o', get_obj st' r = Some o' /\ o_class o' = o_class o /\
               o_vnode o' = o_vnode o /\ o_isVue o' = o_isVue o /\
               o_ext o' = o_ext o /\ o_elems o' = o_elems o;
  le_new : forall r, is_Some (get_obj st' r) -> is_Some (get_obj st r);
  le_marker : forall r obr,
    marker_ref st r = Some obr -> marker_ref st' r = Some obr;
  le_observer : forall r ob, get_observer st r = Some ob ->
    exists ob', get_observer st' r = Some ob' /\
                ob_dep ob' = ob_dep ob /\ ob_value ob' = ob_value ob
}.

(** ** Notions used in the proofs *)


(** The list [notify] iterates over. *)
Definition firing_order (E : Env) (st : State) (d : DepId) : list Watcher :=
  if negb (production E) && negb (config_async E)
  then sort_by_id (dep_subs st d) else dep_subs st d.

(** [m] emits nothing and moves the store along [R]. *)
Definition preserves (R : State -> State -> Prop) {A} (m : M A) : Prop :=
  forall st, R st (post (m st)) /\ trace (m st) = [].

(** The stores differ in the subscriber lists at most. *)
Definition same_but_deps (st st' : State) : Prop :=
  heap st' = heap st /\ slots st' = slots st /\
  shouldObserve st' = shouldObserve st /\ target st' = target st /\
  targetStack st' = targetStack st.

(** [m] never runs out of fuel. *)
Definition total {A} (m : M A) : Prop :=
  forall st, outcome (m st) <> OutOfFuel.

(** [m] does not run out of fuel where fewer than [n] objects lack an
    Observer. *)
Definition fuel_ok (n : nat) {A} (m : M A) : Prop :=
  forall st, length (unobserved st) < n -> outcome (m st) <> OutOfFuel.

(** Every event of [m] satisfies [P]. *)
Definition emits (P : Event -> Prop) {A} (m : M A) : Prop :=
  forall st, Forall P (trace (m st)).

(** The events of a write: notifications, updates and the [customSetter]
    call, never a warning. *)
Definition write_event (e : Event) : Prop :=
  match e with EWarn _ => False | _ => True end.

(** A store that differs from [st] in the elements of the array [this] and
    in arrays created since. *)
Record array_step (this : Ref) (st st' : State) : Prop := {
  as_observer_same : forall x, get_observer st' x = get_observer st x;
  as_marker : forall r, is_Some (get_obj st r) ->
    marker_ref st' r = marker_ref st r;
  as_class : forall r o, get_obj st r = Some o ->
    exists o', get_obj st' r = Some o' /\ o_class o' = o_class o /\
               o_props o' = o_props o /\ o_proto o' = o_proto o /\
               (r <> this -> o' = o);
  as_deps : deps st' = deps st;
  as_slots : slots st' = slots st;
  as_should : shouldObserve st' = shouldObserve st;
  as_target : target st' = target st
}.

Abbreviation attaches := (preserves obs_le).
Abbreviation reads := (preserves same_but_deps).

(** ** What observation leaves as it was *)

(** What [observe] leaves alone: an object in [P] that carried an Observer
    before, or carries none afterwards, or is a VNode, is not rewritten,
    and the closures that existed stay as they were. *)
Record kept (P : Ref -> Prop) (st st' : State) : Prop := {
  kept_le : obs_le st st';
  kept_obj : forall r, P r ->
    is_Some (marker_ref st r) \/ marker_ref st' r = None ->
    get_obj st' r = get_obj st r;
  kept_vnode : forall r o, P r -> get_obj st r = Some o -> o_vnode o = true ->
    get_obj st' r = Some o;
  kept_slots : forall s sl, slots st !! s = Some sl -> slots st' !! s = Some sl
}.

(** The named property [k] of [r] holds [v]: as a data property, or as a
    property made reactive by the Observer of [r], in a closure without a
    getter of its own. *)
Definition reads_as (st : State) (r : Ref) (k : Key) (v : Value) : Prop :=
  exists o p, get_obj st r = Some o /\ o_class o <> CArray /\
    assoc_lookup k (o_props o) = Some p /\
    match p_body p with
    | PData x _ => x = v
    | PAccessor (Some (GSlot s)) _ =>
        is_Some (marker_ref st r) /\
        exists sl, slots st !! s = Some sl /\ s_getter sl = None /\
                   s_val sl = v
    | _ => False
    end.

(** Every named data property of [o], the marker apart, holds in [r] the
    value it has in [o]. *)
Definition reads_like (st : State) (r : Ref) (o : Obj) : Prop :=
  forall k v w e c, k <> ob_key ->
    assoc_lookup k (o_props o) = Some (data_prop v w e c) -> reads_as st r k v.

(** [kept], and the objects in [P] that are no arrays read as before. *)
Record transparent (P : Ref -> Prop) (st st' : State) : Prop := {
  tr_kept : kept P st st';
  tr_reads : forall r o, P r -> get_obj st r = Some o ->
    o_class o <> CArray -> NoDup (map fst (o_props o)) ->
    (exists o', get_obj st' r = Some o' /\ NoDup (map fst (o_props o'))) /\
    reads_like st' r o
}.

(** While [walk] runs on [r], which was [o] when [observe] reached it: [r]
    reads like [o], and the keys still to visit are as they are in [o]. *)
Definition walking (st : State) (r : Ref) (o : Obj) (todo : list Key) : Prop :=
  is_Some (marker_ref st r) /\
  exists o', get_obj st r = Some o' /\ o_class o' <> CArray /\
    NoDup (map fst (o_props o')) /\
    forall k v w e c, k <> ob_key ->
      assoc_lookup k (o_props o) = Some (data_prop v w e c) ->
      reads_as st r k v /\
      (k ∈ todo -> assoc_lookup k (o_props o') = Some (data_prop v w e c)).

(** [new Observer(value)] after its first three statements: the store in
    which the Dep and the Observer exist and [value], which was [o], carries
    the marker; and the statements that follow. *)
Definition marked_store (st : State) (r : Ref) (o : Obj) : State :=
  let st_d := set_deps (deps st ++ [[]]) st in
  put_obj r
    (with_props (assoc_set ob_key
                   (data_prop (VObj (length (heap st))) true false true)
                   (o_props o)) o)
    (set_heap (heap st_d ++ [CObserver {| ob_value := r;
                                          ob_dep := length (deps st);
                                          ob_vmCount := 0 |}]) st_d).

Definition observer_rest (E : Env) (X : Ext) (obs : Value -> M (option Ref))
    (r this : Ref) : M Ref :=
  isarr <- gets (fun st => isArray st (VObj r)) ;;
  (if isarr : bool then
     (if hasProto E then protoAugment r else copyAugment r) ;;;
     l <- gets (fun st => array_length st r) ;;
     observeArray_with obs (fun i st => elem st r i) l
   else walk_with X obs r) ;;;
  ret this.

(** Whether [def(value, "__ob__", this)] can define the marker. *)
Definition marker_definable (o : Obj) : bool :=
  match own_prop o ob_key with
  | Some old => p_conf old
  | None => o_ext o
  end.

(** [m'] does what [m] does wherever [m] does not run out of fuel. *)
Definition extends {A} (m m' : M A) : Prop :=
  forall st, outcome (m st) <> OutOfFuel -> m' st = m st.

(** The events of a production build: notifications and updates; no warning,
    no [customSetter] call. *)
Definition silent (e : Event) : Prop :=
  match e with EWarn _ | ECustomSetter _ => False | _ => True end.

(** ** Runs of [pushTarget] and [popTarget] *)

Inductive TargetOp := OpPush (t : Target) | OpPop.

Fixpoint run_targets (ops : list TargetOp) (st : State) : State :=
  match ops with
  | [] => st
  | OpPush t :: ops' => run_targets ops' (pushTarget t st)
  | OpPop :: ops' => run_targets ops' (popTarget st)
  end.

(** Every [popTarget] of the run answers a [pushTarget] of the run, and
    [depth] pushes made before it besides. *)
Fixpoint closes (depth : nat) (ops : list TargetOp) : bool :=
  match ops with
  | [] => Nat.eqb depth 0
  | OpPush _ :: ops' => closes (S depth) ops'
  | OpPop :: ops' =>
      match depth with
      | 0 => false
      | S d => closes d ops'
      end
  end.

(** ** vdom/vnode.js *)

(** What the VNode code asks of the engine beyond the object model: a
    member of a primitive value (found on the prototype of its wrapper);
    [String(v)] for a symbol, a function or a number beyond the safe
    integers; [String(v)] for an object, which calls the object's
    [toString] and [valueOf] and throws when they give no primitive; and a
    [slice] method other than [Array.prototype.slice] on an array. *)
Record Host := {
  h_member : Value -> Key -> Value;
  h_string : Value -> string;
  h_object_string : Ref -> M string;
  h_slice : Value -> M Value
}.

(** A VNode instance: an ordinary object whose prototype is
    [VNode.prototype]. *)
Definition vnode_object (ps : list (Key * PropDesc)) : Obj :=
  {| o_class := CPlain; o_vnode := true; o_isVue := false; o_ext := true;
     o_proto := ProtoVNode; o_props := ps; o_elems := [] |}.

(** A field as an own data property, as [this.f = v] creates it. *)
Definition field_prop (kv : string * Value) : Key * PropDesc :=
  (KStr kv.1, data_prop kv.2 true true true).

(** The own data property [k] of [o], [undefined] without one. *)
Definition field (o : Obj) (k : string) : Value :=
  match p_body <$> assoc_lookup (KStr k) (o_props o) with
  | Some (PData v _) => v
  | _ => VUndef
  end.

(** [String(v)] for a value that is no object.  An integer up to [2^53]
    prints its decimal digits. *)
Definition string_of (H : Host) (v : Value) : string :=
  match v with
  | VStr s => s
  | VNum z => if (Z.abs z <=? 2 ^ 53)%Z then pretty z else h_string H v
  | VNaN => "NaN"
  | VUndef => "undefined"
  | VNull => "null"
  | VBool b => if b then "true" else "false"
  | _ => h_string H v
  end.

(** [String(v)] *)
Definition to_string (H : Host) (v : Value) : M string :=
  match v with
  | VObj r => h_object_string H r
  | _ => ret (string_of H v)
  end.

(** The field [k] of the object [r] of a store. *)
Definition field_of (st : State) (r : Ref) (k : string) : Value :=
  match get_obj st r with
  | Some o => field o k
  | None => VUndef
  end.

(** Whether a property is [Array.prototype.slice]. *)
Definition is_array_slice (p : option PropDesc) : bool :=
  match p_body <$> p with
  | Some (PData (VFun (FBuiltin "slice")) _) => true
  | _ => false
  end.

Section VNode.

Variable E : Env.
Variable X : Ext.
Variable H : Host.

(** [v.k] *)
Definition member (v : Value) (k : string) : M Value :=
  match v with
  | VObj r => get_prop X r (KStr k)
  | VUndef | VNull => throw TypeError
  | _ => ret (h_member H v (KStr k))
  end.

(** [this.k1 = v1; this.k2 = v2; ...] *)
Definition assign_all (this : Ref) (l : list (string * Value)) : M unit :=
  for_each l (fun kv => assign E X (VObj this) (KStr kv.1) kv.2).

(** [constructor(tag, data, children, text, elm, context, componentOptions,
    asyncFactory)]; an argument left out is [undefined]. *)
Definition newVNode (tag data children text elm context componentOptions
    asyncFactory : Value) : M Ref :=
  this <- alloc (CObj (vnode_object [])) ;;
  assign_all this
    [("tag", tag); ("data", data); ("children", children); ("text", text);
     ("elm", elm); ("ns", VUndef); ("context", context);
     ("fnContext", VUndef); ("fnOptions", VUndef); ("fnScopeId", VUndef)] ;;;
  key <- (if truthy data then member data "key" else ret data) ;;
  assign_all this
    [("key", key); ("componentOptions", componentOptions);
     ("componentInstance", VUndef); ("parent", VUndef);
     ("raw", VBool false); ("isStatic", VBool false);
     ("isRootInsert", VBool true); ("isComment", VBool false);
     ("isCloned", VBool false); ("isOnce", VBool false);
     ("asyncFactory", asyncFactory); ("asyncMeta", VUndef);
     ("isAsyncPlaceholder", VBool false)] ;;;
  ret this.

(** [createEmptyVNode = (text = "") => ...] *)
Definition createEmptyVNode (text : Value) : M Ref :=
  let text := match text with VUndef => VStr "" | _ => text end in
  node <- newVNode VUndef VUndef VUndef VUndef VUndef VUndef VUndef VUndef ;;
  assign E X (VObj node) (KStr "text") text ;;;
  assign E X (VObj node) (KStr "isComment") (VBool true) ;;;
  ret node.

(** [createTextVNode(val)] *)
Definition createTextVNode (val : Value) : M Ref :=
  text <- to_string H val ;;
  newVNode VUndef VUndef VUndef (VStr text) VUndef VUndef VUndef VUndef.

(** [c.slice()]: on an array whose [slice] is [Array.prototype.slice], a
    new array of the same elements. *)
Definition call_slice (c : Value) : M Value :=
  match c with
  | VObj r =>
      native_slice <- gets (fun st =>
        isArray st c && is_array_slice (lookup_prop st r (KStr "slice"))) ;;
      if native_slice : bool then
        es <- gets (fun st => elems_of st r) ;;
        copy <- alloc (new_array es) ;;
        ret (VObj copy)
      else h_slice H c
  | VUndef | VNull => throw TypeError
  | _ => h_slice H c
  end.

(** [cloned.k = vnode.k] *)
Definition copy_field (vnode : Value) (cloned : Ref) (k : string) : M unit :=
  v <- member vnode k ;; assign E X (VObj cloned) (KStr k) v.

(** [cloneVNode(vnode)] *)
Definition cloneVNode (vnode : Value) : M Ref :=
  tag <- member vnode "tag" ;;
  data <- member vnode "data" ;;
  c <- member vnode "children" ;;
  children <- (if truthy c then
                 c' <- member vnode "children" ;; call_slice c'
               else ret c) ;;
  text <- member vnode "text" ;;
  elm <- member vnode "elm" ;;
  context <- member vnode "context" ;;
  componentOptions <- member vnode "componentOptions" ;;
  asyncFactory <- member vnode "asyncFactory" ;;
  cloned <- newVNode tag data children text elm context componentOptions
              asyncFactory ;;
  for_each ["ns"; "isStatic"; "key"; "isComment"; "fnContext"; "fnOptions";
            "fnScopeId"; "asyncMeta"] (copy_field vnode cloned) ;;;
  assign E X (VObj cloned) (KStr "isCloned") (VBool true) ;;;
  ret cloned.

End VNode.

(** The field names of a VNode, in the order the constructor assigns them. *)
Definition vnode_field_names : list string :=
  ["tag"; "data"; "children"; "text"; "elm"; "ns"; "context"; "fnContext";
   "fnOptions"; "fnScopeId"; "key"; "componentOptions"; "componentInstance";
   "parent"; "raw"; "isStatic"; "isRootInsert"; "isComment"; "isCloned";
   "isOnce"; "asyncFactory"; "asyncMeta"; "isAsyncPlaceholder"].

(** A VNode whose fields are what the constructor made them: own data
    properties that can be written. *)
Definition vnode_at (st : State) (r : Ref) (o : Obj) : Prop :=
  get_obj st r = Some o /\ o_class o = CPlain /\ o_vnode o = true /\
  o_ext o = true /\ o_proto o = ProtoVNode /\
  forall k p, assoc_lookup k (o_props o) = Some p ->
    exists v, p_body p = PData v true.

(** Values whose member [key] is read without running code: what is no
    object, and an object that has [key] as an own data property, or has no
    such property and inherits from [Object.prototype] at most. *)
Definition plain_key (st : State) (data : Value) : Prop :=
  match data with
  | VObj r =>
      exists o, get_obj st r = Some o /\
        match own_prop o (KStr "key") with
        | Some p => exists v w, p_body p = PData v w
        | None => o_proto o = ProtoObject \/ o_proto o = ProtoNull
        end
  | VUndef | VNull => False
  | _ => True
  end.

(** The key a constructor derives from [data]: [data && data.key]. *)
Definition data_key (H : Host) (st : State) (data : Value) : Value :=
  if truthy data then
    match data with
    | VObj r =>
        match lookup_prop st r (KStr "key") with
        | Some p => match p_body p with PData v _ => v | _ => VUndef end
        | None => VUndef
        end
    | _ => h_member H data (KStr "key")
    end
  else data.

(** What [this.k = v] makes of the properties of an extensible object on
    which [k] is an own writable data property or is not found at all. *)
Definition write_field (k : Key) (v : Value) (ps : list (Key * PropDesc))
  : list (Key * PropDesc) :=
  match assoc_lookup k ps with
  | Some old => assoc_set k (data_prop v true (p_enum old) (p_conf old)) ps
  | None => assoc_set k (data_prop v true true true) ps
  end.

Definition write_fields (l : list (string * Value))
    (ps : list (Key * PropDesc)) : list (Key * PropDesc) :=
  foldl (fun ps kv => write_field (KStr kv.1) kv.2 ps) ps l.

(** The VNode with the given fields. *)
Definition vnode_with (tag data children text elm ns context fnContext
    fnOptions fnScopeId key componentOptions componentInstance parent raw
    isStatic isRootInsert isComment isCloned isOnce asyncFactory asyncMeta
    isAsyncPlaceholder : Value) : Obj :=
  vnode_object (map field_prop
    [("tag", tag); ("data", data); ("children", children); ("text", text);
     ("elm", elm); ("ns", ns); ("context", context);
     ("fnContext", fnContext); ("fnOptions", fnOptions);
     ("fnScopeId", fnScopeId); ("key", key);
     ("componentOptions", componentOptions);
     ("componentInstance", componentInstance); ("parent", parent);
     ("raw", raw); ("isStatic", isStatic); ("isRootInsert", isRootInsert);
     ("isComment", isComment); ("isCloned", isCloned); ("isOnce", isOnce);
     ("asyncFactory", asyncFactory); ("asyncMeta", asyncMeta);
     ("isAsyncPlaceholder", isAsyncPlaceholder)]).

(** A [children] value that [cloneVNode] copies without calling into the
    host: a falsy value, which is passed on, or an array whose [slice] is
    [Array.prototype.slice]. *)
Definition native_children (st : State) (c : Value) : Prop :=
  truthy c = false \/
  exists a, c = VObj a /\ isArray st c = true /\
    is_array_slice (lookup_prop st a (KStr "slice")) = true.

(** A host that is never asked anything the examples depend on. *)
Definition host_idle : Host :=
  {| h_member := fun _ _ => VUndef;
     h_string := fun _ => "";
     h_object_string := fun _ => throw TypeError;
     h_slice := fun _ => ret VUndef |}.

(** [data = { key: "k1" }], [kids = [1, 2]], the VNode
    [new VNode("div", data, kids)] with [isStatic] and
    [componentInstance] set afterwards, and the array [[vnode]]. *)
Definition store_vnode : State :=
  {| heap := [ plain_object [(KStr "key", plain_prop (VStr "k1"))];
               new_array [VNum 1; VNum 2];
               CObj (vnode_with (VStr "div") (VObj 0) (VObj 1) VUndef VUndef
                       VUndef VUndef VUndef VUndef VUndef (VStr "k1") VUndef
                       (VObj 0) VUndef (VBool false) (VBool true)
                       (VBool true) (VBool false) (VBool false)
                       (VBool false) VUndef VUndef (VBool false));
               new_array [VObj 2] ];
     slots := []; deps := []; shouldObserve := true;
     target := TNull; targetStack := [] |}.

(** What [cloneVNode] makes of the VNode [o], with [kids] for children. *)
Definition clone_of (o : Obj) (kids : Value) : Obj :=
  vnode_with (field o "tag") (field o "data") kids (field o "text")
    (field o "elm") (field o "ns") (field o "context") (field o "fnContext")
    (field o "fnOptions") (field o "fnScopeId") (field o "key")
    (field o "componentOptions") VUndef VUndef (VBool false)
    (field o "isStatic") (VBool true) (field o "isComment") (VBool true)
    (VBool false) (field o "asyncFactory") (field o "asyncMeta")
    (VBool false).

(** The copy of the children array that a clone gets, and the cell it
    takes when there is one. *)
Definition cloned_children (st : State) (c : Value) : Value :=
  if truthy c then VObj (length (heap st)) else c.
Definition children_copy (st : State) (c : Value) : list Cell :=
  match c with
  | VObj a => [new_array (elems_of st a)]
  | _ => []
  end.

(** * Properties *)

(** ** The monad *)

Lemma bind_unfold {A B} (m : M A) (f : A -> M B) st :
  bind m f st =
  match m st with
  | (Ret a, st1, ev1) =>
      match f a st1 with (o, st2, ev2) => (o, st2, ev1 ++ ev2) end
  | (Throw e, st1, ev1) => (Throw e, st1, ev1)
  | (OutOfFuel, st1, ev1) => (OutOfFuel, st1, ev1)
  end.
Proof. reflexivity. Qed.

Lemma bind_ret {A B} (a : A) (f : A -> M B) st : bind (ret a) f st = f a st.
Proof. unfold bind, ret. destruct (f a st) as [[o s] e]. reflexivity. Qed.

Lemma bind_gets {A B} (g : State -> A) (f : A -> M B) st :
  bind (gets g) f st = f (g st) st.
Proof. unfold bind, gets. destruct (f (g st) st) as [[o s] e]. reflexivity. Qed.

Lemma bind_modify {B} (g : State -> State) (f : unit -> M B) st :
  bind (modify g) f st = f tt (g st).
Proof. unfold bind, modify. destruct (f tt (g st)) as [[o s] e]. reflexivity. Qed.

Lemma bind_emit {B} (e : Event) (f : unit -> M B) st :
  bind (emit e) f st =
  match f tt st with (o, st2, ev2) => (o, st2, e :: ev2) end.
Proof. reflexivity. Qed.

Lemma bind_throw {A B} (e : Err) (f : A -> M B) st :
  bind (throw e) f st = (Throw e, st, []).
Proof. reflexivity. Qed.

Lemma bind_assoc {A B C} (m : M A) (f : A -> M B) (g : B -> M C) st :
  bind (bind m f) g st = bind m (fun a => bind (f a) g) st.
Proof.
  unfold bind. destruct (m st) as [[[a| |] s1] e1]; try reflexivity.
  destruct (f a s1) as [[[b| |] s2] e2]; try reflexivity.
  destruct (g b s2) as [[o s3] e3]. by rewrite app_assoc.
Qed.

(** Running [m] and then something: the three ways [m] can end. *)
Lemma bind_cases {A B} (m : M A) (f : A -> M B) st :
  (exists a, outcome (m st) = Ret a /\
     bind m f st = (outcome (f a (post (m st))), post (f a (post (m st))),
                    trace (m st) ++ trace (f a (post (m st)))))
  \/ (exists e, outcome (m st) = Throw e /\
        bind m f st = (Throw e, post (m st), trace (m st)))
  \/ (outcome (m st) = OutOfFuel /\
        bind m f st = (OutOfFuel, post (m st), trace (m st))).
Proof.
  unfold bind, outcome, post, trace.
  destruct (m st) as [[[a| e |] s1] e1]; simpl.
  - left. exists a. split; [done|]. by destruct (f a s1) as [[o s2] e2].
  - right; left. by exists e.
  - right; right. done.
Qed.

Lemma bind_step {A B} (m : M A) (f : A -> M B) st a st1 :
  m st = (Ret a, st1, []) -> bind m f st = f a st1.
Proof.
  intros H. unfold bind. rewrite H. by destruct (f a st1) as [[o s] e].
Qed.

Lemma bind_const_outcome {A B} (m : M A) (b : B) st x :
  outcome (bind m (fun _ => ret b) st) = Ret x -> x = b.
Proof.
  destruct (bind_cases m (fun _ => ret b) st)
    as [(a & Ho & ->)|[(e & Ho & ->)|(Ho & ->)]]; unfold outcome; simpl;
    congruence.
Qed.

Lemma bind_outcome_ret {A B} (m : M A) (f : A -> M B) st b :
  outcome (bind m f st) = Ret b ->
  exists a, outcome (m st) = Ret a /\ outcome (f a (post (m st))) = Ret b.
Proof.
  destruct (bind_cases m f st) as [(a & Ho & ->)|[(e & Ho & ->)|(Ho & ->)]];
    unfold outcome at 1; simpl; try done.
  intros H. by exists a.
Qed.

Lemma outcome_cases {A} (o : Outcome A) :
  o <> OutOfFuel -> (forall e, o <> Throw e) -> exists a, o = Ret a.
Proof. destruct o as [a|e|]; [by exists a|intros _ H; by destruct (H e)|done]. Qed.

(** Split on how the first computation of a [bind] ends. *)
Ltac bind_split a H :=
  lazymatch goal with
  | |- bind ?m ?f ?st = _ =>
      destruct (bind_cases m f st) as [(a & H & ->)|[(a & H & ->)|(H & ->)]]
  end.

(** ** [Dep.notify] *)

Lemma updates_app tr1 tr2 : updates (tr1 ++ tr2) = updates tr1 ++ updates tr2.
Proof. unfold updates. apply omap_app. Qed.

Lemma updates_map_EUpdate l : updates (map EUpdate l) = l.
Proof.
  unfold updates. induction l as [|w l IH]; [done|]. simpl. f_equal. exact IH.
Qed.

Lemma insert_by_id_perm w l : insert_by_id w l ≡ₚ w :: l.
Proof.
  induction l as [|x l IH]; [done|]. simpl.
  destruct (w_id w <=? w_id x)%Z; [done|].
  rewrite IH. apply Permutation_swap.
Qed.

Lemma sort_by_id_perm l : sort_by_id l ≡ₚ l.
Proof.
  induction l as [|w l IH]; [done|]. simpl.
  rewrite insert_by_id_perm. by rewrite IH.
Qed.






Section NotifyFacts.

Context (E : Env) (X : Ext).

(** The loop of [notify] calls the members of its local copy from index [i]
    on, whatever the calls do to the store. *)
Lemma notify_loop_trace subs k : forall i st,
  i + k = length subs ->
  outcome (for_range i k (call_update X subs) st) = Ret tt /\
  trace (for_range i k (call_update X subs) st) = map EUpdate (drop i subs).
Proof.
  induction k as [|k IH]; intros i st Hlen; simpl.
  - split; [done|]. rewrite drop_ge; [done|lia].
  - assert (i < length subs) as Hi by lia.
    destruct (lookup_lt_is_Some_2 subs i Hi) as [w Hw].
    rewrite (drop_S _ w) by done.
    unfold call_update at 1 3. rewrite Hw.
    rewrite !bind_assoc, !bind_emit, !bind_modify.
    specialize (IH (S i) (x_update X w st) ltac:(lia)) as [Ho Ht].
    destruct (for_range (S i) k (call_update X subs) (x_update X w st))
      as [[o s] e]. simpl in *. by subst.
Qed.

Lemma notify_trace d st :
  outcome (notify E X d st) = Ret tt /\
  trace (notify E X d st) = ENotify d :: map EUpdate (firing_order E st d).
Proof.
  unfold notify. rewrite bind_emit, bind_gets.
  fold (firing_order E st d).
  pose proof (notify_loop_trace (firing_order E st d)
                (length (firing_order E st d)) 0 st eq_refl) as [Ho Ht].
  destruct (for_range 0 _ _ st) as [[o s] e]. simpl in *. by subst.
Qed.

Lemma notify_updates d st :
  updates (trace (notify E X d st)) = firing_order E st d.
Proof.
  destruct (notify_trace d st) as [_ ->]. cbn. apply updates_map_EUpdate.
Qed.

Lemma notify_notified d st : notified d (trace (notify E X d st)) = 1.
Proof.
  destruct (notify_trace d st) as [_ ->]. unfold notified. simpl.
  rewrite bool_decide_eq_true_2 by done. simpl. f_equal.
  induction (firing_order E st d) as [|w l IH]; [done|]. done.
Qed.

Lemma notify_notifications d st :
  notifications (trace (notify E X d st)) = [d].
Proof.
  destruct (notify_trace d st) as [_ ->]. unfold notifications. cbn. f_equal.
  induction (firing_order E st d) as [|w l IH]; [done|]. done.
Qed.

Lemma firing_order_perm st d : firing_order E st d ≡ₚ dep_subs st d.
Proof.
  unfold firing_order.
  destruct (negb (production E) && negb (config_async E)); [|done].
  apply sort_by_id_perm.
Qed.

End NotifyFacts.

(** ** C3 *)




(** ** C4 *)

(** C4: the subscribers one [notify()] calls are those in the Dep's list when
    the call began, each entry once, whatever the [update] callbacks do to
    the list meanwhile. *)
Theorem notify_fires_snapshot (E : Env) (X : Ext) (d : DepId) (st : State) :
  outcome (notify E X d st) = Ret tt /\
  updates (trace (notify E X d st)) ≡ₚ dep_subs st d /\
  (forall w, w ∈ updates (trace (notify E X d st)) <-> w ∈ dep_subs st d).
Proof.
  split; [apply notify_trace|].
  rewrite notify_updates.
  pose proof (firing_order_perm E st d) as Hp.
  split; [done|]. intros w. by rewrite Hp.
Qed.

(** A pass in which [watcher2] subscribes [watcher3] and unsubscribes
    [watcher1]: [watcher1] is still called, [watcher3] is not. *)
Example notify_snapshot_resubscribe :
  dep_subs store_two_subs 0 = [watcher2; watcher1] /\
  updates (trace (notify env_dev_async ext_resubscribe 0 store_two_subs))
    = [watcher2; watcher1] /\
  dep_subs (post (notify env_dev_async ext_resubscribe 0 store_two_subs)) 0
    = [watcher2; watcher3].
Proof. repeat split. Qed.

(** ** C9 *)

(** C9, as stated, fails at the start: [Dep.target] is [null], the stack is
    empty, and a [pushTarget]/[popTarget] pair leaves [undefined]. *)
Lemma popTarget_initial_leaves_undefined :
  target initial = TNull /\
  target (popTarget (pushTarget (TWatcher watcher1) initial)) = TUndef /\
  target (popTarget (pushTarget (TWatcher watcher1) initial)) <> target initial.
Proof. repeat split. discriminate. Qed.

Lemma pushTarget_synced t st : target_synced (pushTarget t st).
Proof. unfold target_synced. simpl. by rewrite last_snoc. Qed.

Lemma popTarget_synced st : target_synced (popTarget st).
Proof. reflexivity. Qed.

(** C9 (amended): [pushTarget(w)] makes [Dep.target] equal [w]; the matching
    [popTarget()] restores the stack and sets [Dep.target] to its top, which
    is the value [Dep.target] held before the push whenever that value was
    the stack's top ([undefined] for an empty stack), at any depth. *)
Theorem pushTarget_popTarget_round_trip (t : Target) (st : State) :
  target_synced st ->
  target (pushTarget t st) = t /\
  targetStack (popTarget (pushTarget t st)) = targetStack st /\
  target (popTarget (pushTarget t st)) = target st /\
  target_synced (popTarget (pushTarget t st)).
Proof.
  intros Hs. split; [done|].
  unfold popTarget, pushTarget. simpl. rewrite removelast_last.
  split; [done|]. split; [by rewrite Hs|]. reflexivity.
Qed.

Lemma pushTarget_popTarget_round_trip_witness :
  let st := pushTarget (TWatcher watcher1) (pushTarget TUndef initial) in
  target (pushTarget (TWatcher watcher2) st) = TWatcher watcher2 /\
  target (popTarget (pushTarget (TWatcher watcher2) st)) = TWatcher watcher1.
Proof.
  intros st.
  destruct (pushTarget_popTarget_round_trip (TWatcher watcher2) st) as (H1 & _ & H3 & _).
  - reflexivity.
  - split; [exact H1|exact H3].
Defined.

(** ** Effects that stay inside a relation on stores *)

Section Preserves.

Context (R : State -> State -> Prop) `{!PreOrder R}.

Lemma preserves_ret {A} (a : A) : preserves R (ret a).
Proof. intros st. split; [reflexivity|done]. Qed.

Lemma preserves_throw {A} e : preserves R (@throw A e).
Proof. intros st. split; [reflexivity|done]. Qed.

Lemma preserves_gets {A} (g : State -> A) : preserves R (gets g).
Proof. intros st. split; [reflexivity|done]. Qed.

Lemma preserves_modify (g : State -> State) :
  (forall st, R st (g st)) -> preserves R (modify g).
Proof. intros H st. split; [apply H|done]. Qed.

Lemma preserves_bind {A B} (m : M A) (f : A -> M B) :
  preserves R m -> (forall a, preserves R (f a)) -> preserves R (bind m f).
Proof.
  intros Hm Hf st. destruct (Hm st) as [HR Ht].
  destruct (bind_cases m f st) as [(a & Ho & ->)|[(e & Ho & ->)|(Ho & ->)]];
    unfold post, trace in *; simpl.
  - destruct (Hf a (m st).1.2) as [HR' Ht']. unfold post, trace in *.
    split; [by etrans|]. by rewrite Ht, Ht'.
  - done.
  - done.
Qed.

Lemma preserves_when (b : bool) (m : M unit) :
  preserves R m -> preserves R (when b m).
Proof. destruct b; [done|]. intros _. apply preserves_ret. Qed.

Lemma preserves_for_range (body : nat -> M unit) k : forall i,
  (forall j, preserves R (body j)) -> preserves R (for_range i k body).
Proof.
  induction k as [|k IH]; intros i Hb; simpl.
  - apply preserves_ret.
  - apply preserves_bind; [apply Hb|]. intros _. by apply IH.
Qed.

Lemma preserves_for_each {A} (body : A -> M unit) (l : list A) :
  (forall a, a ∈ l -> preserves R (body a)) -> preserves R (for_each l body).
Proof.
  induction l as [|a l IH]; intros Hb; simpl.
  - apply preserves_ret.
  - apply preserves_bind; [apply Hb; left|].
    intros _. apply IH. intros b Hin. apply Hb. by right.
Qed.

End Preserves.

Lemma preserves_weaken (R1 R2 : State -> State -> Prop) {A} (m : M A) :
  (forall st st', R1 st st' -> R2 st st') -> preserves R1 m -> preserves R2 m.
Proof. intros H Hm st. destruct (Hm st). split; [by apply H|done]. Qed.

Ltac pstep :=
  lazymatch goal with
  | |- preserves _ (bind _ _) => apply preserves_bind; [apply _ | | intros ?]
  | |- preserves _ (ret _) => apply preserves_ret, _
  | |- preserves _ (throw _) => apply preserves_throw, _
  | |- preserves _ (gets _) => apply preserves_gets, _
  | |- preserves _ (when _ _) => apply preserves_when; [apply _ |]
  | |- preserves _ (for_range _ _ _) =>
      apply preserves_for_range; [apply _ | intros ?]
  | |- preserves _ (if ?b then _ else _) => destruct b
  | |- preserves _ (match ?x with _ => _ end) => destruct x
  end.

(** ** Reading only records dependencies *)


#[global] Instance same_but_deps_preorder : PreOrder same_but_deps.
Proof.
  split.
  - by intros st.
  - intros a b c (?&?&?&?&?) (?&?&?&?&?). repeat split; congruence.
Qed.

Section ReadFacts.

Context (E : Env) (X : Ext).


Lemma reads_depend d : reads (depend d).
Proof.
  intros st. unfold depend. destruct (target st) eqn:Ht; try done.
  split; [|done]. unfold post; simpl. unfold addDep.
  destruct (bool_decide _); [done|]. done.
Qed.

Lemma reads_depend_on_marker e : reads (depend_on_marker e).
Proof.
  unfold depend_on_marker. destruct (truthy e); [|apply preserves_ret, _].
  apply preserves_bind; [apply _|apply preserves_gets, _|]. intros m.
  destruct (truthy m); [|apply preserves_ret, _].
  apply preserves_bind; [apply _|apply preserves_gets, _|]. intros [[? ob]|].
  - apply reads_depend.
  - apply preserves_throw, _.
Qed.

Lemma reads_dependArray_at n : forall r, reads (dependArray_at n r).
Proof.
  induction n as [|n IH]; intros r; simpl.
  - apply preserves_throw, _.
  - apply preserves_bind; [apply _|apply preserves_gets, _|]. intros l.
    apply preserves_for_range; [apply _|]. intros i.
    apply preserves_bind; [apply _|apply preserves_gets, _|]. intros e.
    apply preserves_bind; [apply _|apply reads_depend_on_marker|]. intros _.
    apply preserves_bind; [apply _|apply preserves_gets, _|]. intros isarr.
    destruct e; try apply preserves_ret, _.
    destruct isarr; [apply IH|apply preserves_ret, _].
Qed.

Lemma reads_dependArray r : reads (dependArray r).
Proof. intros st. apply reads_dependArray_at. Qed.

Lemma preserves_child_with R `{!PreOrder R} rg this :
  (forall s, preserves R (rg s)) -> preserves R (child_with X rg this).
Proof.
  intros Hrg. unfold child_with. pstep; [pstep|].
  destruct (p_body <$> a) as [[v w|[[f|s|]|] s']|]; try pstep. apply Hrg.
Qed.

Lemma reads_reactiveGetter_at n : forall s, reads (reactiveGetter_at X n s).
Proof.
  induction n as [|n IH]; intros s; simpl;
    repeat first [apply IH | apply reads_depend | apply reads_dependArray
                 | apply preserves_child_with; [apply _|apply IH] | pstep].
Qed.

Lemma reads_reactiveGetter s : reads (reactiveGetter X s).
Proof. intros st. apply reads_reactiveGetter_at. Qed.

Lemma reads_child this : reads (child X this).
Proof. apply preserves_child_with; [apply _|apply reads_reactiveGetter]. Qed.

Lemma reads_call_getter g this : reads (call_getter X g this).
Proof.
  destruct g; simpl; [pstep|apply reads_reactiveGetter|apply reads_child].
Qed.

Lemma reads_get_prop r k : reads (get_prop X r k).
Proof.
  unfold get_prop. pstep; [pstep|].
  destruct (p_body <$> a) as [[v w|[g|] s]|]; try pstep.
  apply reads_call_getter.
Qed.

Lemma reads_current_value sl : reads (current_value X sl).
Proof.
  unfold current_value. destruct (s_getter sl); [apply reads_call_getter|pstep].
Qed.

End ReadFacts.

(** ** C2 and C8: [reactiveSetter] *)

Lemma unchanged_spec (a b : Value) :
  unchanged a b = true <-> (a = b /\ a <> VNaN) \/ (a = VNaN /\ b = VNaN).
Proof.
  unfold unchanged, strict_eq. split.
  - intros H. apply orb_true_iff in H as [H|H].
    + left. destruct a; try discriminate H;
        apply bool_decide_eq_true_1 in H; by subst.
    + apply andb_true_iff in H as [Ha Hb].
      destruct a; try (rewrite bool_decide_eq_true_2 in Ha by done; discriminate Ha).
      destruct b; try (rewrite bool_decide_eq_true_2 in Hb by done; discriminate Hb).
      by right.
  - intros [[-> Hn]|[-> ->]]; [|done].
    destruct b; try done; by rewrite bool_decide_eq_true_2.
Qed.

Section SetterFacts.

Context (E : Env) (X : Ext).

Lemma reactiveSetter_unfold s sl newVal st :
  slots st !! s = Some sl ->
  reactiveSetter E X s newVal st =
  (value <- current_value X sl ;;
   if unchanged newVal value then ret tt
   else
     call_customSetter E X sl ;;;
     if bool_decide (is_Some (s_getter sl))
        && negb (bool_decide (is_Some (s_setter sl)))
     then ret tt
     else
       match s_setter sl with
       | Some (SUser f) => modify (x_set X f (s_obj sl) newVal)
       | Some (SSlot s') => reactiveSetter_at E X (length (slots st)) s' newVal
       | None => modify (alter_slot s (with_val newVal))
       end ;;;
       childOb <- (if s_shallow sl then ret None
                   else observe E X newVal false) ;;
       modify (alter_slot s (with_childOb childOb)) ;;;
       notify E X (s_dep sl)) st.
Proof.
  intros Hs. unfold reactiveSetter. simpl. rewrite bind_gets, Hs. reflexivity.
Qed.

End SetterFacts.

(** C2: a write of a value strictly equal to the current one, or of
    not-a-number over not-a-number, does nothing: the slot keeps its value
    and its child observer, nothing is observed, nobody is notified.  (The
    setter reads the current value first; that read is all that happens.) *)
Theorem reactiveSetter_same_value_noop (E : Env) (X : Ext) (s : SlotId)
    (sl : Slot) (newVal v : Value) (st : State) :
  slots st !! s = Some sl ->
  outcome (current_value X sl st) = Ret v ->
  (strict_eq newVal v = true \/ (newVal = VNaN /\ v = VNaN)) ->
  reactiveSetter E X s newVal st = (Ret tt, post (current_value X sl st), []) /\
  slots (post (reactiveSetter E X s newVal st)) = slots st /\
  heap (post (reactiveSetter E X s newVal st)) = heap st /\
  notifications (trace (reactiveSetter E X s newVal st)) = [] /\
  updates (trace (reactiveSetter E X s newVal st)) = [].
Proof.
  intros Hs Hv Heq.
  assert (unchanged newVal v = true) as Hun.
  { unfold unchanged. destruct Heq as [->|[-> ->]]; [done|]. simpl. done. }
  destruct (reads_current_value X sl st) as [(Hh & Hsl & _) Ht].
  assert (reactiveSetter E X s newVal st
          = (Ret tt, post (current_value X sl st), [])) as Hr.
  { rewrite (reactiveSetter_unfold E X s sl newVal st Hs).
    bind_split a Ho; try congruence.
    rewrite Hv in Ho. injection Ho as <-. rewrite Hun, Ht. reflexivity. }
  rewrite Hr. unfold post at 2 3. simpl. done.
Qed.

Lemma reactiveSetter_same_value_noop_witness :
  reactiveSetter env_dev ext_idle 1 VNaN store_slots = (Ret tt, store_slots, []).
Proof.
  pose proof (reactiveSetter_same_value_noop env_dev ext_idle 1
    {| s_obj := 0; s_key := KStr "x"; s_val := VNaN;
       s_childOb := None; s_dep := 1; s_getter := None; s_setter := None;
       s_custom := None; s_shallow := false |}
    VNaN VNaN store_slots eq_refl eq_refl (or_intror (conj eq_refl eq_refl)))
    as [H _].
  exact H.
Defined.

(** C8, as stated, fails: in a non-production build the [customSetter] the
    slot was defined with is called before the write is dropped, and what it
    does is not undone.  Here it writes the slot [1]: the dropped write to
    the slot [0] returns with the value of another property changed. *)
Lemma reactiveSetter_getter_only_runs_hook :
  let r := reactiveSetter env_dev ext_hook_writes 0 (VNum 5) store_slots in
  (s_getter <$> slots store_slots !! 0) = Some (Some (GUser 0)) /\
  (s_setter <$> slots store_slots !! 0) = Some None /\
  outcome r = Ret tt /\
  trace r = [ECustomSetter 7] /\
  (s_val <$> slots store_slots !! 1) = Some VNaN /\
  (s_val <$> slots (post r) !! 1) = Some (VNum 0).
Proof. vm_compute. done. Qed.

(** C8 (amended): over a property that had a getter and no setter, a write
    of a different value is dropped: the call returns normally and the
    setter itself writes nothing and notifies nobody.  All that runs is the
    read of the current value, which rewrites neither an object nor a
    closure, and, in a non-production build, the [customSetter] the slot may
    have been defined with.  In a production build, without a
    [customSetter], or with one that leaves objects and closures as they
    are, every value and every child observer is as before the write. *)
Theorem reactiveSetter_getter_only_drops_write (E : Env) (X : Ext)
    (s : SlotId) (sl : Slot) (g : Getter) (newVal v : Value) (st : State) :
  slots st !! s = Some sl ->
  s_getter sl = Some g -> s_setter sl = None ->
  outcome (current_value X sl st) = Ret v ->
  unchanged newVal v = false ->
  let r := reactiveSetter E X s newVal st in
  let st1 := post (current_value X sl st) in
  r = match s_custom sl with
      | Some h =>
          if production E then (Ret tt, st1, [])
          else (Ret tt, x_hook X h st1, [ECustomSetter h])
      | None => (Ret tt, st1, [])
      end /\
  heap st1 = heap st /\ slots st1 = slots st /\
  notifications (trace r) = [] /\
  updates (trace r) = [] /\
  (production E = true \/
   (forall h, s_custom sl = Some h ->
      heap (x_hook X h st1) = heap st1 /\
      slots (x_hook X h st1) = slots st1) ->
   heap (post r) = heap st /\ slots (post r) = slots st).
Proof.
  intros Hs Hg Hset Hv Hun r st1.
  destruct (reads_current_value X sl st) as [(Hh & Hsl & _) Ht].
  fold st1 in Hh, Hsl.
  assert (r = match s_custom sl with
              | Some h =>
                  if production E then (Ret tt, st1, [])
                  else (Ret tt, x_hook X h st1, [ECustomSetter h])
              | None => (Ret tt, st1, [])
              end) as Hr.
  { unfold r. rewrite (reactiveSetter_unfold E X s sl newVal st Hs).
    bind_split a Ho; try congruence.
    rewrite Hv in Ho. injection Ho as <-. rewrite Hun, Ht, Hg, Hset. simpl.
    fold st1. unfold call_customSetter.
    destruct (s_custom sl) as [h|]; [|reflexivity].
    destruct (production E); reflexivity. }
  split; [done|]. split; [done|]. split; [done|].
  rewrite Hr.
  destruct (s_custom sl) as [h|]; [destruct (production E)|];
    unfold post, trace; cbn [fst snd];
    (split; [done|]); (split; [done|]); try done.
  intros [Hp|Hframe]; [done|].
  destruct (Hframe h eq_refl) as [-> ->]. done.
Qed.

Lemma reactiveSetter_getter_only_drops_write_witness :
  reactiveSetter env_dev ext_idle 0 (VNum 5) store_slots
    = (Ret tt, store_slots, [ECustomSetter 7]).
Proof.
  exact (proj1 (reactiveSetter_getter_only_drops_write env_dev ext_idle 0
    {| s_obj := 0; s_key := KStr "ro"; s_val := VUndef;
       s_childOb := None; s_dep := 0; s_getter := Some (GUser 0);
       s_setter := None; s_custom := Some 7; s_shallow := false |}
    (GUser 0) (VNum 5) VUndef store_slots
    eq_refl eq_refl eq_refl eq_refl eq_refl)).
Defined.

(** ** C7: [set] and [del] on a target that is no object *)

(** C7, as stated, fails: [set(undefined, "x", 1)] warns and then throws at
    [key in target], [del(null, "x")] warns and then throws at
    [target.__ob__], and [del] on a symbol throws while the message of the
    diagnostic is built, so that nothing is reported. *)
Lemma set_on_undefined_throws :
  set env_dev ext_idle VUndef (KStr "x") (VNum 1) initial
    = (Throw TypeError, initial, [EWarn WarnSetPrimitive]) /\
  del env_dev ext_idle VNull (KStr "x") initial
    = (Throw TypeError, initial, [EWarn WarnDelPrimitive]) /\
  del env_dev ext_idle (VSym 0) (KStr "x") initial
    = (Throw TypeError, initial, []).
Proof. vm_compute. done. Qed.

(** C7 (amended): on a [null], [undefined] or primitive target the store
    is left as it was and a non-production build first reports the
    diagnostic, except for a symbol: building the message converts the
    target to a string, which throws a [TypeError] for a symbol before
    anything is reported.  After the diagnostic (and in a production build,
    where there is none) [del] on a primitive without the own property
    [key] returns; [set], [del] on [null] or [undefined], and [del] of an
    own key of a string throw a [TypeError]. *)
Theorem set_del_on_non_object (E : Env) (X : Ext) (target : Value)
    (key : Key) (val : Value) (st : State) :
  isUndef target || isPrimitive target = true ->
  set E X target key val st
    = (Throw TypeError, st,
       match target with
       | VSym _ => []
       | _ => if production E then [] else [EWarn WarnSetPrimitive]
       end) /\
  del E X target key st
    = (match target with
       | VSym _ => if production E then Ret tt else Throw TypeError
       | _ => if isUndef target || prim_has_own target key
              then Throw TypeError else Ret tt
       end,
       st,
       match target with
       | VSym _ => []
       | _ => if production E then [] else [EWarn WarnDelPrimitive]
       end).
Proof.
  intros H. unfold set, del, warn_value.
  destruct target; try discriminate H; simpl;
    destruct (production E); simpl; try (split; reflexivity).
  all: try (split; [reflexivity|]).
  all: try (destruct key; simpl; try reflexivity).
  all: try (destruct (bool_decide _); reflexivity).
Qed.

Lemma set_del_on_non_object_witness :
  set env_dev ext_idle (VNum 3) (KStr "x") (VNum 1) store_graph
    = (Throw TypeError, store_graph, [EWarn WarnSetPrimitive]) /\
  del env_dev ext_idle (VNum 3) (KStr "x") store_graph
    = (Ret tt, store_graph, [EWarn WarnDelPrimitive]).
Proof.
  exact (set_del_on_non_object env_dev ext_idle (VNum 3) (KStr "x") (VNum 1)
           store_graph eq_refl).
Defined.

(** ** [observe] only attaches Observers *)

#[global] Instance obs_le_preorder : PreOrder obs_le.
Proof.
  split.
  - intros st. split; try done.
    + intros r o Ho. exists o. done.
    + intros r ob Ho. exists ob. done.
  - intros a b c Hab Hbc. split.
    + rewrite (le_should _ _ Hbc). apply Hab.
    + rewrite (le_target _ _ Hbc). apply Hab.
    + rewrite (le_stack _ _ Hbc). apply Hab.
    + intros r o Ho.
      destruct (le_obj _ _ Hab r o Ho) as (o1 & Ho1 & ? & ? & ? & ? & ?).
      destruct (le_obj _ _ Hbc r o1 Ho1) as (o2 & Ho2 & ? & ? & ? & ? & ?).
      exists o2. repeat split; congruence.
    + intros r Hr. apply (le_new _ _ Hab), (le_new _ _ Hbc), Hr.
    + intros r obr Hm. apply (le_marker _ _ Hbc), (le_marker _ _ Hab), Hm.
    + intros r ob Ho.
      destruct (le_observer _ _ Hab r ob Ho) as (ob1 & Ho1 & ? & ?).
      destruct (le_observer _ _ Hbc r ob1 Ho1) as (ob2 & Ho2 & ? & ?).
      exists ob2. repeat split; congruence.
Qed.

Lemma obs_le_same_heap st st' :
  heap st' = heap st -> shouldObserve st' = shouldObserve st ->
  target st' = target st -> targetStack st' = targetStack st ->
  obs_le st st'.
Proof.
  intros Hh Hs Ht Hk.
  assert (forall r, get_obj st' r = get_obj st r) as Hobj
    by (intros r; unfold get_obj; by rewrite Hh).
  assert (forall r, get_observer st' r = get_observer st r) as Hobs
    by (intros r; unfold get_observer; by rewrite Hh).
  split; try done.
  - intros r o Ho. exists o. rewrite Hobj. done.
  - intros r. by rewrite Hobj.
  - intros r obr. unfold marker_ref. rewrite Hobj.
    destruct (get_obj st r); [|done]. destruct (marker_data o); [|done].
    by rewrite Hobs.
  - intros r ob Ho. exists ob. rewrite Hobs. done.
Qed.

Lemma same_but_deps_obs_le st st' : same_but_deps st st' -> obs_le st st'.
Proof. intros (?&?&?&?&?). by apply obs_le_same_heap. Qed.

Lemma reads_attaches {A} (m : M A) :
  preserves same_but_deps m -> preserves obs_le m.
Proof. apply preserves_weaken, same_but_deps_obs_le. Qed.

Lemma get_obj_put_obj st r o r' :
  is_Some (get_obj st r) ->
  get_obj (put_obj r o st) r' = if decide (r = r') then Some o else get_obj st r'.
Proof.
  intros [o0 Ho]. unfold get_obj, put_obj in *. simpl.
  destruct (heap st !! r) as [c|] eqn:Hr; [|done].
  assert (r < length (heap st)) by (eapply lookup_lt_Some; eauto).
  destruct (decide (r = r')) as [<-|Hne].
  - by rewrite list_lookup_insert_eq.
  - by rewrite list_lookup_insert_ne.
Qed.

Lemma get_observer_put_obj st r o r' :
  is_Some (get_obj st r) ->
  get_observer (put_obj r o st) r' = get_observer st r'.
Proof.
  intros [o0 Ho]. unfold get_obj, get_observer, put_obj in *. simpl.
  destruct (heap st !! r) as [c|] eqn:Hr; [|done].
  assert (r < length (heap st)) by (eapply lookup_lt_Some; eauto).
  destruct (decide (r = r')) as [<-|Hne].
  - rewrite list_lookup_insert_eq by done. rewrite Hr. by destruct c.
  - by rewrite list_lookup_insert_ne.
Qed.

(** Rewriting an object in place, keeping its shape and its Observer. *)
Lemma obs_le_put_obj st r o o' :
  get_obj st r = Some o ->
  o_class o' = o_class o -> o_vnode o' = o_vnode o ->
  o_isVue o' = o_isVue o -> o_ext o' = o_ext o -> o_elems o' = o_elems o ->
  (forall obr, marker_ref st r = Some obr -> marker_data o' = Some obr) ->
  obs_le st (put_obj r o' st).
Proof.
  intros Ho Hc Hv Hi He Hel Hm.
  assert (is_Some (get_obj st r)) as Hsome by eauto.
  split; try done.
  - intros r' o1 Ho1. rewrite get_obj_put_obj by done.
    destruct (decide (r = r')) as [<-|Hne].
    + exists o'. rewrite Ho in Ho1. injection Ho1 as <-. done.
    + exists o1. done.
  - intros r'. rewrite get_obj_put_obj by done.
    destruct (decide (r = r')) as [<-|Hne]; done.
  - intros r' obr Hmr. unfold marker_ref.
    rewrite get_obj_put_obj by done.
    destruct (decide (r = r')) as [<-|Hne].
    + rewrite (Hm obr Hmr). rewrite get_observer_put_obj by done.
      unfold marker_ref in Hmr. rewrite Ho in Hmr.
      destruct (marker_data o) as [x|]; [|done].
      destruct (get_observer st x) eqn:Hx; [|done].
      injection Hmr as ->. by rewrite Hx.
    + unfold marker_ref in Hmr.
      destruct (get_obj st r') as [o1|]; [|done].
      destruct (marker_data o1) as [x|]; [|done].
      by rewrite get_observer_put_obj.
  - intros r' ob Hob. exists ob. rewrite get_observer_put_obj by done. done.
Qed.

Lemma assoc_lookup_set_eq k p ps : assoc_lookup k (assoc_set k p ps) = Some p.
Proof.
  induction ps as [|[k' p'] ps IH]; simpl.
  - by rewrite decide_True.
  - destruct (decide (k = k')) as [->|Hne]; simpl.
    + by rewrite decide_True.
    + by rewrite decide_False.
Qed.

Lemma assoc_lookup_set_ne k k' p ps :
  k <> k' -> assoc_lookup k' (assoc_set k p ps) = assoc_lookup k' ps.
Proof.
  intros Hne. induction ps as [|[k1 p1] ps IH]; simpl.
  - by rewrite decide_False.
  - destruct (decide (k = k1)) as [->|Hne1]; simpl.
    + by rewrite !decide_False by done.
    + destruct (decide (k' = k1)); [done|apply IH].
Qed.

Lemma own_prop_marker o :
  own_prop o ob_key = assoc_lookup ob_key (o_props o).
Proof. unfold own_prop, ob_key. destruct (bool_decide _); done. Qed.

Lemma marker_data_with_props_ne o k p :
  k <> ob_key ->
  marker_data (with_props (assoc_set k p (o_props o)) o) = marker_data o.
Proof.
  intros Hne. unfold marker_data. rewrite !own_prop_marker. simpl.
  by rewrite assoc_lookup_set_ne.
Qed.

Lemma marker_ref_data st r o obr :
  get_obj st r = Some o -> marker_ref st r = Some obr ->
  marker_data o = Some obr.
Proof.
  unfold marker_ref. intros -> H. destruct (marker_data o) as [x|]; [|done].
  destruct (get_observer st x); [|done]. done.
Qed.

Section AttachFacts.

Context (E : Env) (X : Ext).

Lemma attaches_newDep : attaches newDep.
Proof. intros st. split; [|done]. by apply obs_le_same_heap. Qed.

Lemma attaches_push_slot sl : attaches (modify (push_slot sl)).
Proof. apply preserves_modify. intros st. by apply obs_le_same_heap. Qed.

Lemma attaches_define_own r k p : k <> ob_key -> attaches (define_own r k p).
Proof.
  intros Hne st. unfold define_own. rewrite bind_gets.
  destruct (get_obj st r) as [o|] eqn:Ho; [|split; [reflexivity|done]].
  assert (obs_le st (put_obj r (with_props (assoc_set k p (o_props o)) o) st))
    as Hput.
  { apply (obs_le_put_obj st r o); try done.
    intros obr Hm. rewrite marker_data_with_props_ne by done.
    eapply marker_ref_data; eauto. }
  destruct (own_prop o k) as [old|];
    destruct (_ && _); try (split; [reflexivity|done]); by split.
Qed.

Lemma method_name_not_marker m : KStr (method_name m) <> ob_key.
Proof. by destruct m. Qed.

Lemma attaches_copyAugment r : attaches (copyAugment r).
Proof.
  unfold copyAugment. apply preserves_for_each; [apply _|].
  intros m _. apply attaches_define_own, method_name_not_marker.
Qed.

Lemma attaches_protoAugment r : attaches (protoAugment r).
Proof.
  apply preserves_modify. intros st.
  destruct (get_obj st r) as [o|] eqn:Ho; [|reflexivity].
  apply (obs_le_put_obj st r o); try done.
  intros obr Hm. eapply marker_ref_data in Hm; [|exact Ho]. exact Hm.
Qed.

Lemma attaches_bump_vmCount obr : attaches (modify (bump_vmCount obr)).
Proof.
  apply preserves_modify. intros st. unfold bump_vmCount.
  destruct (get_observer st obr) as [ob|] eqn:Hob; [|reflexivity].
  assert (obr < length (heap st)) as Hlt.
  { unfold get_observer in Hob.
    destruct (heap st !! obr) eqn:Hl; [|done]. eapply lookup_lt_Some; eauto. }
  assert (forall r, get_obj (put_observer obr
            {| ob_value := ob_value ob; ob_dep := ob_dep ob;
               ob_vmCount := S (ob_vmCount ob) |} st) r = get_obj st r) as Hobj.
  { intros r. unfold get_obj, put_observer. simpl.
    destruct (decide (obr = r)) as [<-|Hne].
    - rewrite list_lookup_insert_eq by done. unfold get_observer in Hob.
      by destruct (heap st !! obr) as [[|]|].
    - by rewrite list_lookup_insert_ne. }
  assert (forall r, is_Some (get_observer st r) ->
            is_Some (get_observer (put_observer obr
            {| ob_value := ob_value ob; ob_dep := ob_dep ob;
               ob_vmCount := S (ob_vmCount ob) |} st) r)) as Hobs.
  { intros r Hr. unfold get_observer, put_observer in *. simpl.
    destruct (decide (obr = r)) as [<-|Hne].
    - by rewrite list_lookup_insert_eq.
    - by rewrite list_lookup_insert_ne. }
  split; try done.
  - intros r o Ho. exists o. rewrite Hobj. done.
  - intros r. by rewrite Hobj.
  - intros r x. unfold marker_ref. rewrite Hobj.
    destruct (get_obj st r) as [o|]; [|done].
    destruct (marker_data o) as [y|]; [|done].
    destruct (get_observer st y) eqn:Hy; [|done].
    destruct (Hobs y) as [? ->]; [by rewrite Hy|done].
  - intros r ob' Hr. unfold get_observer, put_observer in *. simpl.
    destruct (decide (obr = r)) as [<-|Hne].
    + rewrite list_lookup_insert_eq by done. rewrite Hr in Hob.
      injection Hob as ->. eexists. done.
    + rewrite list_lookup_insert_ne by done. exists ob'. done.
Qed.

Lemma attaches_alloc_observer ob : attaches (alloc (CObserver ob)).
Proof.
  intros st. split; [|done]. unfold post, alloc. simpl.
  assert (forall r, get_obj (set_heap (heap st ++ [CObserver ob]) st) r
                    = get_obj st r) as Hobj.
  { intros r. unfold get_obj, set_heap. cbn [heap].
    destruct (decide (r < length (heap st))) as [Hlt|Hge].
    - by rewrite lookup_app_l.
    - rewrite lookup_app_r by lia.
      rewrite (proj2 (lookup_ge_None (heap st) r)) by lia.
      destruct (r - length (heap st)) as [|n]; [done|by destruct n]. }
  assert (forall r x, get_observer st r = Some x ->
            get_observer (set_heap (heap st ++ [CObserver ob]) st) r = Some x)
    as Hobs.
  { intros r x Hr. unfold get_observer, set_heap in *. cbn [heap].
    destruct (heap st !! r) eqn:Hl; [|done].
    rewrite lookup_app_l; [by rewrite Hl|]. eapply lookup_lt_Some; eauto. }
  split; try done.
  - intros r o Ho. exists o. rewrite Hobj. done.
  - intros r. by rewrite Hobj.
  - intros r x. unfold marker_ref. rewrite Hobj.
    destruct (get_obj st r) as [o|]; [|done].
    destruct (marker_data o) as [y|]; [|done].
    destruct (get_observer st y) eqn:Hy; [|done].
    by rewrite (Hobs y _ Hy).
  - intros r x Hr. exists x. by rewrite (Hobs r x Hr).
Qed.

Lemma attaches_get_prop r k : attaches (get_prop X r k).
Proof. apply reads_attaches, reads_get_prop. Qed.

(** [defineReactive] on a key other than the marker. *)
Lemma attaches_defineReactive_with obs obj key val custom shallow :
  key <> ob_key -> (forall v, attaches (obs v)) ->
  attaches (defineReactive_with X obs obj key val custom shallow).
Proof.
  intros Hne Hobs. unfold defineReactive_with.
  pstep; [apply attaches_newDep|]. pstep; [pstep|].
  destruct a0 as [o|]; [|pstep].
  destruct (match own_prop o key with
            | Some p => negb (p_conf p) | None => false end); [pstep|].
  pstep.
  - destruct val; [pstep|]. destruct (_ || _); [apply attaches_get_prop|pstep].
  - pstep; [destruct shallow; [pstep|apply Hobs]|].
    pstep; [pstep|]. pstep; [by apply attaches_define_own|].
    apply attaches_push_slot.
Qed.

Lemma attaches_observeArray_with obs read l :
  (forall v, attaches (obs v)) -> attaches (observeArray_with obs read l).
Proof.
  intros Hobs. unfold observeArray_with.
  pstep. pstep; [pstep|]. pstep; [apply Hobs|pstep].
Qed.

(** The rule of [bind] for one store. *)
Lemma bind_le {A B} (m : M A) (f : A -> M B) st :
  obs_le st (post (m st)) -> trace (m st) = [] ->
  (forall a, outcome (m st) = Ret a ->
     obs_le (post (m st)) (post (f a (post (m st)))) /\
     trace (f a (post (m st))) = []) ->
  obs_le st (post (bind m f st)) /\ trace (bind m f st) = [].
Proof.
  intros HR Ht Hf.
  destruct (bind_cases m f st) as [(a & Ho & ->)|[(e & Ho & ->)|(Ho & ->)]];
    unfold post, trace in *; simpl; [|done|done].
  destruct (Hf a Ho) as [HR' Ht']. split; [by etrans|]. by rewrite Ht, Ht'.
Qed.

Lemma enum_keys_hidden k ps p :
  assoc_lookup k ps = Some p -> p_enum p = false -> k ∉ enum_keys ps.
Proof.
  unfold enum_keys. intros Hl He Hin. apply list_elem_of_In in Hin.
  apply filter_In in Hin as [_ H]. rewrite Hl in H. congruence.
Qed.

(** [walk] on an object whose marker is hidden. *)
Lemma attaches_walk_with obs obj st :
  ob_key ∉ object_keys st obj -> (forall v, attaches (obs v)) ->
  obs_le st (post (walk_with X obs obj st)) /\
  trace (walk_with X obs obj st) = [].
Proof.
  intros Hk Hobs. unfold walk_with. rewrite bind_gets.
  apply preserves_for_each; [apply _|].
  intros k Hin. apply attaches_defineReactive_with; [|done].
  intros ->. contradiction.
Qed.

Lemma has_observer_marker_ref st r :
  has_observer st (VObj r) = true ->
  exists obr, marker_ref st r = Some obr /\
              fst <$> as_observer st (marker_of st (VObj r)) = Some obr.
Proof.
  unfold has_observer, hasOwn, marker_of, marker_ref, marker_data, lookup_prop.
  intros H. apply andb_true_iff in H as [Hown Hob].
  destruct (get_obj st r) as [o|] eqn:Ho; [|done].
  apply bool_decide_eq_true_1 in Hown as [p Hp].
  apply bool_decide_eq_true_1 in Hob.
  assert (forall n, find_prop n st r ob_key = Some p) as Hf.
  { intros n. destruct n; simpl; by rewrite Ho, Hp. }
  rewrite Hf in Hob |- *. rewrite Hp. simpl.
  destruct Hob as [[obr ob] Hob].
  destruct (p_body p) as [x w|g s']; [|done].
  unfold as_observer in *. destruct x; try done.
  destruct (get_observer st r0) eqn:Hr; [|done].
  injection Hob as <- <-. eexists. done.
Qed.

Lemma no_observer_marker_ref st r :
  has_observer st (VObj r) = false -> marker_ref st r = None.
Proof.
  unfold has_observer, hasOwn, marker_of, marker_ref, marker_data, lookup_prop.
  intros H. destruct (get_obj st r) as [o|] eqn:Ho; [|done].
  destruct (own_prop o ob_key) as [p|] eqn:Hp; [|done].
  assert (forall n, find_prop n st r ob_key = Some p) as Hf.
  { intros n. destruct n; simpl; by rewrite Ho, Hp. }
  rewrite Hf in H. simpl in *.
  destruct (p_body p) as [x w|g s']; [|done].
  destruct x; try done.
  destruct (get_observer st r0) eqn:Hr; [|done].
  unfold as_observer in H. rewrite Hr in H.
  rewrite bool_decide_eq_true_2 in H by (by eexists). done.
Qed.

End AttachFacts.


Lemma get_obj_alloc_observer st ob r :
  get_obj (set_heap (heap st ++ [CObserver ob]) st) r = get_obj st r.
Proof.
  unfold get_obj, set_heap. cbn [heap].
  destruct (decide (r < length (heap st))) as [Hlt|Hge].
  - by rewrite lookup_app_l.
  - rewrite lookup_app_r by lia.
    rewrite (proj2 (lookup_ge_None (heap st) r)) by lia.
    destruct (r - length (heap st)) as [|n]; [done|by destruct n].
Qed.

Lemma get_observer_alloc_observer st ob r :
  get_observer (set_heap (heap st ++ [CObserver ob]) st) r =
  if decide (r = length (heap st)) then Some ob else get_observer st r.
Proof.
  unfold get_observer, set_heap. cbn [heap].
  destruct (decide (r = length (heap st))) as [->|Hne].
  - rewrite lookup_app_r by lia. by rewrite Nat.sub_diag.
  - destruct (decide (r < length (heap st))) as [Hlt|Hge].
    + by rewrite lookup_app_l.
    + rewrite lookup_app_r by lia.
      rewrite (proj2 (lookup_ge_None (heap st) r)) by lia.
      destruct (r - length (heap st)) as [|n] eqn:Hn; [lia|by destruct n].
Qed.

Lemma get_obj_set_deps st d r : get_obj (set_deps d st) r = get_obj st r.
Proof. reflexivity. Qed.

Lemma object_keys_hidden_marker st r o p :
  get_obj st r = Some o -> o_class o <> CArray ->
  assoc_lookup ob_key (o_props o) = Some p -> p_enum p = false ->
  ob_key ∉ object_keys st r.
Proof.
  intros Ho Hc Hl He. unfold object_keys. rewrite Ho.
  rewrite bool_decide_eq_false_2 by done. simpl.
  by eapply enum_keys_hidden.
Qed.

(** ** [observe] terminates *)

Lemma unobserved_In st r :
  In r (unobserved st) <->
  is_Some (get_obj st r) /\ marker_ref st r = None.
Proof.
  unfold unobserved. rewrite filter_In, in_seq. cbv beta. split.
  - intros [_ H]. apply andb_true_iff in H as [H1 H2].
    apply bool_decide_eq_true_1 in H1. apply negb_true_iff in H2.
    apply bool_decide_eq_false_1 in H2. split; [done|].
    destruct (marker_ref st r); [|done]. destruct H2. by eexists.
  - intros [H1 H2]. split.
    + split; [lia|]. simpl. unfold get_obj in H1.
      destruct (heap st !! r) eqn:Hl; [|by destruct H1].
      eapply lookup_lt_Some; eauto.
    + rewrite (bool_decide_eq_true_2 _ H1), H2. done.
Qed.

Lemma unobserved_NoDup st : List.NoDup (unobserved st).
Proof. apply List.NoDup_filter, seq_NoDup. Qed.

Lemma unobserved_incl st st' :
  obs_le st st' -> incl (unobserved st') (unobserved st).
Proof.
  intros Hle r Hr. apply unobserved_In in Hr as [H1 H2].
  apply unobserved_In. split; [by apply (le_new _ _ Hle)|].
  destruct (marker_ref st r) as [obr|] eqn:Hm; [|done].
  rewrite (le_marker _ _ Hle r obr Hm) in H2. done.
Qed.

Lemma unobserved_mono st st' :
  obs_le st st' -> length (unobserved st') <= length (unobserved st).
Proof.
  intros Hle. apply List.NoDup_incl_length;
    [apply unobserved_NoDup|by apply unobserved_incl].
Qed.

(** Attaching an Observer to an object that had none leaves fewer objects
    without one. *)
Lemma unobserved_decrease st st' r :
  obs_le st st' ->
  is_Some (get_obj st r) -> marker_ref st r = None ->
  is_Some (marker_ref st' r) ->
  length (unobserved st') < length (unobserved st).
Proof.
  intros Hle Ho Hm Hm'.
  assert (length (r :: unobserved st') <= length (unobserved st)) as H.
  { apply List.NoDup_incl_length.
    - constructor; [|apply unobserved_NoDup].
      intros Hin. apply unobserved_In in Hin as [_ Hn].
      rewrite Hn in Hm'. by destruct Hm'.
    - intros x [<-|Hx].
      + by apply unobserved_In.
      + by apply (unobserved_incl st st'). }
  simpl in H. lia.
Qed.

Lemma unobserved_bound st : length (unobserved st) <= length (heap st).
Proof.
  unfold unobserved.
  etrans; [apply List.filter_length_le|]. by rewrite length_seq.
Qed.


Lemma total_fuel_ok n {A} (m : M A) : total m -> fuel_ok n m.
Proof. intros H st _. apply H. Qed.

Lemma total_ret {A} (a : A) : total (ret a).
Proof. by intros st. Qed.
Lemma total_throw {A} e : total (@throw A e).
Proof. by intros st. Qed.
Lemma total_gets {A} (g : State -> A) : total (gets g).
Proof. by intros st. Qed.
Lemma total_modify g : total (modify g).
Proof. by intros st. Qed.
Lemma total_emit e : total (emit e).
Proof. by intros st. Qed.
Lemma total_bind {A B} (m : M A) (f : A -> M B) :
  total m -> (forall a, total (f a)) -> total (bind m f).
Proof.
  intros Hm Hf st.
  destruct (bind_cases m f st) as [(a & Ho & ->)|[(e & Ho & ->)|(Ho & ->)]];
    unfold outcome; simpl; [apply Hf|done|by apply Hm in Ho].
Qed.
Lemma total_for_range (body : nat -> M unit) k : forall i,
  (forall j, total (body j)) -> total (for_range i k body).
Proof.
  induction k as [|k IH]; intros i Hb; simpl; [apply total_ret|].
  apply total_bind; [apply Hb|]. intros _. by apply IH.
Qed.
Lemma total_for_each {A} (body : A -> M unit) (l : list A) :
  (forall a, total (body a)) -> total (for_each l body).
Proof.
  induction l as [|a l IH]; intros Hb; simpl; [apply total_ret|].
  apply total_bind; [apply Hb|]. intros _. by apply IH.
Qed.

Lemma total_host {A} (f : State -> Err + A) : total (host f).
Proof. intros st. unfold host, outcome. by destruct (f st). Qed.

Ltac tstep :=
  lazymatch goal with
  | |- total (bind _ _) => apply total_bind; [| intros ?]
  | |- total (ret _) => apply total_ret
  | |- total (throw _) => apply total_throw
  | |- total (gets _) => apply total_gets
  | |- total (modify _) => apply total_modify
  | |- total (emit _) => apply total_emit
  | |- total (when ?b _) => destruct b; unfold when
  | |- total (for_range _ _ _) => apply total_for_range; intros ?
  | |- total (for_each _ _) => apply total_for_each; intros ?
  | |- total (host _) => apply total_host
  | |- total (if ?b then _ else _) => destruct b
  | |- total (match ?x with _ => _ end) => destruct x
  end.

Lemma total_depend d : total (depend d).
Proof. intros st. unfold depend. by destruct (target st). Qed.

Lemma total_dependArray_at n : forall r, total (dependArray_at n r).
Proof.
  induction n as [|n IH]; intros r; simpl;
    unfold depend_on_marker;
    repeat first [apply IH | apply total_depend | tstep].
Qed.

Lemma total_dependArray r : total (dependArray r).
Proof. intros st. apply total_dependArray_at. Qed.

Lemma total_alloc c : total (alloc c).
Proof. by intros st. Qed.

Lemma total_newDep : total newDep.
Proof. by intros st. Qed.

Lemma total_define_own r k p : total (define_own r k p).
Proof. unfold define_own. repeat tstep. Qed.

Lemma total_copyAugment r : total (copyAugment r).
Proof. unfold copyAugment. tstep. apply total_define_own. Qed.

Section FuelFacts.

Context (E : Env) (X : Ext).

Lemma total_child_with rg this :
  (forall s, total (rg s)) -> total (child_with X rg this).
Proof.
  intros Hrg. unfold child_with. tstep; [tstep|].
  destruct (p_body <$> a) as [[v w|[[f|s|]|] s']|]; try tstep. apply Hrg.
Qed.

Lemma total_reactiveGetter_at n : forall s, total (reactiveGetter_at X n s).
Proof.
  induction n as [|n IH]; intros s; simpl;
    repeat first [apply IH | apply total_depend | apply total_dependArray
                 | apply total_child_with; apply IH | tstep].
Qed.

Lemma total_child this : total (child X this).
Proof.
  apply total_child_with. intros s st. apply total_reactiveGetter_at.
Qed.

Lemma total_get_prop r k : total (get_prop X r k).
Proof.
  unfold get_prop. tstep; [tstep|].
  destruct (p_body <$> a) as [[v w|[[f|s|]|] s']|]; simpl; try tstep.
  - intros st. apply total_reactiveGetter_at.
  - apply total_child.
Qed.

Lemma fuel_ok_bind n {A B} (m : M A) (f : A -> M B) :
  fuel_ok n m -> attaches m -> (forall a, fuel_ok n (f a)) ->
  fuel_ok n (bind m f).
Proof.
  intros Hm Ha Hf st Hst.
  destruct (bind_cases m f st) as [(a & Ho & ->)|[(e & Ho & ->)|(Ho & ->)]];
    unfold outcome; simpl; [|done|by apply Hm in Ho].
  apply Hf. destruct (Ha st) as [Hle _].
  pose proof (unobserved_mono _ _ Hle). unfold post in *. lia.
Qed.

Lemma fuel_ok_for_range n (body : nat -> M unit) k : forall i,
  (forall j, fuel_ok n (body j)) -> (forall j, attaches (body j)) ->
  fuel_ok n (for_range i k body).
Proof.
  induction k as [|k IH]; intros i Hb Ha; simpl.
  - apply total_fuel_ok, total_ret.
  - apply fuel_ok_bind; [apply Hb|apply Ha|]. intros _. by apply IH.
Qed.

Lemma fuel_ok_for_each n {A} (body : A -> M unit) (l : list A) :
  (forall a, a ∈ l -> fuel_ok n (body a)) ->
  (forall a, a ∈ l -> attaches (body a)) ->
  fuel_ok n (for_each l body).
Proof.
  induction l as [|a l IH]; intros Hb Ha; simpl.
  - apply total_fuel_ok, total_ret.
  - apply fuel_ok_bind; [apply Hb; left|apply Ha; left|].
    intros _. apply IH; intros b Hin; [apply Hb|apply Ha]; by right.
Qed.

Lemma fuel_ok_defineReactive_with n obs obj key val custom shallow :
  key <> ob_key -> (forall v, attaches (obs v)) ->
  (forall v, fuel_ok n (obs v)) ->
  fuel_ok n (defineReactive_with X obs obj key val custom shallow).
Proof.
  intros Hne Hobs Hfuel. unfold defineReactive_with.
  apply fuel_ok_bind;
    [apply total_fuel_ok, total_newDep|apply attaches_newDep|]. intros dep.
  apply fuel_ok_bind;
    [apply total_fuel_ok, total_gets|apply preserves_gets, _|]. intros [o|];
    [|apply total_fuel_ok, total_throw].
  destruct (match own_prop o key with
            | Some p => negb (p_conf p) | None => false end);
    [apply total_fuel_ok, total_ret|].
  apply fuel_ok_bind.
  - apply total_fuel_ok. destruct val; [tstep|].
    destruct (_ || _); [apply total_get_prop|tstep].
  - destruct val; [pstep|].
    destruct (_ || _); [apply attaches_get_prop|pstep].
  - intros v. apply fuel_ok_bind.
    + destruct shallow; [apply total_fuel_ok, total_ret|apply Hfuel].
    + destruct shallow; [pstep|apply Hobs].
    + intros childOb. apply total_fuel_ok.
      tstep; [tstep|]. tstep; [apply total_define_own|tstep].
Qed.

End FuelFacts.

Section ObserveFacts.

Context (E : Env) (X : Ext).

(** What [new Observer(value)] does after [def(value, "__ob__", this)]. *)
Lemma newObserver_suffix obs r (this : Ref) st :
  (forall v, attaches (obs v)) ->
  (isArray st (VObj r) = false -> ob_key ∉ object_keys st r) ->
  let res :=
    (isarr <- gets (fun st => isArray st (VObj r)) ;;
     (if isarr : bool then
        (if hasProto E then protoAugment r else copyAugment r) ;;;
        l <- gets (fun st => array_length st r) ;;
        observeArray_with obs (fun i st => elem st r i) l
      else walk_with X obs r) ;;;
     ret this) st in
  obs_le st (post res) /\ trace res = [] /\
  (forall x, outcome res = Ret x -> x = this).
Proof.
  intros Hobs Hhid res. unfold res. rewrite bind_gets.
  split; [|split]; [| |apply bind_const_outcome].
  - destruct (isArray st (VObj r)) eqn:Ha.
    + refine (proj1 ((_ : attaches _) st)).
      pstep; [|pstep]. pstep.
      * destruct (hasProto E);
          [apply attaches_protoAugment|apply attaches_copyAugment].
      * pstep; [pstep|]. by apply attaches_observeArray_with.
    + apply bind_le.
      * by apply attaches_walk_with; auto.
      * by apply attaches_walk_with; auto.
      * intros a _. split; [reflexivity|done].
  - destruct (isArray st (VObj r)) eqn:Ha.
    + refine (proj2 ((_ : attaches _) st)).
      pstep; [|pstep]. pstep.
      * destruct (hasProto E);
          [apply attaches_protoAugment|apply attaches_copyAugment].
      * pstep; [pstep|]. by apply attaches_observeArray_with.
    + apply bind_le.
      * by apply attaches_walk_with; auto.
      * by apply attaches_walk_with; auto.
      * intros a _. split; [reflexivity|done].
Qed.

(** [new Observer(value)] on an object that carries no Observer: either
    [def] throws, or the marker is set and the rest runs. *)
Lemma newObserver_prefix obs r st :
  marker_ref st r = None -> is_Some (get_obj st r) ->
  (exists st', newObserver_with E X obs r st = (Throw TypeError, st', []) /\
               obs_le st st') \/
  (exists this st2,
     obs_le st st2 /\ marker_ref st2 r = Some this /\
     (isArray st2 (VObj r) = false -> ob_key ∉ object_keys st2 r) /\
     newObserver_with E X obs r st =
       (isarr <- gets (fun st => isArray st (VObj r)) ;;
        (if isarr : bool then
           (if hasProto E then protoAugment r else copyAugment r) ;;;
           l <- gets (fun st => array_length st r) ;;
           observeArray_with obs (fun i st => elem st r i) l
         else walk_with X obs r) ;;;
        ret this) st2).
Proof.
  intros Hnone [o Ho]. unfold newObserver_with.
  rewrite (bind_step newDep _ st _ _ eq_refl).
  set (st_d := set_deps (deps st ++ [[]]) st).
  set (c := {| ob_value := r; ob_dep := length (deps st); ob_vmCount := 0 |}).
  rewrite (bind_step (alloc (CObserver c)) _ st_d _ _ eq_refl).
  set (this := length (heap st_d)).
  set (st_a := set_heap (heap st_d ++ [CObserver c]) st_d).
  assert (obs_le st st_a) as Hle_a.
  { trans st_d; [apply attaches_newDep|apply (attaches_alloc_observer c st_d)]. }
  assert (get_obj st_a r = Some o) as Ho_a.
  { unfold st_a. by rewrite get_obj_alloc_observer. }
  assert (get_observer st_a this = Some c) as Hthis.
  { unfold st_a. rewrite get_observer_alloc_observer. by rewrite decide_True. }
  assert (forall obr, marker_ref st_a r = Some obr -> obr = this) as Honly.
  { intros obr Hm. unfold marker_ref in Hm, Hnone. rewrite Ho_a in Hm.
    rewrite Ho in Hnone.
    destruct (marker_data o) as [y|]; [|done].
    unfold st_a in Hm. rewrite get_observer_alloc_observer in Hm.
    destruct (decide (y = length (heap st_d))) as [->|Hne].
    - by injection Hm as <-.
    - change (get_observer st_d y) with (get_observer st y) in Hm.
      destruct (get_observer st y); done. }
  unfold def, define_own. rewrite bind_assoc, bind_gets, Ho_a.
  set (mk := data_prop (VObj this) true false true).
  set (o2 := with_props (assoc_set ob_key mk (o_props o)) o).
  set (st2 := put_obj r o2 st_a).
  assert (obs_le st_a st2) as Hle_2.
  { apply (obs_le_put_obj st_a r o); try done.
    intros obr Hm. rewrite (Honly obr Hm).
    unfold marker_data, o2. rewrite own_prop_marker. simpl.
    by rewrite assoc_lookup_set_eq. }
  assert (marker_ref st2 r = Some this) as Hm2.
  { unfold marker_ref, st2. rewrite get_obj_put_obj by eauto.
    rewrite decide_True by done.
    unfold marker_data, o2. rewrite own_prop_marker. simpl.
    rewrite assoc_lookup_set_eq. simpl.
    rewrite get_observer_put_obj by eauto. by rewrite Hthis. }
  assert (isArray st2 (VObj r) = false -> ob_key ∉ object_keys st2 r) as Hhid.
  { intros Harr. apply (object_keys_hidden_marker st2 r o2 mk); try done.
    - unfold st2. rewrite get_obj_put_obj by eauto. by rewrite decide_True.
    - intros Hc. unfold isArray, class_of, st2 in Harr.
      rewrite get_obj_put_obj in Harr by eauto.
      rewrite decide_True in Harr by done. simpl in Harr.
      rewrite bool_decide_eq_true_2 in Harr; [done|]. by rewrite <- Hc.
    - unfold o2. simpl. apply assoc_lookup_set_eq. }
  assert (forall (k : unit -> M Ref) (b : bool),
    (exists st', bind (if b then modify (put_obj r o2)
                       else throw TypeError) k st_a
                 = (Throw TypeError, st', []) /\ obs_le st st') \/
    (exists this' st2',
       obs_le st st2' /\ marker_ref st2' r = Some this' /\
       (isArray st2' (VObj r) = false -> ob_key ∉ object_keys st2' r) /\
       this' = this /\
       bind (if b then modify (put_obj r o2) else throw TypeError) k st_a
       = k tt st2')) as Hfinish.
  { intros k b. destruct b.
    - right. exists this, st2. rewrite bind_modify.
      split; [by trans st_a|]. done.
    - left. exists st_a. rewrite bind_throw. done. }
  destruct (own_prop o ob_key) as [old|].
  - destruct (Hfinish
      (fun _ => isarr <- gets (fun st => isArray st (VObj r)) ;;
        (if isarr : bool then
           (if hasProto E then protoAugment r else copyAugment r) ;;;
           l <- gets (fun st => array_length st r) ;;
           observeArray_with obs (fun i st => elem st r i) l
         else walk_with X obs r) ;;;
        ret this)
      (p_conf old && negb (bool_decide (o_class o = CArray)
                           && isValidArrayIndex ob_key)))
      as [H|(this' & st2' & H1 & H2 & H3 & -> & H4)]; [by left|].
    right. exists this, st2'. done.
  - destruct (Hfinish
      (fun _ => isarr <- gets (fun st => isArray st (VObj r)) ;;
        (if isarr : bool then
           (if hasProto E then protoAugment r else copyAugment r) ;;;
           l <- gets (fun st => array_length st r) ;;
           observeArray_with obs (fun i st => elem st r i) l
         else walk_with X obs r) ;;;
        ret this)
      (o_ext o && negb (bool_decide (o_class o = CArray)
                        && isValidArrayIndex ob_key)))
      as [H|(this' & st2' & H1 & H2 & H3 & -> & H4)]; [by left|].
    right. exists this, st2'. done.
Qed.

Lemma newObserver_suffix_total n obs r (this : Ref) st :
  (forall v, attaches (obs v)) -> (forall v, fuel_ok n (obs v)) ->
  (isArray st (VObj r) = false -> ob_key ∉ object_keys st r) ->
  length (unobserved st) < n ->
  outcome
    ((isarr <- gets (fun st => isArray st (VObj r)) ;;
      (if isarr : bool then
         (if hasProto E then protoAugment r else copyAugment r) ;;;
         l <- gets (fun st => array_length st r) ;;
         observeArray_with obs (fun i st => elem st r i) l
       else walk_with X obs r) ;;;
      ret this) st) <> OutOfFuel.
Proof.
  intros Hobs Hfuel Hhid Hn. rewrite bind_gets.
  destruct (isArray st (VObj r)) eqn:Ha.
  - refine ((_ : fuel_ok n _) st Hn).
    apply fuel_ok_bind; [| |intros _; apply total_fuel_ok, total_ret].
    + apply fuel_ok_bind.
      * apply total_fuel_ok. destruct (hasProto E);
          [apply total_modify|apply total_copyAugment].
      * destruct (hasProto E);
          [apply attaches_protoAugment|apply attaches_copyAugment].
      * intros _. apply fuel_ok_bind;
          [apply total_fuel_ok, total_gets|apply preserves_gets, _|].
        intros l. unfold observeArray_with.
        apply fuel_ok_for_range; intros j.
        -- apply fuel_ok_bind;
             [apply total_fuel_ok, total_gets|apply preserves_gets, _|].
           intros v. apply fuel_ok_bind; [apply Hfuel|apply Hobs|].
           intros _. apply total_fuel_ok, total_ret.
        -- pstep; [pstep|]. pstep; [apply Hobs|pstep].
    + pstep.
      * destruct (hasProto E);
          [apply attaches_protoAugment|apply attaches_copyAugment].
      * pstep; [pstep|]. by apply attaches_observeArray_with.
  - assert (outcome (walk_with X obs r st) <> OutOfFuel) as Hw.
    { unfold walk_with. rewrite bind_gets.
      refine ((_ : fuel_ok n _) st Hn). apply fuel_ok_for_each.
      - intros k Hk. apply fuel_ok_defineReactive_with; try done.
        intros ->. by apply Hhid.
      - intros k Hk. apply attaches_defineReactive_with; try done.
        intros ->. by apply Hhid. }
    destruct (bind_cases (walk_with X obs r) (fun _ => ret this) st)
      as [(a & Ho & ->)|[(e & Ho & ->)|(Ho & ->)]]; unfold outcome; simpl; done.
Qed.

Lemma newObserver_attaches obs r st :
  (forall v, attaches (obs v)) ->
  marker_ref st r = None -> is_Some (get_obj st r) ->
  obs_le st (post (newObserver_with E X obs r st)) /\
  trace (newObserver_with E X obs r st) = [] /\
  (forall this, outcome (newObserver_with E X obs r st) = Ret this ->
     marker_ref (post (newObserver_with E X obs r st)) r = Some this).
Proof.
  intros Hobs Hnone Hsome.
  destruct (newObserver_prefix obs r st Hnone Hsome)
    as [(st' & -> & Hle)|(this & st2 & Hle & Hm & Hhid & ->)].
  - unfold post, trace, outcome. simpl. done.
  - destruct (newObserver_suffix obs r this st2 Hobs Hhid) as (H1 & H2 & H3).
    split; [by etrans|]. split; [done|].
    intros x Hx. rewrite (H3 x Hx). by apply (le_marker _ _ H1).
Qed.

(** It needs one unit of fuel less than there are objects without an
    Observer. *)
Lemma newObserver_total n obs r st :
  (forall v, attaches (obs v)) -> (forall v, fuel_ok n (obs v)) ->
  marker_ref st r = None -> is_Some (get_obj st r) ->
  length (unobserved st) < S n ->
  outcome (newObserver_with E X obs r st) <> OutOfFuel.
Proof.
  intros Hobs Hfuel Hnone Hsome Hn.
  destruct (newObserver_prefix obs r st Hnone Hsome)
    as [(st' & -> & Hle)|(this & st2 & Hle & Hm & Hhid & ->)]; [done|].
  apply (newObserver_suffix_total n); try done.
  assert (length (unobserved st2) < length (unobserved st)); [|lia].
  apply (unobserved_decrease st st2 r); first [done | by rewrite Hm].
Qed.

Lemma marker_ref_has_observer st r obr :
  marker_ref st r = Some obr ->
  has_observer st (VObj r) = true /\ is_Some (get_obj st r) /\
  fst <$> as_observer st (marker_of st (VObj r)) = Some obr.
Proof.
  intros Hm. destruct (has_observer st (VObj r)) eqn:Hh.
  - destruct (has_observer_marker_ref st r Hh) as (x & Hx & Hf).
    split; [done|]. split; [|congruence].
    unfold marker_ref in Hm. by destruct (get_obj st r).
  - rewrite (no_observer_marker_ref st r Hh) in Hm. done.
Qed.

(** [observe] on a value that carries an Observer returns that Observer and
    creates nothing. *)
Lemma observe_body_existing obs r obr a st :
  marker_ref st r = Some obr -> isVNode st (VObj r) = false ->
  observe_body E X obs (VObj r) a st
    = (Ret (Some obr), (if a then bump_vmCount obr st else st), []).
Proof.
  intros Hm Hv. destruct (marker_ref_has_observer st r obr Hm) as (Hh & Ho & Hf).
  unfold observe_body. rewrite bind_gets. unfold isObject.
  rewrite bool_decide_eq_true_2 by done. rewrite Hv. simpl.
  rewrite bind_gets, Hh. cbv iota. rewrite bind_gets. cbv beta.
  unfold marker_of in Hf. rewrite Hf.
  destruct a; unfold when.
  - rewrite bind_modify. reflexivity.
  - rewrite bind_ret. reflexivity.
Qed.

Lemma observe_tail (ob : option Ref) (a : bool) st :
  let res := ((match ob with
               | Some obr => when a (modify (bump_vmCount obr))
               | None => ret tt
               end) ;;; ret ob) st in
  obs_le st (post res) /\ trace res = [] /\ outcome res = Ret ob.
Proof.
  destruct ob as [obr|]; [destruct a|]; unfold when; cbv zeta.
  - rewrite bind_modify. unfold post, trace, outcome. simpl.
    split; [|done]. apply (attaches_bump_vmCount obr st).
  - rewrite bind_ret. split; [reflexivity|done].
  - rewrite bind_ret. split; [reflexivity|done].
Qed.

(** One level of [observe], given that the nested calls behave. *)
Lemma observe_body_attaches obs value a st :
  (forall v, attaches (obs v)) ->
  obs_le st (post (observe_body E X obs value a st)) /\
  trace (observe_body E X obs value a st) = [] /\
  (forall ob, outcome (observe_body E X obs value a st) = Ret (Some ob) ->
     exists r, value = VObj r /\
       marker_ref (post (observe_body E X obs value a st)) r = Some ob) /\
  (isObject st value = true -> isVNode st value = false ->
   observable E st value = true ->
   forall x, outcome (observe_body E X obs value a st) = Ret x -> is_Some x).
Proof.
  intros Hobs.
  destruct (negb (isObject st value) || isVNode st value) eqn:Hskip.
  { unfold observe_body. rewrite bind_gets, Hskip.
    split; [reflexivity|]. split; [done|]. split; [done|].
    intros Hi Hv. rewrite Hi, Hv in Hskip. done. }
  apply orb_false_iff in Hskip as [Hobj Hvn].
  apply negb_false_iff in Hobj.
  destruct value as [| | | | | | |r|]; try done.
  assert (is_Some (get_obj st r)) as Hsome.
  { unfold isObject in Hobj. by apply bool_decide_eq_true_1 in Hobj. }
  destruct (marker_ref st r) as [obr|] eqn:Hm.
  { rewrite (observe_body_existing obs r obr a st Hm Hvn).
    unfold post, trace, outcome. simpl.
    assert (obs_le st (if a then bump_vmCount obr st else st)) as Hle.
    { destruct a; [apply (attaches_bump_vmCount obr st)|reflexivity]. }
    split; [done|]. split; [done|]. split.
    - intros ob [= <-]. exists r. split; [done|]. by apply (le_marker _ _ Hle).
    - intros _ _ _ x [= <-]. done. }
  assert (has_observer st (VObj r) = false) as Hh.
  { destruct (has_observer st (VObj r)) eqn:Hh; [|done].
    destruct (has_observer_marker_ref st r Hh) as (x & Hx & _). congruence. }
  unfold observe_body. rewrite bind_gets, Hobj, Hvn. simpl.
  rewrite bind_gets, Hh. rewrite bind_assoc, bind_gets.
  destruct (observable E st (VObj r)) eqn:Hcan.
  - rewrite bind_assoc.
    destruct (newObserver_attaches obs r st Hobs Hm Hsome) as (Hn1 & Hn2 & Hn3).
    set (res := newObserver_with E X obs r st) in *.
    match goal with |- context [bind ?m ?f st] =>
      destruct (bind_cases m f st) as [(this & Ho & ->)|[(e & Ho & ->)|(Ho & ->)]]
    end; fold res.
    + rewrite bind_ret.
      destruct (observe_tail (Some this) a (post res)) as (Ht1 & Ht2 & Ht3).
      unfold post at 1 4 6, trace at 1, outcome at 1 2. simpl.
      split; [by etrans|]. rewrite Hn2, Ht2. split; [done|]. split.
      * intros ob Hob. rewrite Ht3 in Hob. injection Hob as <-.
        exists r. split; [done|]. apply (le_marker _ _ Ht1). by apply Hn3.
      * intros _ _ _ x Hx. rewrite Ht3 in Hx. by injection Hx as <-.
    + unfold post, trace, outcome in *. simpl. done.
    + unfold post, trace, outcome in *. simpl. done.
  - rewrite bind_ret, bind_ret. unfold post, trace, outcome. simpl.
    split; [reflexivity|]. split; [done|]. split; [done|]. done.
Qed.

Lemma observe_fuel_attaches n : forall v a, attaches (observe_fuel E X n v a).
Proof.
  induction n as [|n IH]; intros v a st; simpl.
  - split; [reflexivity|done].
  - destruct (observe_body_attaches (fun v => observe_fuel E X n v false) v a st)
      as (H1 & H2 & _); [intros v'; apply IH|]. done.
Qed.

Lemma observe_attaches v a : attaches (observe E X v a).
Proof. intros st. apply observe_fuel_attaches. Qed.

(** An Observer that [observe] returns is the one the value carries. *)
Lemma observe_returns_marker v a st ob :
  outcome (observe E X v a st) = Ret (Some ob) ->
  exists r, v = VObj r /\ marker_ref (post (observe E X v a st)) r = Some ob.
Proof.
  unfold observe. simpl. intros H.
  destruct (observe_body_attaches
              (fun v => observe_fuel E X (length (heap st)) v false) v a st)
    as (_ & _ & H3 & _); [intros v'; apply observe_fuel_attaches|].
  by apply H3.
Qed.

Lemma observe_existing r obr a st :
  marker_ref st r = Some obr -> isVNode st (VObj r) = false ->
  observe E X (VObj r) a st
    = (Ret (Some obr), (if a then bump_vmCount obr st else st), []).
Proof. intros Hm Hv. unfold observe. simpl. by apply observe_body_existing. Qed.

Lemma observe_body_total n obs value a st :
  (forall v, attaches (obs v)) -> (forall v, fuel_ok n (obs v)) ->
  length (unobserved st) < S n ->
  outcome (observe_body E X obs value a st) <> OutOfFuel.
Proof.
  intros Hobs Hfuel Hn.
  destruct (negb (isObject st value) || isVNode st value) eqn:Hskip.
  { unfold observe_body. rewrite bind_gets, Hskip. done. }
  apply orb_false_iff in Hskip as [Hobj Hvn].
  apply negb_false_iff in Hobj.
  destruct value as [| | | | | | |r|]; try done.
  assert (is_Some (get_obj st r)) as Hsome.
  { unfold isObject in Hobj. by apply bool_decide_eq_true_1 in Hobj. }
  destruct (marker_ref st r) as [obr|] eqn:Hm.
  { by rewrite (observe_body_existing obs r obr a st Hm Hvn). }
  assert (has_observer st (VObj r) = false) as Hh.
  { destruct (has_observer st (VObj r)) eqn:Hh; [|done].
    destruct (has_observer_marker_ref st r Hh) as (x & Hx & _). congruence. }
  unfold observe_body. rewrite bind_gets, Hobj, Hvn. simpl.
  rewrite bind_gets, Hh. rewrite bind_assoc, bind_gets.
  destruct (observable E st (VObj r)) eqn:Hcan.
  - rewrite bind_assoc.
    pose proof (newObserver_total n obs r st Hobs Hfuel Hm Hsome Hn) as Hnew.
    match goal with |- context [bind ?m ?f st] =>
      destruct (bind_cases m f st) as [(this & Ho & ->)|[(e & Ho & ->)|(Ho & ->)]]
    end; [|done|done].
    rewrite bind_ret.
    destruct (observe_tail (Some this) a (post (newObserver_with E X obs r st)))
      as (_ & _ & Ht3).
    unfold outcome at 1. simpl. by rewrite Ht3.
  - by rewrite bind_ret, bind_ret.
Qed.

Lemma observe_fuel_total n : forall v a, fuel_ok n (observe_fuel E X n v a).
Proof.
  induction n as [|n IH]; intros v a st Hn; [lia|]. simpl.
  apply (observe_body_total n); try done.
  intros v'. apply observe_fuel_attaches.
Qed.

(** [observe] returns or throws: the fuel it is given is enough. *)
Lemma observe_total v a : total (observe E X v a).
Proof.
  intros st. unfold observe. apply observe_fuel_total.
  pose proof (unobserved_bound st). lia.
Qed.

Lemma observe_some_not_vnode v a st ob :
  outcome (observe E X v a st) = Ret (Some ob) -> isVNode st v = false.
Proof.
  unfold observe. simpl. unfold observe_body. rewrite bind_gets.
  destruct (isVNode st v); [|done]. by rewrite orb_true_r.
Qed.

(** Where [observe] may create an Observer and returns, the value carries
    one afterwards. *)
Lemma observe_observable v a st x :
  isObject st v = true -> isVNode st v = false ->
  observable E st v = true ->
  outcome (observe E X v a st) = Ret x ->
  exists r ob, v = VObj r /\ x = Some ob /\
    marker_ref (post (observe E X v a st)) r = Some ob.
Proof.
  intros Hi Hv Hc Hx. revert Hx. unfold observe. simpl. intros Hx.
  destruct (observe_body_attaches
              (fun v => observe_fuel E X (length (heap st)) v false) v a st)
    as (_ & _ & H3 & H4); [intros v'; apply observe_fuel_attaches|].
  destruct (H4 Hi Hv Hc x Hx) as [ob ->].
  destruct (H3 ob Hx) as (r & -> & Hm). by exists r, ob.
Qed.

Lemma observe_all_attaches l : forall st, obs_le st (observe_all E X l st).
Proof.
  induction l as [|[v a] l IH]; intros st; simpl; [reflexivity|].
  etrans; [apply observe_attaches|apply IH].
Qed.

Lemma obs_le_isVNode st st' v :
  obs_le st st' -> isVNode st' v = isVNode st v.
Proof.
  intros Hle. destruct v; try done. simpl.
  destruct (get_obj st r) as [o|] eqn:Ho.
  - destruct (le_obj _ _ Hle r o Ho) as (o' & -> & _ & Hv & _). done.
  - destruct (get_obj st' r) as [o'|] eqn:Ho'; [|done].
    destruct (le_new _ _ Hle r) as [o Ho2]; [by eexists|]. congruence.
Qed.

Lemma bump_vmCount_length obr st :
  length (heap (bump_vmCount obr st)) = length (heap st).
Proof.
  unfold bump_vmCount. destruct (get_observer st obr); [|done].
  unfold put_observer, set_heap. cbn [heap]. apply length_insert.
Qed.

End ObserveFacts.

(** On a value that [observe] may instrument, a call that does not throw
    returns an Observer, attached to the value. *)
Lemma observe_attaches_to_eligible (E : Env) (X : Ext) (v : Value) (a : bool)
    (st : State) :
  isObject st v = true -> isVNode st v = false -> observable E st v = true ->
  (forall e, outcome (observe E X v a st) <> Throw e) ->
  exists r ob, v = VObj r /\
    outcome (observe E X v a st) = Ret (Some ob) /\
    marker_ref (post (observe E X v a st)) r = Some ob.
Proof.
  intros Hi Hv Hc Hthrow.
  destruct (outcome_cases _ (observe_total E X v a st) Hthrow) as [x Hx].
  destruct (observe_observable E X v a st x Hi Hv Hc Hx)
    as (r & ob & -> & -> & Hm).
  by exists r, ob.
Qed.

(** ** C1 *)

(** C1, as stated, fails: the marker [__ob__] is an ordinary configurable
    property.  After [observe(a)] has attached the Observer [3],
    [del(a, "__ob__")] deletes the marker, and the next [observe(a)] creates
    and returns a second Observer, [5], for the same object; the first one
    still exists. *)
Lemma observe_after_del_creates_second_observer :
  let st1 := post (observe env_dev ext_idle (VObj 0) false store_graph) in
  let st2 := post (del env_dev ext_idle (VObj 0) ob_key st1) in
  let st3 := post (observe env_dev ext_idle (VObj 0) false st2) in
  outcome (observe env_dev ext_idle (VObj 0) false store_graph)
    = Ret (Some 3) /\
  outcome (del env_dev ext_idle (VObj 0) ob_key st1) = Ret tt /\
  marker_ref st2 0 = None /\
  outcome (observe env_dev ext_idle (VObj 0) false st2) = Ret (Some 5) /\
  get_observer st3 3 = Some {| ob_value := 0; ob_dep := 0; ob_vmCount := 0 |} /\
  get_observer st3 5 = Some {| ob_value := 0; ob_dep := 5; ob_vmCount := 0 |}.
Proof. vm_compute. done. Qed.

(** C1 (amended): once [observe(x)] has returned an Observer, that Observer
    is attached to [x], and further [observe] calls, on [x] or on other
    values, leave it attached.  In every later store, however reached, in
    which [x] still carries it, [observe(x)] returns that same Observer,
    creates nothing and leaves it attached to [x]. *)
Theorem observe_idempotent (E : Env) (X : Ext) (x : Value) (a : bool)
    (st : State) (ob : Ref) :
  outcome (observe E X x a st) = Ret (Some ob) ->
  exists r, x = VObj r /\
    (forall later : list (Value * bool),
       let st1 := observe_all E X later (post (observe E X x a st)) in
       marker_ref st1 r = Some ob /\ isVNode st1 (VObj r) = false) /\
    (forall (st' : State) (a' : bool),
       marker_ref st' r = Some ob -> isVNode st' (VObj r) = false ->
       observe E X x a' st'
         = (Ret (Some ob), (if a' then bump_vmCount ob st' else st'), []) /\
       length (heap (post (observe E X x a' st'))) = length (heap st') /\
       marker_ref (post (observe E X x a' st')) r = Some ob).
Proof.
  intros Hfirst.
  destruct (observe_returns_marker E X x a st ob Hfirst) as (r & -> & Hm).
  pose proof (observe_some_not_vnode E X (VObj r) a st ob Hfirst) as Hv.
  exists r. split; [done|]. split.
  - intros later st1.
    assert (obs_le st st1) as Hle.
    { etrans; [apply (observe_attaches E X (VObj r) a st)|].
      apply observe_all_attaches. }
    split.
    + apply (le_marker _ _ (observe_all_attaches E X later _)), Hm.
    + by rewrite (obs_le_isVNode st st1).
  - intros st' a' Hm' Hv'.
    rewrite (observe_existing E X r ob a' st' Hm' Hv').
    unfold post. cbn [fst snd]. split; [done|]. split.
    + destruct a'; [apply bump_vmCount_length|done].
    + destruct a'; [|done].
      by apply (le_marker _ _ (proj1 (attaches_bump_vmCount ob st'))).
Qed.

Lemma observe_idempotent_witness :
  outcome (observe env_dev ext_idle (VObj 0) true store_graph) = Ret (Some 3) /\
  observe env_dev ext_idle (VObj 0) false
    (observe_all env_dev ext_idle [(VObj 2, false)]
       (post (observe env_dev ext_idle (VObj 0) true store_graph)))
  = (Ret (Some 3),
     observe_all env_dev ext_idle [(VObj 2, false)]
       (post (observe env_dev ext_idle (VObj 0) true store_graph)), []).
Proof.
  assert (outcome (observe env_dev ext_idle (VObj 0) true store_graph)
          = Ret (Some 3)) as H0 by (vm_compute; reflexivity).
  split; [exact H0|].
  destruct (observe_idempotent env_dev ext_idle (VObj 0) true store_graph 3 H0)
    as (r & Hr & Hlater & Hany).
  injection Hr as <-.
  destruct (Hlater [(VObj 2, false)]) as (Hm & Hv).
  exact (proj1 (Hany _ false Hm Hv)).
Defined.

(** ** What a call may emit *)


Section Emits.

Context (P : Event -> Prop).

Lemma emits_ret {A} (a : A) : emits P (ret a).
Proof. intros st. constructor. Qed.
Lemma emits_throw {A} e : emits P (@throw A e).
Proof. intros st. constructor. Qed.
Lemma emits_gets {A} (g : State -> A) : emits P (gets g).
Proof. intros st. constructor. Qed.
Lemma emits_modify g : emits P (modify g).
Proof. intros st. constructor. Qed.
Lemma emits_emit e : P e -> emits P (emit e).
Proof. intros H st. by repeat constructor. Qed.
Lemma emits_bind {A B} (m : M A) (f : A -> M B) :
  emits P m -> (forall a, emits P (f a)) -> emits P (bind m f).
Proof.
  intros Hm Hf st.
  destruct (bind_cases m f st) as [(a & Ho & ->)|[(e & Ho & ->)|(Ho & ->)]];
    unfold trace; simpl; [|apply Hm|apply Hm].
  apply Forall_app. split; [apply Hm|apply Hf].
Qed.
Lemma emits_for_range (body : nat -> M unit) k : forall i,
  (forall j, emits P (body j)) -> emits P (for_range i k body).
Proof.
  induction k as [|k IH]; intros i Hb; simpl; [apply emits_ret|].
  apply emits_bind; [apply Hb|]. intros _. by apply IH.
Qed.
Lemma emits_preserves {A} R (m : M A) : preserves R m -> emits P m.
Proof. intros H st. destruct (H st) as [_ ->]. constructor. Qed.
Lemma emits_host {A} (f : State -> Err + A) : emits P (host f).
Proof. intros st. unfold host. destruct (f st); constructor. Qed.
Lemma emits_for_each {A} (body : A -> M unit) (l : list A) :
  (forall a, emits P (body a)) -> emits P (for_each l body).
Proof.
  intros Hb. induction l as [|a l IH]; simpl; [apply emits_ret|].
  apply emits_bind; [apply Hb|]. intros _. apply IH.
Qed.

End Emits.

Ltac estep :=
  lazymatch goal with
  | |- emits _ (bind _ _) => apply emits_bind; [| intros ?]
  | |- emits _ (ret _) => apply emits_ret
  | |- emits _ (throw _) => apply emits_throw
  | |- emits _ (gets _) => apply emits_gets
  | |- emits _ (modify _) => apply emits_modify
  | |- emits _ (emit _) => apply emits_emit; try done
  | |- emits _ (when ?b _) => destruct b; unfold when
  | |- emits _ (for_range _ _ _) => apply emits_for_range; intros ?
  | |- emits _ (for_each _ _) => apply emits_for_each; intros ?
  | |- emits _ (host _) => apply emits_host
  | |- emits _ (if ?b then _ else _) => destruct b
  | |- emits _ (match ?x with _ => _ end) => destruct x
  end.


Section WriteFacts.

Context (E : Env) (X : Ext).

Lemma emits_notify (P : Event -> Prop) d :
  P (ENotify d) -> (forall w, P (EUpdate w)) -> emits P (notify E X d).
Proof.
  intros Hn Hu st. destruct (notify_trace E X d st) as [_ ->].
  constructor; [done|]. apply Forall_forall. intros e He.
  apply list_elem_of_fmap in He as (w & -> & _). apply Hu.
Qed.

Lemma total_notify d : total (notify E X d).
Proof. intros st. destruct (notify_trace E X d st) as [-> _]. done. Qed.

Lemma emits_current_value P sl : emits P (current_value X sl).
Proof. eapply emits_preserves, reads_current_value. Qed.

Lemma total_call_getter g this : total (call_getter X g this).
Proof.
  destruct g; simpl; [tstep| |apply total_child].
  intros st. apply total_reactiveGetter_at.
Qed.

Lemma total_current_value sl : total (current_value X sl).
Proof.
  unfold current_value. destruct (s_getter sl); [apply total_call_getter|tstep].
Qed.

Lemma emits_reactiveSetter_at n : forall s v,
  emits write_event (reactiveSetter_at E X n s v).
Proof.
  induction n as [|n IH]; intros s v; simpl; [estep|].
  estep; [estep|]. destruct a as [sl|]; [|estep].
  estep; [apply emits_current_value|].
  destruct (unchanged v a); [estep|].
  estep.
  - unfold call_customSetter. destruct (s_custom sl); [|estep].
    estep; [|estep]. estep; estep.
  - destruct (_ && _); [estep|].
    estep.
    + destruct (s_setter sl) as [[f|s']|]; [estep|apply IH|estep].
    + estep.
      * destruct (s_shallow sl); [estep|].
        eapply emits_preserves, observe_attaches.
      * estep; [estep|]. by apply emits_notify.
Qed.

Lemma total_reactiveSetter_at n : forall s v,
  total (reactiveSetter_at E X n s v).
Proof.
  induction n as [|n IH]; intros s v; simpl; [tstep|].
  tstep; [tstep|]. destruct a as [sl|]; [|tstep].
  tstep; [apply total_current_value|].
  destruct (unchanged v a); [tstep|].
  tstep.
  - unfold call_customSetter. destruct (s_custom sl); [|tstep].
    tstep; [|tstep]. tstep; tstep.
  - destruct (_ && _); [tstep|].
    tstep.
    + destruct (s_setter sl) as [[f|s']|]; [tstep|apply IH|tstep].
    + tstep.
      * destruct (s_shallow sl); [tstep|apply observe_total].
      * tstep; [tstep|]. apply total_notify.
Qed.

Lemma emits_put_named r key val :
  emits write_event (put_named E X r key val).
Proof.
  unfold put_named, write_own, call_setter.
  repeat first [ (intros st; apply emits_reactiveSetter_at) | estep ].
Qed.

Lemma total_put_named r key val : total (put_named E X r key val).
Proof.
  unfold put_named, write_own, call_setter.
  repeat first [ (intros st; apply total_reactiveSetter_at) | tstep ].
Qed.

Lemma emits_assign target key val :
  emits write_event (assign E X target key val).
Proof.
  unfold assign, set_length, toNumber.
  repeat first [ apply emits_put_named | estep ].
Qed.

Lemma total_assign target key val : total (assign E X target key val).
Proof.
  unfold assign, set_length, toNumber.
  repeat first [ apply total_put_named | tstep ].
Qed.

End WriteFacts.

(** ** C10: [set] on a key the target already has *)

Lemma find_prop_own n st r o k p :
  get_obj st r = Some o -> own_prop o k = Some p ->
  find_prop n st r k = Some p.
Proof. intros Ho Hp. destruct n; simpl; by rewrite Ho, Hp. Qed.

Lemma lookup_prop_own st r o k p :
  get_obj st r = Some o -> own_prop o k = Some p ->
  lookup_prop st r k = Some p.
Proof. apply find_prop_own. Qed.

Lemma own_prop_named o k :
  o_class o <> CArray -> own_prop o k = assoc_lookup k (o_props o).
Proof. intros Hc. unfold own_prop. by rewrite bool_decide_eq_false_2. Qed.

(** C10, as stated, fails.  [child] is in every VNode, through the accessor
    of [VNode.prototype], and is not in [Object.prototype]; the accessor has
    no setter, so the assignment of [set(vnode, "child", 1)] throws a
    [TypeError]: [val] is not returned and nothing is assigned. *)
Lemma set_on_getter_only_key_throws :
  isArray store_vnode (VObj 2) = false /\
  key_in (KStr "child") (VObj 2) store_vnode = (Ret true, store_vnode, []) /\
  in_object_prototype (KStr "child") = false /\
  set env_dev ext_idle (VObj 2) (KStr "child") (VNum 1) store_vnode
  = (Throw TypeError, store_vnode, []).
Proof. vm_compute. done. Qed.

(** C10 (amended): for a target that is no array and a key that is in the
    target and not in [Object.prototype], [set] is the assignment
    [target[key] = val] followed by [return val], before the root-data
    guard.  The assignment depends on the property found: a writable data
    property of the target gets the new value; one inherited is shadowed by
    a new own property, unless the target is not extensible, when the
    assignment throws; a data property that is not writable and an accessor
    without a setter make it throw; a setter is called, and the setter of a
    reactive property is the only source of a notification.  No warning is
    emitted in any of these cases. *)
Theorem set_existing_key_assigns (E : Env) (X : Ext) (r : Ref) (key : Key)
    (val : Value) (st : State) (o : Obj) (p : PropDesc) :
  let res := set E X (VObj r) key val st in
  get_obj st r = Some o -> o_class o <> CArray ->
  lookup_prop st r key = Some p ->
  in_object_prototype key = false ->
  res =
    match p_body p with
    | PData _ true =>
        match assoc_lookup key (o_props o) with
        | Some old =>
            (Ret val,
             put_obj r (with_props
               (assoc_set key (data_prop val true (p_enum old) (p_conf old))
                  (o_props o)) o) st, [])
        | None =>
            if o_ext o
            then (Ret val,
                  put_obj r (with_props
                    (assoc_set key (data_prop val true true true)
                       (o_props o)) o) st, [])
            else (Throw TypeError, st, [])
        end
    | PData _ false => (Throw TypeError, st, [])
    | PAccessor _ (Some (SUser f)) => (Ret val, x_set X f r val st, [])
    | PAccessor _ (Some (SSlot s)) =>
        let w := reactiveSetter E X s val st in
        (match outcome w with
         | Ret _ => Ret val
         | Throw e => Throw e
         | OutOfFuel => OutOfFuel
         end, post w, trace w)
    | PAccessor _ None => (Throw TypeError, st, [])
    end /\
  Forall write_event (trace res) /\
  (EWarn WarnAvoidAdding ∉ trace res).
Proof.
  intros res Ho Hc Hlook Hproto.
  assert (isArray st (VObj r) = false) as Harr.
  { unfold isArray, class_of. rewrite Ho. simpl.
    apply bool_decide_eq_false_2. congruence. }
  assert (res = bind (assign E X (VObj r) key val) (fun _ => ret val) st)
    as Hset.
  { unfold res, set. cbn [isUndef isPrimitive orb]. rewrite andb_false_r.
    unfold when. rewrite bind_ret, bind_gets, Harr. cbn [andb].
    unfold key_in. rewrite bind_gets, Hlook.
    rewrite (bool_decide_eq_true_2 (is_Some (Some p))) by eauto.
    by rewrite Hproto. }
  assert (Forall write_event (trace res)) as Hev.
  { rewrite Hset.
    destruct (bind_cases (assign E X (VObj r) key val) (fun _ => ret val) st)
      as [(a & Hout & ->)|[(e & Hout & ->)|(Hout & ->)]]; unfold trace at 1;
      cbn [fst snd]; rewrite ?app_nil_r; apply emits_assign. }
  split; [|split; [done|]].
  - rewrite Hset. unfold bind at 1, assign.
    rewrite bind_gets, Ho. cbv iota beta.
    rewrite !(bool_decide_eq_false_2 (o_class o = CArray)) by done.
    cbn [andb]. unfold put_named. rewrite bind_gets, Ho. cbv iota beta.
    rewrite bind_gets, Hlook. cbn [fmap option_fmap option_map].
    destruct (p_body p) as [v [|]|g [[f|s]|]]; unfold write_own, call_setter,
      throw, modify, ret; try done.
    + destruct (assoc_lookup key (o_props o)) as [old|]; [done|].
      by destruct (o_ext o).
    + destruct (reactiveSetter E X s val st) as [[[a|e|] st1] tr];
        unfold outcome, post, trace; cbn [fst snd]; by rewrite ?app_nil_r.
  - intros Hw. rewrite Forall_forall in Hev. apply (Hev _ Hw).
Qed.

Lemma set_existing_key_assigns_witness :
  root_count store_observed (marker_of store_observed (VObj 0)) = true /\
  outcome (set env_dev ext_idle (VObj 0) (KStr "n") (VNum 7) store_observed)
    = Ret (VNum 7) /\
  trace (set env_dev ext_idle (VObj 0) (KStr "n") (VNum 7) store_observed)
    = [ENotify 1].
Proof.
  split; [vm_compute; reflexivity|].
  let go := eval vm_compute in (get_obj store_observed 0) in
  let gp := eval vm_compute in (lookup_prop store_observed 0 (KStr "n")) in
  lazymatch go with
  | Some ?o =>
      lazymatch gp with
      | Some ?p =>
          destruct (set_existing_key_assigns env_dev ext_idle 0 (KStr "n")
                      (VNum 7) store_observed o p) as (Hres & _)
      end
  end.
  - vm_compute. reflexivity.
  - done.
  - vm_compute. reflexivity.
  - vm_compute. reflexivity.
  - rewrite Hres. split; vm_compute; reflexivity.
Defined.

(** ** The native array methods *)

Lemma marker_data_with_elems es o : marker_data (with_elems es o) = marker_data o.
Proof. unfold marker_data. by rewrite !own_prop_marker. Qed.


Lemma array_step_refl this st : array_step this st st.
Proof. split; try done. intros r o Ho. by exists o. Qed.

Lemma array_step_put_elems this o es st :
  get_obj st this = Some o ->
  array_step this st (put_obj this (with_elems es o) st).
Proof.
  intros Ho. assert (is_Some (get_obj st this)) as Hs by eauto.
  split; try done.
  - intros x. by apply get_observer_put_obj.
  - intros r Hr. unfold marker_ref. rewrite get_obj_put_obj by done.
    destruct (decide (this = r)) as [<-|Hne].
    + rewrite Ho, marker_data_with_elems.
      destruct (marker_data o); [|done]. by rewrite get_observer_put_obj.
    + destruct (get_obj st r); [|done]. destruct (marker_data o0); [|done].
      by rewrite get_observer_put_obj.
  - intros r o1 Ho1. rewrite get_obj_put_obj by done.
    destruct (decide (this = r)) as [<-|Hne].
    + exists (with_elems es o). rewrite Ho in Ho1. injection Ho1 as <-. done.
    + exists o1. done.
Qed.

Lemma get_obj_alloc_old st c r :
  r < length (heap st) ->
  get_obj (set_heap (heap st ++ [c]) st) r = get_obj st r.
Proof.
  intros Hlt. unfold get_obj, set_heap. cbn [heap]. by rewrite lookup_app_l.
Qed.

Lemma get_obj_lt st r : is_Some (get_obj st r) -> r < length (heap st).
Proof.
  unfold get_obj. intros [o Ho].
  destruct (heap st !! r) eqn:Hl; [|done]. eapply lookup_lt_Some; eauto.
Qed.

Lemma get_observer_lt st r : is_Some (get_observer st r) -> r < length (heap st).
Proof.
  unfold get_observer. intros [o Ho].
  destruct (heap st !! r) eqn:Hl; [|done]. eapply lookup_lt_Some; eauto.
Qed.

Lemma get_observer_alloc_array st es x :
  get_observer (set_heap (heap st ++ [new_array es]) st) x = get_observer st x.
Proof.
  unfold get_observer, set_heap. cbn [heap].
  destruct (decide (x < length (heap st))) as [Hlt|Hge].
  - by rewrite lookup_app_l.
  - rewrite lookup_app_r by lia.
    rewrite (proj2 (lookup_ge_None (heap st) x)) by lia.
    destruct (x - length (heap st)) as [|n]; [done|by destruct n].
Qed.

Lemma array_step_alloc_array this es st :
  array_step this st (set_heap (heap st ++ [new_array es]) st).
Proof.
  split; try done.
  - intros x. apply get_observer_alloc_array.
  - intros r Hr. unfold marker_ref.
    rewrite get_obj_alloc_old by (by apply get_obj_lt).
    destruct (get_obj st r); [|done]. destruct (marker_data o); [|done].
    by rewrite get_observer_alloc_array.
  - intros r o Ho. exists o.
    rewrite get_obj_alloc_old by (apply get_obj_lt; eauto). done.
Qed.

Lemma array_step_trans this st1 st2 st3 :
  array_step this st1 st2 -> array_step this st2 st3 -> array_step this st1 st3.
Proof.
  intros H12 H23. split.
  - intros x. rewrite (as_observer_same _ _ _ H23). apply H12.
  - intros r Hr. rewrite (as_marker _ _ _ H23); [by apply H12|].
    destruct Hr as [o Ho].
    destruct (as_class _ _ _ H12 r o Ho) as (o' & Ho' & _). eauto.
  - intros r o Ho.
    destruct (as_class _ _ _ H12 r o Ho) as (o1 & Ho1 & ? & ? & ? & Hn1).
    destruct (as_class _ _ _ H23 r o1 Ho1) as (o2 & Ho2 & ? & ? & ? & Hn2).
    exists o2. repeat split; try congruence.
    intros Hne. rewrite (Hn2 Hne). by apply Hn1.
  - rewrite (as_deps _ _ _ H23). apply H12.
  - rewrite (as_slots _ _ _ H23). apply H12.
  - rewrite (as_should _ _ _ H23). apply H12.
  - rewrite (as_target _ _ _ H23). apply H12.
Qed.

(** A computation that ends by throwing does not return. *)
Lemma bind_throw_end {A B} (m : M A) e st (b : B) :
  outcome (bind m (fun _ => throw e) st) <> Ret b.
Proof.
  destruct (bind_cases m (fun _ => @throw B e) st)
    as [(a & Ho & ->)|[(e' & Ho & ->)|(Ho & ->)]]; done.
Qed.

Lemma bind_step_throw {A B} (m : M A) (f : A -> M B) st e st1 tr :
  m st = (Throw e, st1, tr) -> bind m f st = (Throw e, st1, tr).
Proof. intros H. unfold bind. by rewrite H. Qed.

Lemma host_cases {A} (f : State -> Err + A) st :
  (exists a, host f st = (Ret a, st, [])) \/
  (exists e, host f st = (Throw e, st, [])).
Proof. unfold host. destruct (f st); [right|left]; by eexists. Qed.

Section NativeFacts.

Context (E : Env) (X : Ext).

Lemma toNumber_cases v st :
  (exists n, toNumber X v st = (Ret n, st, [])) \/
  (exists e, toNumber X v st = (Throw e, st, [])).
Proof.
  destruct v; simpl; try (left; by eexists); try apply host_cases.
  right. by eexists.
Qed.

Lemma toInteger_cases v st :
  (exists z, toInteger X v st = (Ret z, st, [])) \/
  (exists e, toInteger X v st = (Throw e, st, [])).
Proof.
  unfold toInteger.
  destruct (toNumber_cases v st) as [[n Hn]|[e He]].
  - left. exists (default 0%Z n). by rewrite (bind_step _ _ _ _ _ Hn).
  - right. exists e. by rewrite (bind_step_throw _ _ _ _ _ _ He).
Qed.


(** When the writes of [push], [unshift] or [splice] return, the elements
    are the new ones and nothing else has happened. *)
Lemma replace_at_ret this o s d items st :
  outcome (replace_at E X this o s d items st) = Ret tt ->
  replace_at E X this o s d items st =
  (Ret tt,
   put_obj this
     (with_elems (take s (o_elems o) ++ items ++ drop (s + d) (o_elems o)) o)
     st, []).
Proof.
  unfold replace_at.
  destruct (length items <=? d)%nat; [done|].
  destruct (negb (o_ext o)).
  { intros H. by apply bind_throw_end in H. }
  destruct (_ <=? max_array_length)%Z; [done|].
  intros H. exfalso.
  destruct (bind_outcome_ret _ _ _ _ H) as (a1 & _ & H1).
  destruct (bind_outcome_ret _ _ _ _ H1) as (a2 & _ & H2).
  by apply bind_throw_end in H2.
Qed.


(** On an array, a native method that returns has emitted nothing and has
    only touched the array's elements (and, for [splice], created the
    array of the removed elements). *)
Lemma native_returns m this args st v :
  isArray st (VObj this) = true ->
  outcome (native E X m this args st) = Ret v ->
  exists st1, native E X m this args st = (Ret v, st1, []) /\
              array_step this st st1.
Proof.
  intros Harr. unfold isArray, class_of in Harr.
  apply bool_decide_eq_true_1 in Harr.
  destruct (get_obj st this) as [o|] eqn:Ho; [|done].
  injection Harr as Hc.
  unfold native. rewrite bind_gets, Ho.
  rewrite (bool_decide_eq_true_2 _ Hc). cbn [negb].
  pose proof (array_step_put_elems this o) as Hput.
  assert (Hrep : forall s d items (w : Value),
    outcome (bind (replace_at E X this o s d items) (fun _ => ret w) st)
      = Ret v ->
    exists st1,
      bind (replace_at E X this o s d items) (fun _ => ret w) st
        = (Ret v, st1, []) /\ array_step this st st1).
  { intros s d items w H.
    destruct (bind_outcome_ret _ _ _ _ H) as ([] & H1 & H2).
    rewrite (bind_step _ _ _ _ _ (replace_at_ret this o s d items st H1))
      in H |- *.
    injection H2 as ->. eexists. split; [reflexivity|]. by apply Hput. }
  destruct m; unfold put_elems.
  - apply Hrep.
  - intros H. destruct (last (o_elems o)).
    + rewrite bind_modify in H |- *. injection H as ->.
      eexists. split; [reflexivity|]. by apply Hput.
    + injection H as <-. eexists. split; [reflexivity|].
      apply array_step_refl.
  - intros H. destruct (o_elems o) as [|x es].
    + injection H as <-. eexists. split; [reflexivity|].
      apply array_step_refl.
    + rewrite bind_modify in H |- *. injection H as ->.
      eexists. split; [reflexivity|]. by apply Hput.
  - apply Hrep.
  - destruct args as [|start rest].
    + intros H. injection H as <-. eexists. split; [reflexivity|].
      apply array_step_alloc_array.
    + destruct (toInteger_cases start st) as [[rel Hrel]|[e He]];
        [|rewrite (bind_step_throw _ _ _ _ _ _ He); done].
      rewrite (bind_step _ _ _ _ _ Hrel).
      assert (forall s d items (removed : list Value),
        outcome (bind (replace_at E X this o s d items)
                   (fun _ => r <- alloc (new_array removed) ;; ret (VObj r))
                   st) = Ret v ->
        exists st1,
          bind (replace_at E X this o s d items)
            (fun _ => r <- alloc (new_array removed) ;; ret (VObj r)) st
          = (Ret v, st1, []) /\
          array_step this st st1) as Hsp.
      { intros s d items removed H.
        destruct (bind_outcome_ret _ _ _ _ H) as ([] & H1 & H2).
        rewrite (bind_step _ _ _ _ _ (replace_at_ret this o _ _ _ st H1))
          in H |- *.
        rewrite (bind_step (alloc _) _ _ _ _ eq_refl) in H |- *.
        injection H as <-. eexists. split; [reflexivity|].
        eapply array_step_trans; [by apply Hput|apply array_step_alloc_array]. }
      destruct rest as [|dv rest'].
      * rewrite bind_ret. apply Hsp.
      * destruct (toInteger_cases dv st) as [[dc Hdc]|[e He]].
        -- rewrite bind_assoc, (bind_step _ _ _ _ _ Hdc), bind_ret. apply Hsp.
        -- rewrite bind_assoc, (bind_step_throw _ _ _ _ _ _ He). done.
  - assert (outcome (bind (host (x_sort X args (o_elems o)))
                       (fun sorted => modify (put_obj this (with_elems sorted o))
                                      ;;; ret (VObj this)) st) = Ret v ->
            exists st1,
              bind (host (x_sort X args (o_elems o)))
                (fun sorted => modify (put_obj this (with_elems sorted o))
                               ;;; ret (VObj this)) st = (Ret v, st1, []) /\
              array_step this st st1) as Hsort.
    { destruct (host_cases (x_sort X args (o_elems o)) st)
        as [[l Hl]|[e He]];
        [|rewrite (bind_step_throw _ _ _ _ _ _ He); done].
      rewrite (bind_step _ _ _ _ _ Hl), bind_modify. intros H.
      injection H as <-. eexists. split; [reflexivity|]. by apply Hput. }
    destruct args as [|[] args']; try done; apply Hsort.
  - intros H. rewrite bind_modify in H |- *. injection H as <-.
    eexists. split; [reflexivity|]. by apply Hput.
Qed.

(** A native method that throws is all an interceptor does. *)
Lemma mutator_throws m this args st e :
  outcome (native E X m this args st) = Throw e ->
  mutator E X m this args st
  = (Throw e, post (native E X m this args st),
     trace (native E X m this args st)).
Proof.
  intros H. unfold mutator.
  destruct (bind_cases (native E X m this args) (fun result =>
    ob <- gets (fun st => marker_of st (VObj this)) ;;
    match inserted_of m args with
    | Some inserted =>
        o <- gets (fun st => as_observer st ob) ;;
        match o with
        | Some _ => observeArray E X (read_list inserted) (length inserted)
        | None => throw TypeError
        end
    | None => ret tt
    end ;;;
    o <- gets (fun st => as_observer st ob) ;;
    match o with
    | Some (_, rec) => notify E X (ob_dep rec)
    | None => throw TypeError
    end ;;;
    ret result) st) as [(a & Ho & _)|[(e' & Ho & ->)|(Ho & _)]];
    congruence.
Qed.

End NativeFacts.

(** ** C5: the array interceptors *)

Lemma marker_ref_marker_of st r obr :
  marker_ref st r = Some obr ->
  marker_of st (VObj r) = VObj obr /\ is_Some (get_observer st obr).
Proof.
  intros Hm. destruct (marker_ref_has_observer st r obr Hm) as (_ & _ & Hf).
  unfold as_observer in Hf.
  destruct (marker_of st (VObj r)) as [| | | | | | |x|]; try done.
  destruct (get_observer st x) eqn:Hx; [|done].
  simpl in Hf. injection Hf as ->. split; [done|]. by rewrite Hx.
Qed.

Lemma obs_le_isObject st st' v :
  obs_le st st' -> isObject st' v = isObject st v.
Proof.
  intros Hle. destruct v; try done. unfold isObject.
  destruct (get_obj st r) as [o|] eqn:Ho.
  - destruct (le_obj _ _ Hle r o Ho) as (o' & -> & _).
    by rewrite !bool_decide_eq_true_2 by eauto.
  - destruct (get_obj st' r) as [o'|] eqn:Ho'; [|done].
    destruct (le_new _ _ Hle r) as [o Ho2]; [by eexists|]. congruence.
Qed.

Lemma obs_le_observable E st st' v :
  obs_le st st' -> isObject st v = true ->
  observable E st' v = observable E st v.
Proof.
  intros Hle Hobj. destruct v; try done.
  unfold isObject in Hobj. apply bool_decide_eq_true_1 in Hobj as [o Ho].
  destruct (le_obj _ _ Hle r o Ho) as (o' & Ho' & Hc & Hv & Hi & He & Hel).
  unfold observable, isArray, isPlainObject, class_of, isExtensible, isVue.
  rewrite Ho, Ho', (le_should _ _ Hle). simpl. by rewrite Hc, He, Hi.
Qed.

Section MutatorFacts.

Context (E : Env) (X : Ext).

Lemma total_observeArray read l : total (observeArray E X read l).
Proof.
  unfold observeArray, observeArray_with.
  tstep. tstep; [tstep|]. tstep; [apply observe_total|tstep].
Qed.

Lemma attaches_observeArray read l : attaches (observeArray E X read l).
Proof. apply attaches_observeArray_with. intros v. apply observe_attaches. Qed.

(** After [observeArray(items)] has returned, every item that could be
    observed carries an Observer. *)
Lemma observeArray_marks (items : list Value) k : forall i st,
  i + k = length items ->
  outcome (for_range i k
             (fun i => v <- gets (read_list items i) ;;
                       observe E X v false ;;; ret tt) st) = Ret tt ->
  forall j v, i <= j -> items !! j = Some v ->
    isObject st v = true -> isVNode st v = false ->
    observable E st v = true ->
    exists r ob, v = VObj r /\
      marker_ref (post (for_range i k
             (fun i => v <- gets (read_list items i) ;;
                       observe E X v false ;;; ret tt) st)) r = Some ob.
Proof.
  induction k as [|k IH]; intros i st Hlen Hout j v Hij Hj Hobj Hvn Hcan.
  { apply lookup_lt_Some in Hj. lia. }
  set (body := fun i => v <- gets (read_list items i) ;;
                        observe E X v false ;;; ret tt) in *.
  cbn [for_range] in Hout |- *.
  assert (attaches (body i)) as Hbody.
  { unfold body. pstep; [pstep|]. pstep; [apply observe_attaches|pstep]. }
  assert (forall i' k', attaches (for_range i' k' body)) as Hrest.
  { intros i' k'. apply preserves_for_range; [apply _|]. intros j'.
    unfold body. pstep; [pstep|]. pstep; [apply observe_attaches|pstep]. }
  destruct (bind_outcome_ret (body i) _ st tt Hout) as ([] & Ho1 & Ho2).
  destruct (Hbody st) as [Hle1 _].
  destruct (bind_cases (body i) (fun _ => for_range (S i) k body) st)
    as [([] & _ & ->)|[(e & Ho & _)|(Ho & _)]]; [|congruence|congruence].
  unfold post at 1. cbn [fst snd].
  destruct (decide (i = j)) as [<-|Hne].
  - (* the element observed now *)
    assert (exists r ob, v = VObj r /\ marker_ref (post (body i st)) r = Some ob)
      as (r & ob & -> & Hm).
    { unfold body in Ho1 |- *. rewrite bind_gets in Ho1 |- *.
      unfold read_list in Ho1 |- *. rewrite Hj in Ho1 |- *. simpl in Ho1 |- *.
      destruct (bind_outcome_ret (observe E X v false) _ st tt Ho1)
        as (x & Hx & _).
      destruct (observe_observable E X v false st x Hobj Hvn Hcan Hx)
        as (r & ob & -> & -> & Hm).
      exists r, ob. split; [done|].
      destruct (bind_cases (observe E X (VObj r) false) (fun _ => ret tt) st)
        as [(a & _ & ->)|[(e & Ho & _)|(Ho & _)]]; [|congruence|congruence].
      done. }
    exists r, ob. split; [done|].
    apply (le_marker _ _ (proj1 (Hrest (S i) k (post (body i st))))), Hm.
  - apply (IH (S i) (post (body i st)) ltac:(lia) Ho2 j v); try done; try lia.
    + by rewrite (obs_le_isObject st).
    + by rewrite (obs_le_isVNode st).
    + by rewrite (obs_le_observable E st).
Qed.

End MutatorFacts.

Section NotifyFrame.

Context (E : Env) (X : Ext).

(** Subscribers that leave some part of the store alone leave it alone
    through a whole [notify()]. *)
Lemma notify_frame {T} (f : State -> T) d st :
  (forall w s, f (x_update X w s) = f s) ->
  f (post (notify E X d st)) = f st.
Proof.
  intros Hf. unfold notify. rewrite bind_emit, bind_gets.
  set (subs := if negb (production E) && negb (config_async E)
               then sort_by_id (dep_subs st d) else dep_subs st d).
  assert (forall k i s,
    f (post (for_range i k (call_update X subs) s)) = f s) as Hloop.
  { induction k as [|k IH]; intros i s; simpl; [done|].
    unfold call_update at 1. destruct (subs !! i) as [w|]; [|done].
    rewrite bind_assoc, bind_emit, bind_modify.
    specialize (IH (S i) (x_update X w s)).
    destruct (for_range (S i) k (call_update X subs) (x_update X w s))
      as [[o s'] e]. unfold post in *. simpl in *. by rewrite IH. }
  specialize (Hloop (length subs) 0 st).
  destruct (for_range 0 (length subs) (call_update X subs) st) as [[o s'] e].
  done.
Qed.

End NotifyFrame.

(** A call of an interceptor on an observed array, step by step. *)
Lemma mutator_run (E : Env) (X : Ext)
    (m : Method) (this : Ref) (args : list Value) (st : State)
    (obr : Ref) (rec : ObserverRec) (v : Value) :
  let ins := default [] (inserted_of m args) in
  let st1 := post (native E X m this args st) in
  let st2 := post (observeArray E X (read_list ins) (length ins) st1) in
  isArray st (VObj this) = true ->
  marker_ref st this = Some obr ->
  get_observer st obr = Some rec ->
  outcome (native E X m this args st) = Ret v ->
  (forall e, outcome (observeArray E X (read_list ins) (length ins) st1)
             <> Throw e) ->
  mutator E X m this args st
  = (Ret v, post (notify E X (ob_dep rec) st2),
     trace (notify E X (ob_dep rec) st2)) /\
  array_step this st st1 /\ obs_le st1 st2 /\
  (forall x, x ∈ ins ->
     isObject st1 x = true -> isVNode st1 x = false ->
     observable E st1 x = true ->
     exists r ob, x = VObj r /\ marker_ref st2 r = Some ob).
Proof.
  intros ins st1 st2 Harr Hm Hrec Hret Hthrow.
  destruct (native_returns E X m this args st v Harr Hret)
    as (s1 & Hnat & Hstep).
  assert (st1 = s1) as Hs1 by (unfold st1; by rewrite Hnat).
  assert (marker_ref st1 this = Some obr) as Hm1.
  { rewrite Hs1, (as_marker _ _ _ Hstep); [done|].
    unfold marker_ref in Hm. by destruct (get_obj st this). }
  destruct (marker_ref_marker_of st1 this obr Hm1) as [Hmo _].
  assert (get_observer st1 obr = Some rec) as Hrec1.
  { by rewrite Hs1, (as_observer_same _ _ _ Hstep). }
  destruct (outcome_cases _ (total_observeArray E X (read_list ins)
                               (length ins) st1) Hthrow) as ([] & Harr_ret).
  destruct (attaches_observeArray E X (read_list ins) (length ins) st1)
    as [Hle Htr].
  fold st2 in Hle.
  destruct (le_observer _ _ Hle obr rec Hrec1) as (rec2 & Hrec2 & Hdep & _).
  (* the middle of the interceptor is [observeArray] on the inserted items *)
  assert ((match inserted_of m args with
           | Some inserted =>
               o <- gets (fun st => as_observer st (VObj obr)) ;;
               match o with
               | Some _ => observeArray E X (read_list inserted)
                             (length inserted)
               | None => throw TypeError
               end
           | None => ret tt
           end) st1 = (Ret tt, st2, [])) as Hmid.
  { unfold st2. revert Harr_ret Htr. unfold ins.
    destruct (inserted_of m args) as [l|]; simpl.
    - intros Ho Ht. rewrite bind_gets. unfold as_observer. rewrite Hrec1.
      destruct (observeArray E X (read_list l) (length l) st1) as [[o s] t].
      unfold outcome, trace, post in *. simpl in *. by subst.
    - intros _ _. reflexivity. }
  split; [|split; [by rewrite Hs1|split; [done|]]].
  { unfold mutator. rewrite (bind_step _ _ st v s1 Hnat). rewrite <- Hs1.
    rewrite bind_gets, Hmo.
    rewrite (bind_step _ _ st1 tt st2 Hmid).
    rewrite bind_gets. unfold as_observer. rewrite Hrec2, Hdep.
    destruct (notify_trace E X (ob_dep rec) st2) as [Hno _].
    destruct (bind_cases (notify E X (ob_dep rec)) (fun _ => ret v) st2)
      as [(a & _ & ->)|[(e & Ho & _)|(Ho & _)]]; [|congruence|congruence].
    unfold outcome, post, trace. simpl. by rewrite app_nil_r. }
  intros x Hx Hobj Hvn Hcan.
  apply list_elem_of_lookup in Hx as [j Hj].
  apply (observeArray_marks E X ins (length ins) 0 st1 eq_refl Harr_ret
           j x ltac:(lia) Hj Hobj Hvn Hcan).
Qed.

(** C5, as stated, fails.  [push(item)] on an observed array, where [item]
    has an own [__ob__] that is not configurable and holds no Observer:
    the element is appended and observing it throws a [TypeError], so that
    [notify()] is never called.  On an observed array that is no longer
    extensible, [push] itself throws, and nobody is notified either. *)
Lemma mutator_push_without_notification :
  let r := mutator env_dev ext_idle Push 0 [VObj 1] store_stubborn in
  marker_ref store_stubborn 0 = Some 2 /\
  elems_of store_stubborn 0 = [VNum 1] /\
  outcome r = Throw TypeError /\
  elems_of (post r) 0 = [VNum 1; VObj 1] /\
  trace r = [] /\
  marker_ref store_closed 0 = Some 2 /\
  mutator env_dev ext_idle Push 0 [VNum 2] store_closed
  = (Throw TypeError, store_closed, []).
Proof. vm_compute. done. Qed.

(** C5 (amended): on an observed array, each of the seven interceptors does
    what the native method does and returns or throws what it returns or
    throws.  When the native method returns, the interceptor observes the
    elements the call introduces (the arguments of [push] and [unshift],
    the arguments of [splice] from the third on) and then calls [notify()]
    once, on the Dep of the array's Observer; when the native method or the
    observation of an introduced element throws, nobody is notified.  Each
    introduced element that can be observed carries an Observer before the
    subscribers run, and afterwards too unless a subscriber removes it. *)
Theorem mutator_native_result_and_one_notification (E : Env) (X : Ext)
    (m : Method) (this : Ref) (args : list Value) (st : State)
    (obr : Ref) (rec : ObserverRec) :
  let ins := match m with
             | Push | Unshift => args
             | Splice => drop 2 args
             | Pop | Shift | Sort | Reverse => []
             end in
  let st1 := post (native E X m this args st) in
  let st2 := post (observeArray E X (read_list ins) (length ins) st1) in
  let r := mutator E X m this args st in
  isArray st (VObj this) = true ->
  marker_ref st this = Some obr ->
  get_observer st obr = Some rec ->
  (forall e, outcome (native E X m this args st) = Throw e ->
     r = (Throw e, st1, trace (native E X m this args st))) /\
  (forall v e, outcome (native E X m this args st) = Ret v ->
     outcome (observeArray E X (read_list ins) (length ins) st1) = Throw e ->
     outcome r = Throw e /\ trace r = []) /\
  (forall v, outcome (native E X m this args st) = Ret v ->
     (forall e, outcome (observeArray E X (read_list ins) (length ins) st1)
                <> Throw e) ->
     outcome r = Ret v /\
     notifications (trace r) = [ob_dep rec] /\
     notified (ob_dep rec) (trace r) = 1 /\
     post r = post (notify E X (ob_dep rec) st2) /\
     (forall x, x ∈ ins ->
        isObject st1 x = true -> isVNode st1 x = false ->
        observable E st1 x = true ->
        exists y ob, x = VObj y /\ marker_ref st2 y = Some ob /\
          ((forall w s, marker_ref (x_update X w s) y = marker_ref s y) ->
           marker_ref (post r) y = Some ob))).
Proof.
  intros ins st1 st2 r Harr Hm Hrec.
  assert (ins = default [] (inserted_of m args)) as Hins
    by (by destruct m).
  split; [|split].
  - intros e He. by apply mutator_throws.
  - intros v e Hret He.
    destruct (native_returns E X m this args st v Harr Hret)
      as (s1 & Hnat & Hstep).
    assert (st1 = s1) as Hs1 by (unfold st1; by rewrite Hnat).
    assert (marker_ref st1 this = Some obr) as Hm1.
    { rewrite Hs1, (as_marker _ _ _ Hstep); [done|].
      unfold marker_ref in Hm. by destruct (get_obj st this). }
    destruct (marker_ref_marker_of st1 this obr Hm1) as [Hmo _].
    assert (get_observer st1 obr = Some rec) as Hrec1.
    { by rewrite Hs1, (as_observer_same _ _ _ Hstep). }
    destruct (attaches_observeArray E X (read_list ins) (length ins) st1)
      as [_ Htr].
    assert (r = (Throw e,
                 post (observeArray E X (read_list ins) (length ins) st1), []))
      as ->; [|done].
    unfold r, mutator. rewrite (bind_step _ _ st v s1 Hnat). rewrite <- Hs1.
    rewrite bind_gets, Hmo.
    assert (inserted_of m args = Some ins) as ->.
    { destruct m; try done; unfold ins in He;
        by rewrite (surjective_pairing (observeArray E X (read_list []) 0 st1))
          in He. }
    rewrite bind_assoc, bind_gets. unfold as_observer at 1. rewrite Hrec1.
    destruct (bind_cases (observeArray E X (read_list ins) (length ins))
                (fun _ => o <- gets (fun st => as_observer st (VObj obr)) ;;
                          match o with
                          | Some (_, rec) => notify E X (ob_dep rec)
                          | None => throw TypeError
                          end ;;; ret v) st1)
      as [(a & Ho & _)|[(e' & Ho & ->)|(Ho & _)]]; congruence.
  - intros v Hret Hthrow. clearbody ins. subst ins.
    destruct (mutator_run E X m this args st obr rec v Harr Hm Hrec Hret Hthrow)
      as (Hmut & _ & _ & Hmarks).
    fold st1 st2 in Hmut, Hmarks. unfold r. rewrite Hmut.
    unfold outcome, post, trace. cbn [fst snd].
    split; [done|]. split; [apply notify_notifications|].
    split; [apply notify_notified|]. split; [done|].
    intros x Hx Hobj Hvn Hcan.
    destruct (Hmarks x Hx Hobj Hvn Hcan) as (y & ob & -> & Hy).
    exists y, ob. split; [done|]. split; [done|]. intros Hframe.
    pose proof (notify_frame E X (fun s => marker_ref s y) (ob_dep rec) st2
                  Hframe) as Hnf.
    cbv beta in Hnf. unfold post in Hnf |- *. by rewrite Hnf.
Qed.

Lemma mutator_native_result_and_one_notification_witness :
  let r := mutator env_dev ext_idle Push 0 [VObj 1; VNum 5] store_list in
  outcome r = Ret (VNum 3) /\
  notifications (trace r) = [0] /\
  marker_ref store_list 1 = None /\
  marker_ref (post r) 1 = Some 3.
Proof.
  assert (isArray store_list (VObj 0) = true) as H1
    by (vm_compute; reflexivity).
  assert (marker_ref store_list 0 = Some 2) as H2 by (vm_compute; reflexivity).
  assert (get_observer store_list 2
          = Some {| ob_value := 0; ob_dep := 0; ob_vmCount := 0 |}) as H3
    by (vm_compute; reflexivity).
  destruct (mutator_native_result_and_one_notification env_dev ext_idle Push 0
              [VObj 1; VNum 5] store_list 2 _ H1 H2 H3)
    as (_ & _ & Hret).
  assert (outcome (native env_dev ext_idle Push 0 [VObj 1; VNum 5] store_list)
          = Ret (VNum 3)) as H4 by (vm_compute; reflexivity).
  assert (forall e,
    outcome (observeArray env_dev ext_idle (read_list [VObj 1; VNum 5]) 2
               (post (native env_dev ext_idle Push 0 [VObj 1; VNum 5]
                        store_list)))
    <> Throw e) as H5 by (intros e; vm_compute; discriminate).
  destruct (Hret (VNum 3) H4 H5) as (Ho & Hn & _ & _ & Hobs).
  split; [exact Ho|]. split; [exact Hn|].
  split; [vm_compute; reflexivity|].
  destruct (Hobs (VObj 1)) as (y & ob & Hy & Hm2 & Hpost).
  - apply list_elem_of_here.
  - vm_compute; reflexivity.
  - vm_compute; reflexivity.
  - vm_compute; reflexivity.
  - injection Hy as <-. vm_compute in Hm2. injection Hm2 as <-.
    exact (Hpost (fun _ _ => eq_refl)).
Defined.

(** ** C6: [set] on an index of an observed array *)










Section SetFacts.

Context (E : Env) (X : Ext).





End SetFacts.




(** ** Runs of the model on small programs *)

(** A watcher that read [root.a] is updated once by [root.a = 2], and not
    at all when the same value is assigned again. *)
Example run_write_then_same_write :
  let w1 := assign env_dev ext_idle (VObj 0) (KStr "a") (VNum 2)
              store_root_read in
  let w2 := assign env_dev ext_idle (VObj 0) (KStr "a") (VNum 2) (post w1) in
  outcome w1 = Ret tt /\ updates (trace w1) = [watcher1] /\
  outcome w2 = Ret tt /\ trace w2 = [].
Proof. vm_compute. done. Qed.

(** [xs.sort()] on an observed array returns the array and notifies its
    Observer's Dep once. *)
Example run_sort_notifies_once :
  let r := call_method env_dev ext_idle 0 Sort [] store_list in
  outcome r = Ret (VObj 0) /\ notifications (trace r) = [0] /\
  updates (trace r) = [watcher1].
Proof. vm_compute. done. Qed.

(** [del(letters, 2)] leaves [["a", "b", "d"]] and notifies once; [del] of
    a key the array does not own changes and notifies nothing. *)
Example run_del_on_array :
  let r := del env_dev ext_idle (VObj 0) (KIdx 2) store_letters in
  let q := del env_dev ext_idle (VObj 0) (KStr "zz") store_letters in
  outcome r = Ret tt /\ notifications (trace r) = [0] /\
  elems_of (post r) 0 = [VStr "a"; VStr "b"; VStr "d"] /\
  q = (Ret tt, store_letters, []).
Proof. vm_compute. done. Qed.

(** [set(bag, "x", 1)] on an observed object adds a reactive property,
    returns the value and notifies the object's Dep once; the new property
    then reads [1]. *)
Example run_set_new_key :
  let r := set env_dev ext_idle (VObj 1) (KStr "x") (VNum 1) store_letters in
  outcome r = Ret (VNum 1) /\ notifications (trace r) = [1] /\
  outcome (get_prop ext_idle 1 (KStr "x") (post r)) = Ret (VNum 1).
Proof. vm_compute. done. Qed.

(** ** [observe] rewrites only what it instruments *)

#[global] Instance kept_preorder P : PreOrder (kept P).
Proof.
  split.
  - intros st. split; [reflexivity|done|done|done].
  - intros a b c Hab Hbc. split.
    + etrans; [apply Hab|apply Hbc].
    + intros r HP [[obr Hm]|Hm].
      * rewrite (kept_obj _ _ _ Hbc r HP).
        -- apply (kept_obj _ _ _ Hab r HP). left. by exists obr.
        -- left. exists obr. by apply (le_marker _ _ (kept_le _ _ _ Hab)).
      * assert (marker_ref b r = None) as Hb.
        { destruct (marker_ref b r) as [x|] eqn:Hx; [|done].
          by rewrite (le_marker _ _ (kept_le _ _ _ Hbc) r x Hx) in Hm. }
        rewrite (kept_obj _ _ _ Hbc r HP) by (by right).
        apply (kept_obj _ _ _ Hab r HP). by right.
    + intros r o HP Ho Hv.
      apply (kept_vnode _ _ _ Hbc r o HP); [|done].
      by apply (kept_vnode _ _ _ Hab r o HP).
    + intros s sl Hs. by apply (kept_slots _ _ _ Hbc), (kept_slots _ _ _ Hab).
Qed.

Lemma kept_mono (P Q : Ref -> Prop) st st' :
  (forall r, Q r -> P r) -> kept P st st' -> kept Q st st'.
Proof.
  intros H [H1 H2 H3 H4]. split; [done| | |done].
  - intros r Hr. by apply H2, H.
  - intros r o Hr. by apply H3, H.
Qed.

Lemma reads_as_data st r o k v w e c :
  get_obj st r = Some o -> o_class o <> CArray ->
  assoc_lookup k (o_props o) = Some (data_prop v w e c) -> reads_as st r k v.
Proof. intros Ho Hc Hl. exists o, (data_prop v w e c). done. Qed.

(** A value that [r] holds stays there while [r] is left alone. *)
Lemma reads_as_kept P st st' r k v :
  kept P st st' -> P r -> reads_as st r k v ->
  get_obj st' r = get_obj st r -> reads_as st' r k v.
Proof.
  intros Hk HP (o & p & Ho & Hc & Hl & Hp) Hsame.
  exists o, p. rewrite Hsame. split; [done|]. split; [done|]. split; [done|].
  destruct (p_body p) as [x w|[[f|s|]|] s']; try done.
  destruct Hp as ([obr Hm] & sl & Hs & Hg & Hv). split.
  - exists obr. by apply (le_marker _ _ (kept_le _ _ _ Hk)).
  - exists sl. split; [|done]. by apply (kept_slots _ _ _ Hk).
Qed.

#[global] Instance transparent_preorder P : PreOrder (transparent P).
Proof.
  split.
  - intros st. split; [reflexivity|].
    intros r o HP Ho Hc Hnd. split; [by exists o|].
    intros k v w e c Hk Hl. by eapply reads_as_data.
  - intros a b c Hab Hbc. split; [etrans; [apply Hab|apply Hbc]|].
    intros r o HP Ho Hc Hnd.
    destruct (tr_reads _ _ _ Hab r o HP Ho Hc Hnd) as ((ob & Hob & Hndb) & Hrb).
    assert (o_class ob <> CArray) as Hcb.
    { destruct (le_obj _ _ (kept_le _ _ _ (tr_kept _ _ _ Hab)) r o Ho)
        as (o1 & Ho1 & Hc1 & _). rewrite Hob in Ho1. injection Ho1 as <-.
      by rewrite Hc1. }
    destruct (tr_reads _ _ _ Hbc r ob HP Hob Hcb Hndb) as (Hex & Hrc).
    split; [done|].
    intros k v w e c0 Hk Hl.
    pose proof (Hrb k v w e c0 Hk Hl) as Hb.
    destruct Hb as (o1 & p & Ho1 & Hc1 & Hl1 & Hp).
    rewrite Hob in Ho1. injection Ho1 as <-.
    destruct p as [[x w'|g s'] e' c'].
    + simpl in Hp. subst x. by apply (Hrc k v w' e' c').
    + apply (reads_as_kept P b c); [apply Hbc|done| |].
      * exists ob, {| p_body := PAccessor g s'; p_enum := e'; p_conf := c' |}.
        done.
      * apply (kept_obj _ _ _ (tr_kept _ _ _ Hbc) r HP). left.
        simpl in Hp. destruct g as [[f|s|]|]; try done. by destruct Hp.
Qed.

Lemma transparent_mono (P Q : Ref -> Prop) st st' :
  (forall r, Q r -> P r) -> transparent P st st' -> transparent Q st st'.
Proof.
  intros H [H1 H2]. split; [by eapply kept_mono|].
  intros r o HQ. by apply H2, H.
Qed.

Lemma preserves_transparent_mono (P Q : Ref -> Prop) {A} (m : M A) :
  (forall r, Q r -> P r) ->
  preserves (transparent P) m -> preserves (transparent Q) m.
Proof.
  intros H. apply preserves_weaken. intros st st'. by apply transparent_mono.
Qed.

(** A step that rewrites objects outside [P] only and appends closures. *)
Lemma transparent_intro P {A} (m : M A) :
  attaches m ->
  (forall st r, P r -> get_obj (post (m st)) r = get_obj st r) ->
  (forall st s sl, slots st !! s = Some sl -> slots (post (m st)) !! s = Some sl) ->
  preserves (transparent P) m.
Proof.
  intros Hm Ho Hs st. destruct (Hm st) as [Hle Ht]. split; [|done].
  split.
  - split; [done| | |by apply Hs].
    + intros r HP _. by apply Ho.
    + intros r o HP Hget _. by rewrite Ho.
  - intros r o HP Hget Hc Hnd. rewrite Ho by done.
    split; [by exists o|].
    intros k v w e c Hk Hl. apply (reads_as_data _ _ o k v w e c); try done.
    by rewrite Ho.
Qed.

Lemma reads_transparent P {A} (m : M A) :
  reads m -> preserves (transparent P) m.
Proof.
  intros Hm. apply transparent_intro.
  - by apply reads_attaches.
  - intros st r _. destruct (Hm st) as [(Hh & _) _]. unfold get_obj.
    by rewrite Hh.
  - intros st s sl. destruct (Hm st) as [(_ & Hs & _) _]. by rewrite Hs.
Qed.

Lemma define_own_frame r k p st r' :
  r' <> r -> get_obj (post (define_own r k p st)) r' = get_obj st r'.
Proof.
  intros Hne. unfold define_own. rewrite bind_gets.
  destruct (get_obj st r) as [o|] eqn:Ho; [|done].
  destruct (own_prop o k) as [old|]; destruct (_ && _); try done;
    unfold post, modify; cbn [fst snd];
    rewrite get_obj_put_obj by eauto; by rewrite decide_False.
Qed.

Lemma define_own_slots r k p st : slots (post (define_own r k p st)) = slots st.
Proof.
  unfold define_own. rewrite bind_gets.
  destruct (get_obj st r) as [o|] eqn:Ho; [|done].
  destruct (own_prop o k) as [old|]; destruct (_ && _); done.
Qed.

Lemma get_obj_bump_vmCount obr st r :
  get_obj (bump_vmCount obr st) r = get_obj st r.
Proof.
  unfold bump_vmCount. destruct (get_observer st obr) as [ob|] eqn:Hob; [|done].
  unfold get_obj, put_observer, set_heap. cbn [heap].
  destruct (decide (obr = r)) as [<-|Hne].
  - unfold get_observer in Hob.
    destruct (heap st !! obr) as [[|]|] eqn:Hl; try done.
    rewrite list_lookup_insert_eq; [done|]. by eapply lookup_lt_Some.
  - by rewrite list_lookup_insert_ne.
Qed.

Lemma slots_bump_vmCount obr st : slots (bump_vmCount obr st) = slots st.
Proof. unfold bump_vmCount. by destruct (get_observer st obr). Qed.

Section TransparentSteps.

Context (E : Env) (X : Ext) (P : Ref -> Prop).

Lemma tr_newDep : preserves (transparent P) newDep.
Proof. apply transparent_intro; [apply attaches_newDep|done|done]. Qed.

Lemma tr_push_slot sl : preserves (transparent P) (modify (push_slot sl)).
Proof.
  apply transparent_intro; [apply attaches_push_slot|done|].
  intros st s sl' Hs. unfold post, modify, push_slot, set_slots. cbn.
  by apply lookup_app_l_Some.
Qed.

Lemma tr_define_own r k p :
  k <> ob_key -> ~ P r -> preserves (transparent P) (define_own r k p).
Proof.
  intros Hk Hr. apply transparent_intro; [by apply attaches_define_own| |].
  - intros st r' HP. apply define_own_frame. by intros ->.
  - intros st s sl. by rewrite define_own_slots.
Qed.

Lemma tr_copyAugment r : ~ P r -> preserves (transparent P) (copyAugment r).
Proof.
  intros Hr. unfold copyAugment. apply preserves_for_each; [apply _|].
  intros m _. apply tr_define_own; [apply method_name_not_marker|done].
Qed.

Lemma tr_protoAugment r : ~ P r -> preserves (transparent P) (protoAugment r).
Proof.
  intros Hr. apply transparent_intro; [apply attaches_protoAugment| |].
  - intros st r' HP. unfold post, protoAugment, modify. cbn [fst snd].
    destruct (get_obj st r) as [o|] eqn:Ho; [|done].
    rewrite get_obj_put_obj by eauto. rewrite decide_False; [done|].
    by intros ->.
  - intros st s sl. unfold post, protoAugment, modify. cbn [fst snd].
    by destruct (get_obj st r).
Qed.

Lemma tr_bump_vmCount obr :
  preserves (transparent P) (modify (bump_vmCount obr)).
Proof.
  apply transparent_intro; [apply attaches_bump_vmCount| |].
  - intros st r _. apply get_obj_bump_vmCount.
  - intros st s sl. unfold post, modify. cbn [fst snd].
    by rewrite slots_bump_vmCount.
Qed.

Lemma tr_get_prop r k : preserves (transparent P) (get_prop X r k).
Proof. apply reads_transparent, reads_get_prop. Qed.

Lemma tr_defineReactive_with obs obj key val custom shallow :
  key <> ob_key -> ~ P obj -> (forall v, preserves (transparent P) (obs v)) ->
  preserves (transparent P)
    (defineReactive_with X obs obj key val custom shallow).
Proof.
  intros Hne HP Hobs. unfold defineReactive_with.
  pstep; [apply tr_newDep|]. pstep; [pstep|].
  destruct a0 as [o|]; [|pstep].
  destruct (match own_prop o key with
            | Some p => negb (p_conf p) | None => false end); [pstep|].
  pstep.
  - destruct val; [pstep|]. destruct (_ || _); [apply tr_get_prop|pstep].
  - pstep; [destruct shallow; [pstep|apply Hobs]|].
    pstep; [pstep|]. pstep; [by apply tr_define_own|].
    apply tr_push_slot.
Qed.

Lemma tr_observeArray_with obs read l :
  (forall v, preserves (transparent P) (obs v)) ->
  preserves (transparent P) (observeArray_with obs read l).
Proof.
  intros Hobs. unfold observeArray_with.
  pstep. pstep; [pstep|]. pstep; [apply Hobs|pstep].
Qed.

Lemma tr_walk_with obs obj st :
  ob_key ∉ object_keys st obj -> ~ P obj ->
  (forall v, preserves (transparent P) (obs v)) ->
  transparent P st (post (walk_with X obs obj st)) /\
  trace (walk_with X obs obj st) = [].
Proof.
  intros Hk HP Hobs. unfold walk_with. rewrite bind_gets.
  apply preserves_for_each; [apply _|].
  intros k Hin. apply tr_defineReactive_with; [|done|done].
  intros ->. contradiction.
Qed.

End TransparentSteps.

Section StartFacts.

Context (E : Env) (X : Ext).

Lemma newObserver_start obs r o st :
  get_obj st r = Some o ->
  newObserver_with E X obs r st =
    if marker_definable o
    then observer_rest E X obs r (length (heap st)) (marked_store st r o)
    else (Throw TypeError,
          set_heap (heap st ++ [CObserver {| ob_value := r;
                                             ob_dep := length (deps st);
                                             ob_vmCount := 0 |}])
            (set_deps (deps st ++ [[]]) st), []).
Proof.
  intros Ho. unfold newObserver_with.
  rewrite (bind_step newDep _ st _ _ eq_refl).
  set (st_d := set_deps (deps st ++ [[]]) st).
  set (c := {| ob_value := r; ob_dep := length (deps st); ob_vmCount := 0 |}).
  rewrite (bind_step (alloc (CObserver c)) _ st_d _ _ eq_refl).
  set (st_a := set_heap (heap st_d ++ [CObserver c]) st_d).
  assert (get_obj st_a r = Some o) as Ho_a.
  { unfold st_a. by rewrite get_obj_alloc_observer. }
  unfold def, define_own. rewrite bind_assoc, bind_gets, Ho_a.
  unfold marker_definable.
  assert (bool_decide (o_class o = CArray) && is_array_index ob_key = false)
    as -> by apply andb_false_r.
  cbn [negb]. cbv iota beta.
  destruct (own_prop o ob_key) as [old|].
  - rewrite andb_true_r.
    destruct (p_conf old); [by rewrite bind_modify|by rewrite bind_throw].
  - rewrite andb_true_r.
    destruct (o_ext o); [by rewrite bind_modify|by rewrite bind_throw].
Qed.

Lemma assoc_set_keys k p ps :
  map fst (assoc_set k p ps)
  = if bool_decide (k ∈ map fst ps) then map fst ps else map fst ps ++ [k].
Proof.
  induction ps as [|[k' p'] ps IH]; simpl; [done|].
  destruct (decide (k = k')) as [->|Hne]; simpl.
  - rewrite bool_decide_eq_true_2; [done|]. left.
  - rewrite IH. destruct (bool_decide (k ∈ map fst ps)) eqn:Hin.
    + apply bool_decide_eq_true_1 in Hin.
      rewrite bool_decide_eq_true_2; [done|]. by right.
    + apply bool_decide_eq_false_1 in Hin.
      rewrite bool_decide_eq_false_2; [done|].
      intros H. apply elem_of_cons in H as [?|?]; done.
Qed.

Lemma assoc_set_NoDup k p ps :
  NoDup (map fst ps) -> NoDup (map fst (assoc_set k p ps)).
Proof.
  intros Hnd. rewrite assoc_set_keys.
  destruct (bool_decide (k ∈ map fst ps)) eqn:Hin; [done|].
  apply bool_decide_eq_false_1 in Hin.
  apply NoDup_app. split; [done|]. split; [|apply NoDup_singleton].
  intros x Hx Hx'. apply list_elem_of_singleton in Hx'. by subst.
Qed.

Lemma marked_store_facts r o st :
  get_obj st r = Some o -> marker_ref st r = None ->
  let st2 := marked_store st r o in
  transparent (fun x => x <> r) st st2 /\
  (marker_ref st2 r = Some (length (heap st))) /\
  (get_obj st2 r =
    Some (with_props (assoc_set ob_key
                        (data_prop (VObj (length (heap st))) true false true)
                        (o_props o)) o)) /\
  (slots st2 = slots st) /\
  (isArray st2 (VObj r) = false -> ob_key ∉ object_keys st2 r).
Proof.
  intros Ho Hnone. unfold marked_store.
  set (st_d := set_deps (deps st ++ [[]]) st).
  set (c := {| ob_value := r; ob_dep := length (deps st); ob_vmCount := 0 |}).
  set (this := length (heap st)).
  set (st_a := set_heap (heap st_d ++ [CObserver c]) st_d).
  set (mk := data_prop (VObj this) true false true).
  set (o2 := with_props (assoc_set ob_key mk (o_props o)) o).
  cbv zeta.
  assert (obs_le st st_a) as Hle_a.
  { trans st_d; [apply attaches_newDep|apply (attaches_alloc_observer c st_d)]. }
  assert (get_obj st_a r = Some o) as Ho_a.
  { unfold st_a. by rewrite get_obj_alloc_observer. }
  assert (get_observer st_a this = Some c) as Hthis.
  { unfold st_a. rewrite get_observer_alloc_observer. by rewrite decide_True. }
  assert (forall obr, marker_ref st_a r = Some obr -> obr = this) as Honly.
  { intros obr Hm. unfold marker_ref in Hm, Hnone. rewrite Ho_a in Hm.
    rewrite Ho in Hnone.
    destruct (marker_data o) as [y|]; [|done].
    unfold st_a in Hm. rewrite get_observer_alloc_observer in Hm.
    destruct (decide (y = length (heap st_d))) as [->|Hne].
    - by injection Hm as <-.
    - change (get_observer st_d y) with (get_observer st y) in Hm.
      destruct (get_observer st y); done. }
  set (st2 := put_obj r o2 st_a).
  assert (obs_le st_a st2) as Hle_2.
  { apply (obs_le_put_obj st_a r o); try done.
    intros obr Hm. rewrite (Honly obr Hm).
    unfold marker_data, o2. rewrite own_prop_marker. simpl.
    by rewrite assoc_lookup_set_eq. }
  assert (get_obj st2 r = Some o2) as Ho2.
  { unfold st2. rewrite get_obj_put_obj by eauto. by rewrite decide_True. }
  assert (forall r', r' <> r -> get_obj st2 r' = get_obj st r') as Hframe.
  { intros r' Hne. unfold st2. rewrite get_obj_put_obj by eauto.
    rewrite decide_False by done. unfold st_a.
    by rewrite get_obj_alloc_observer. }
  split; [|split; [|split; [done|split; [done|]]]].
  - split.
    + split; [by trans st_a| | |done].
      * intros r' Hne _. by apply Hframe.
      * intros r' o' Hne Ho' _. by rewrite Hframe.
    + intros r' o' Hne Ho' Hc Hnd. rewrite Hframe by done.
      split; [by exists o'|].
      intros k v w e c0 Hk Hl. apply (reads_as_data _ _ o' k v w e c0); try done.
      by rewrite Hframe.
  - unfold marker_ref. rewrite Ho2.
    unfold marker_data, o2. rewrite own_prop_marker. simpl.
    rewrite assoc_lookup_set_eq. simpl. unfold st2.
    rewrite get_observer_put_obj by eauto. by rewrite Hthis.
  - intros Harr. apply (object_keys_hidden_marker st2 r o2 mk); try done.
    + intros Hc. unfold isArray, class_of in Harr. rewrite Ho2 in Harr.
      simpl in Harr.
      rewrite bool_decide_eq_true_2 in Harr; [done|]. by rewrite <- Hc.
    + unfold o2. simpl. apply assoc_lookup_set_eq.
Qed.

End StartFacts.

Lemma tr_keeps P {A} (m : M A) :
  preserves (transparent P) m -> preserves (kept P) m.
Proof. apply preserves_weaken. intros st st'. apply tr_kept. Qed.

Lemma walking_kept st st' r o todo :
  kept (fun _ => True) st st' -> walking st r o todo -> walking st' r o todo.
Proof.
  intros Hk ([obr Hm] & o' & Ho' & Hc & Hnd & Hall).
  assert (get_obj st' r = get_obj st r) as Hsame.
  { apply (kept_obj _ _ _ Hk); [done|]. left. by exists obr. }
  split; [exists obr; by apply (le_marker _ _ (kept_le _ _ _ Hk))|].
  exists o'. rewrite Hsame. split; [done|]. split; [done|]. split; [done|].
  intros k v w e c Hne Hl. destruct (Hall k v w e c Hne Hl) as [Hr Ht].
  split; [|done]. by apply (reads_as_kept (fun _ => True) st st').
Qed.

Lemma walking_tail st r o k todo :
  walking st r o (k :: todo) -> walking st r o todo.
Proof.
  intros (Hm & o' & Ho' & Hc & Hnd & Hall).
  split; [done|]. exists o'. split; [done|]. split; [done|]. split; [done|].
  intros k' v w e c Hne Hl. destruct (Hall k' v w e c Hne Hl) as [Hr Ht].
  split; [done|]. intros Hin. apply Ht. by right.
Qed.

Lemma walking_nil st r o todo : walking st r o todo -> walking st r o [].
Proof.
  induction todo as [|k todo IH]; [done|]. intros H.
  by apply IH, (walking_tail _ _ _ k).
Qed.

Section WalkFacts.

Context (E : Env) (X : Ext).

(** [defineReactive(obj, key)] either stops early, having rewritten no
    object, or redefines the property over a new closure. *)
Lemma defineReactive_shape obs r k st o :
  get_obj st r = Some o ->
  (forall v, preserves (kept (fun _ => True)) (obs v)) ->
  let res := defineReactive_with X obs r k None None false st in
  kept (fun _ => True) st (post res) \/
  exists st_o o_so v childOb,
    kept (fun _ => True) st st_o /\ get_obj st_o r = Some o_so /\
    (forall x w e c, own_prop o k = Some (data_prop x w e c) -> v = x) /\
    post res =
      push_slot {| s_obj := r; s_key := k; s_val := v; s_childOb := childOb;
                   s_dep := length (deps st);
                   s_getter := prop_getter (own_prop o k);
                   s_setter := prop_setter (own_prop o k);
                   s_custom := None; s_shallow := false |}
        (put_obj r (with_props (assoc_set k (reactive_prop (length (slots st_o)))
                                  (o_props o_so)) o_so) st_o).
Proof.
  intros Ho Hobs res. unfold res, defineReactive_with.
  rewrite (bind_step newDep _ st _ _ eq_refl).
  set (st_d := set_deps (deps st ++ [[]]) st).
  assert (kept (fun _ => True) st st_d) as Hk_d.
  { apply (tr_keeps _ _ (tr_newDep (fun _ => True)) st). }
  rewrite bind_gets.
  change (get_obj st_d r) with (get_obj st r). rewrite Ho.
  destruct (match own_prop o k with
            | Some p => negb (p_conf p) | None => false end); [by left|].
  set (V := if negb (bool_decide (is_Some (prop_getter (own_prop o k))))
               || bool_decide (is_Some (prop_setter (own_prop o k)))
            then get_prop X r k else ret VUndef).
  assert (preserves (kept (fun _ => True)) V) as HV.
  { unfold V. destruct (_ || _); [|apply preserves_ret, _].
    apply tr_keeps, tr_get_prop. }
  assert (forall x w e c, own_prop o k = Some (data_prop x w e c) ->
            V st_d = (Ret x, st_d, [])) as Hdata.
  { intros x w e c Hp. unfold V. rewrite Hp. simpl.
    unfold get_prop. rewrite bind_gets.
    rewrite (lookup_prop_own st_d r o k _ Ho Hp). done. }
  match goal with |- context [bind V ?f st_d] =>
    destruct (bind_cases V f st_d) as [(v & Hv & ->)|[(e & He & ->)|(He & ->)]]
  end; unfold post at 1; cbn [fst snd];
    [|left; etrans; [exact Hk_d|apply HV]..].
  set (s_v := post (V st_d)).
  assert (kept (fun _ => True) st s_v) as Hk_v.
  { etrans; [exact Hk_d|apply HV]. }
  match goal with |- context [bind (obs v) ?f s_v] =>
    destruct (bind_cases (obs v) f s_v)
      as [(childOb & Hc & ->)|[(e & He & ->)|(He & ->)]]
  end; unfold post at 1; cbn [fst snd];
    [|left; etrans; [exact Hk_v|apply Hobs]..].
  set (s_o := post (obs v s_v)).
  assert (kept (fun _ => True) st s_o) as Hk_o.
  { etrans; [exact Hk_v|apply Hobs]. }
  rewrite bind_gets. unfold define_own. rewrite bind_assoc, bind_gets.
  destruct (get_obj s_o r) as [o_so|] eqn:Hso; [|by left].
  assert (forall b : bool,
    kept (fun _ => True) st
      (post (bind (if b then modify (put_obj r (with_props
                       (assoc_set k (reactive_prop (length (slots s_o)))
                          (o_props o_so)) o_so))
                   else throw TypeError)
               (fun _ => modify (push_slot
                  {| s_obj := r; s_key := k; s_val := v;
                     s_childOb := childOb; s_dep := length (deps st);
                     s_getter := prop_getter (own_prop o k);
                     s_setter := prop_setter (own_prop o k);
                     s_custom := None; s_shallow := false |})) s_o)) \/
    exists st_o o_so' v' childOb',
      kept (fun _ => True) st st_o /\ get_obj st_o r = Some o_so' /\
      (forall x w e c, own_prop o k = Some (data_prop x w e c) -> v' = x) /\
      post (bind (if b then modify (put_obj r (with_props
                       (assoc_set k (reactive_prop (length (slots s_o)))
                          (o_props o_so)) o_so))
                   else throw TypeError)
               (fun _ => modify (push_slot
                  {| s_obj := r; s_key := k; s_val := v;
                     s_childOb := childOb; s_dep := length (deps st);
                     s_getter := prop_getter (own_prop o k);
                     s_setter := prop_setter (own_prop o k);
                     s_custom := None; s_shallow := false |})) s_o) =
      push_slot {| s_obj := r; s_key := k; s_val := v';
                   s_childOb := childOb'; s_dep := length (deps st);
                   s_getter := prop_getter (own_prop o k);
                   s_setter := prop_setter (own_prop o k);
                   s_custom := None; s_shallow := false |}
        (put_obj r (with_props (assoc_set k (reactive_prop (length (slots st_o)))
                                  (o_props o_so')) o_so') st_o)) as Hfin.
  { intros [|].
    - right. exists s_o, o_so, v, childOb. split; [done|]. split; [done|].
      split; [|by rewrite bind_modify].
      intros x w e c Hp. rewrite (Hdata x w e c Hp) in Hv.
      unfold outcome in Hv. simpl in Hv. by injection Hv as <-.
    - left. by rewrite bind_throw. }
  destruct (own_prop o_so k) as [old|]; apply Hfin.
Qed.

End WalkFacts.

Lemma marker_data_assoc_set_ne o k p :
  k <> ob_key ->
  marker_data (with_props (assoc_set k p (o_props o)) o) = marker_data o.
Proof. apply marker_data_with_props_ne. Qed.

Section WalkLoop.

Context (E : Env) (X : Ext).

Lemma walking_step obs r o k0 todo st :
  (forall v, preserves (kept (fun _ => True)) (obs v)) ->
  k0 ∉ todo -> k0 <> ob_key ->
  walking st r o (k0 :: todo) ->
  walking (post (defineReactive_with X obs r k0 None None false st)) r o todo.
Proof.
  intros Hobs Hnin Hne0 Hw.
  pose proof Hw as ([obr Hm] & o' & Ho' & Hc & Hnd & Hall).
  destruct (defineReactive_shape X obs r k0 st o' Ho' Hobs)
    as [Hk|(st_o & o_so & v & childOb & Hk & Hso & Hval & ->)].
  { apply (walking_tail _ _ _ k0). by apply (walking_kept st). }
  pose proof (walking_kept st st_o r o _ Hk Hw)
    as ([obr' Hm'] & o2 & Ho2 & Hc2 & Hnd2 & Hall2).
  rewrite Hso in Ho2. injection Ho2 as <-.
  assert (get_obj st_o r = get_obj st r) as Hsame.
  { apply (kept_obj _ _ _ Hk); [done|]. left. by exists obr. }
  assert (o_so = o') as -> by congruence.
  set (sid := length (slots st_o)).
  set (o_new := with_props (assoc_set k0 (reactive_prop sid) (o_props o')) o').
  set (sl := {| s_obj := r; s_key := k0; s_val := v; s_childOb := childOb;
                s_dep := length (deps st);
                s_getter := prop_getter (own_prop o' k0);
                s_setter := prop_setter (own_prop o' k0);
                s_custom := None; s_shallow := false |}).
  set (st1 := put_obj r o_new st_o).
  assert (obs_le st_o st1) as Hle1.
  { apply (obs_le_put_obj st_o r o'); try done.
    intros x Hx. unfold o_new. rewrite marker_data_assoc_set_ne by done.
    by eapply marker_ref_data. }
  assert (get_obj (push_slot sl st1) r = Some o_new) as Hnew.
  { unfold push_slot, set_slots, get_obj. cbn [heap].
    fold (get_obj st1 r). unfold st1. rewrite get_obj_put_obj by eauto.
    by rewrite decide_True. }
  assert (is_Some (marker_ref (push_slot sl st1) r)) as Hmark.
  { exists obr'. change (marker_ref (push_slot sl st1) r)
      with (marker_ref st1 r). by apply (le_marker _ _ Hle1). }
  assert (forall s x, slots st_o !! s = Some x ->
            slots (push_slot sl st1) !! s = Some x) as Hpre.
  { intros s x Hs. unfold push_slot, set_slots. cbn [slots].
    change (slots st1) with (slots st_o). by apply lookup_app_l_Some. }
  split; [done|]. exists o_new. split; [done|]. split; [done|].
  split; [by apply assoc_set_NoDup|].
  intros k x w e c Hne Hl.
  destruct (Hall2 k x w e c Hne Hl) as [Hr Ht].
  destruct (decide (k = k0)) as [->|Hnk].
  - split; [|done].
    assert (assoc_lookup k0 (o_props o') = Some (data_prop x w e c)) as Hl0
      by (apply Ht; left).
    exists o_new, (reactive_prop sid).
    split; [done|]. split; [done|].
    split; [apply assoc_lookup_set_eq|]. simpl. split; [done|].
    exists sl. split.
    + unfold push_slot, set_slots. cbn [slots].
      change (slots st1) with (slots st_o).
      rewrite lookup_app_r by done. by rewrite Nat.sub_diag.
    + rewrite own_prop_named in Hval by done. unfold sl. simpl.
      rewrite own_prop_named by done.
      rewrite Hl0. split; [done|]. by apply (Hval x w e c).
  - split.
    + destruct Hr as (o1 & p & Ho1 & Hc1 & Hl1 & Hp).
      rewrite Hso in Ho1. injection Ho1 as <-.
      exists o_new, p. split; [done|]. split; [done|]. split.
      * unfold o_new. simpl. by rewrite assoc_lookup_set_ne by done.
      * destruct (p_body p) as [y w'|[[f|s|]|] s']; try done.
        destruct Hp as (_ & sl' & Hs' & Hg' & Hv'). split; [done|].
        exists sl'. split; [by apply Hpre|done].
    + intros Hin. unfold o_new. simpl.
      rewrite assoc_lookup_set_ne by done. apply Ht. by right.
Qed.

Lemma walking_loop obs r o keys : forall st,
  (forall v, preserves (kept (fun _ => True)) (obs v)) ->
  NoDup keys -> ob_key ∉ keys ->
  walking st r o keys ->
  walking (post (for_each keys
             (fun k => defineReactive_with X obs r k None None false) st))
    r o [].
Proof.
  induction keys as [|k0 keys IH]; intros st Hobs Hnd Hnin Hw; [done|].
  apply NoDup_cons in Hnd as [Hk0 Hnd].
  apply not_elem_of_cons in Hnin as [Hne Hnin].
  cbn [for_each].
  pose proof (walking_step obs r o k0 keys st Hobs Hk0 (not_eq_sym Hne) Hw)
    as Hstep.
  match goal with |- context [bind ?m ?f st] =>
    destruct (bind_cases m f st) as [(a & Ho & ->)|[(e & He & ->)|(He & ->)]]
  end; unfold post at 1; cbn [fst snd].
  - by apply IH.
  - by apply (walking_nil _ _ _ keys).
  - by apply (walking_nil _ _ _ keys).
Qed.

End WalkLoop.

Lemma NoDup_list_filter {A} (f : A -> bool) (l : list A) :
  NoDup l -> NoDup (List.filter f l).
Proof.
  induction 1 as [|x l Hx Hnd IH]; simpl; [constructor|].
  destruct (f x); [|done]. constructor; [|done].
  intros Hin. apply Hx. apply list_elem_of_In in Hin.
  apply filter_In in Hin as [Hin _]. by apply list_elem_of_In.
Qed.

Lemma transparent_same_objs P st st' :
  obs_le st st' -> (forall r, get_obj st' r = get_obj st r) ->
  slots st' = slots st -> transparent P st st'.
Proof.
  intros Hle Hobj Hs. split.
  - split; [done| | |by rewrite Hs].
    + intros r _ _. apply Hobj.
    + intros r o _ Ho _. by rewrite Hobj.
  - intros r o _ Ho Hc Hnd. rewrite Hobj. split; [by exists o|].
    intros k v w e c Hk Hl. apply (reads_as_data _ _ o k v w e c); try done.
    by rewrite Hobj.
Qed.

Lemma kept_unmarked r st st' :
  kept (fun x => x <> r) st st' ->
  marker_ref st r = None -> is_Some (marker_ref st' r) ->
  isVNode st (VObj r) = false ->
  kept (fun _ => True) st st'.
Proof.
  intros [H1 H2 H3 H4] Hnone Hsome Hvn. split; [done| | |done].
  - intros r' _ Hm. apply H2; [|done]. intros ->. rewrite Hnone in Hm.
    destruct Hm as [[? ?]|Hm]; [done|]. rewrite Hm in Hsome.
    by destruct Hsome.
  - intros r' o _ Ho Hv. apply H3; [|done|done]. intros ->.
    unfold isVNode in Hvn. rewrite Ho in Hvn. congruence.
Qed.

Section ObserveTransparent.

Context (E : Env) (X : Ext).

Lemma observer_rest_post obs r (this : Ref) st :
  post (observer_rest E X obs r this st) =
  if isArray st (VObj r)
  then post (((if hasProto E then protoAugment r else copyAugment r) ;;;
              l <- gets (fun st => array_length st r) ;;
              observeArray_with obs (fun i st => elem st r i) l) st)
  else post (walk_with X obs r st).
Proof.
  unfold observer_rest. rewrite bind_gets.
  destruct (isArray st (VObj r));
    match goal with |- context [bind ?m ?f st] =>
      destruct (bind_cases m f st) as [(a & Ho & ->)|[(e & He & ->)|(He & ->)]]
    end; done.
Qed.

Lemma observer_rest_transparent obs r (this : Ref) st :
  (forall v, preserves (transparent (fun _ => True)) (obs v)) ->
  (isArray st (VObj r) = false -> ob_key ∉ object_keys st r) ->
  transparent (fun x => x <> r) st (post (observer_rest E X obs r this st)) /\
  trace (observer_rest E X obs r this st) = [].
Proof.
  intros Hobs Hhid.
  assert (forall v, preserves (transparent (fun x => x <> r)) (obs v)) as Hobs'.
  { intros v. eapply preserves_transparent_mono; [|apply Hobs]. done. }
  assert (~ (fun x => x <> r) r) as Hr by (intros H; by apply H).
  unfold observer_rest. rewrite bind_gets.
  destruct (isArray st (VObj r)) eqn:Ha.
  - refine ((_ : preserves (transparent _) _) st).
    pstep; [|pstep]. pstep.
    + destruct (hasProto E);
        [by apply tr_protoAugment|by apply tr_copyAugment].
    + pstep; [pstep|]. by apply tr_observeArray_with.
  - destruct (tr_walk_with X (fun x => x <> r) obs r st) as [Hw Ht]; auto.
    destruct (bind_cases (walk_with X obs r) (fun _ => ret this) st)
      as [(a & Ho & ->)|[(e & Ho & ->)|(Ho & ->)]]; unfold post, trace in *;
      simpl; rewrite ?Ht; done.
Qed.

Lemma newObserver_transparent obs r st :
  (forall v, preserves (transparent (fun _ => True)) (obs v)) ->
  marker_ref st r = None -> is_Some (get_obj st r) ->
  isVNode st (VObj r) = false ->
  transparent (fun _ => True) st (post (newObserver_with E X obs r st)) /\
  trace (newObserver_with E X obs r st) = [].
Proof.
  intros Hobs Hnone [o Ho] Hvn. rewrite (newObserver_start E X obs r o st Ho).
  destruct (marker_definable o).
  - destruct (marked_store_facts r o st Ho Hnone)
      as (Ht1 & Hm & Ho2 & _ & Hhid).
    set (st2 := marked_store st r o) in *.
    destruct (observer_rest_transparent obs r (length (heap st)) st2 Hobs Hhid)
      as (Ht2 & Htr).
    set (st' := post (observer_rest E X obs r (length (heap st)) st2)) in *.
    assert (transparent (fun x => x <> r) st st') as Ht by (by etrans).
    assert (is_Some (marker_ref st' r)) as Hm'.
    { exists (length (heap st)).
      by apply (le_marker _ _ (kept_le _ _ _ (tr_kept _ _ _ Ht2))). }
    split; [|done]. split.
    { apply (kept_unmarked r); [apply Ht|done|done|done]. }
    intros r' o' _ Ho' Hc Hnd.
    destruct (decide (r' = r)) as [->|Hne]; [|by apply (tr_reads _ _ _ Ht)].
    rewrite Ho in Ho'. injection Ho' as <-.
    assert (isArray st2 (VObj r) = false) as Harr.
    { unfold isArray, class_of. rewrite Ho2. simpl.
      by apply bool_decide_eq_false_2; intros [= ?]. }
    assert (object_keys st2 r
            = enum_keys (assoc_set ob_key
                (data_prop (VObj (length (heap st))) true false true)
                (o_props o))) as Hkeys.
    { unfold object_keys. rewrite Ho2. simpl.
      by rewrite bool_decide_eq_false_2. }
    assert (walking st2 r o (object_keys st2 r)) as Hw.
    { split; [by eexists|]. eexists. split; [exact Ho2|].
      split; [done|]. split; [by apply assoc_set_NoDup|].
      intros k v w e c Hk Hl.
      assert (assoc_lookup k
                (assoc_set ob_key
                   (data_prop (VObj (length (heap st))) true false true)
                   (o_props o)) = Some (data_prop v w e c)) as Hl2.
      { by rewrite assoc_lookup_set_ne by done. }
      split; [|done]. eapply reads_as_data; [exact Ho2|done|exact Hl2]. }
    assert (walking st' r o []) as Hw'.
    { unfold st'. rewrite observer_rest_post, Harr.
      unfold walk_with. rewrite bind_gets.
      apply walking_loop; try done.
      - intros v. apply tr_keeps, Hobs.
      - rewrite Hkeys. unfold enum_keys. apply NoDup_list_filter.
        by apply assoc_set_NoDup.
      - by apply Hhid. }
    destruct Hw' as (_ & o' & Ho' & Hc' & Hnd' & Hall).
    split; [by exists o'|].
    intros k v w e c Hk Hl. by destruct (Hall k v w e c Hk Hl).
  - split; [|done]. unfold post. cbn [fst snd].
    set (c := {| ob_value := r; ob_dep := length (deps st); ob_vmCount := 0 |}).
    apply transparent_same_objs; [| |done].
    + trans (set_deps (deps st ++ [[]]) st);
        [apply attaches_newDep|apply (attaches_alloc_observer c)].
    + intros r'.
      apply (get_obj_alloc_observer (set_deps (deps st ++ [[]]) st) c r').
Qed.

Lemma observe_body_transparent obs value a st :
  (forall v, preserves (transparent (fun _ => True)) (obs v)) ->
  transparent (fun _ => True) st (post (observe_body E X obs value a st)) /\
  trace (observe_body E X obs value a st) = [].
Proof.
  intros Hobs.
  destruct (negb (isObject st value) || isVNode st value) eqn:Hskip.
  { unfold observe_body. rewrite bind_gets, Hskip. split; [reflexivity|done]. }
  apply orb_false_iff in Hskip as [Hobj Hvn].
  apply negb_false_iff in Hobj.
  destruct value as [| | | | | | |r|]; try done.
  assert (is_Some (get_obj st r)) as Hsome.
  { unfold isObject in Hobj. by apply bool_decide_eq_true_1 in Hobj. }
  destruct (marker_ref st r) as [obr|] eqn:Hm.
  { rewrite (observe_body_existing E X obs r obr a st Hm Hvn).
    unfold post, trace. simpl. split; [|done].
    destruct a; [apply (tr_bump_vmCount _ obr st)|reflexivity]. }
  assert (has_observer st (VObj r) = false) as Hh.
  { destruct (has_observer st (VObj r)) eqn:Hh; [|done].
    destruct (has_observer_marker_ref st r Hh) as (x & Hx & _). congruence. }
  unfold observe_body. rewrite bind_gets, Hobj, Hvn. simpl.
  rewrite bind_gets, Hh. rewrite bind_assoc, bind_gets.
  destruct (observable E st (VObj r)) eqn:Hcan.
  - rewrite bind_assoc.
    destruct (newObserver_transparent obs r st Hobs Hm Hsome Hvn)
      as (Hn1 & Hn2).
    set (res := newObserver_with E X obs r st) in *.
    match goal with |- context [bind ?m ?f st] =>
      destruct (bind_cases m f st) as [(this & Ho & ->)|[(e & Ho & ->)|(Ho & ->)]]
    end; fold res; [|done|done].
    rewrite bind_ret.
    assert (preserves (transparent (fun _ => True))
              (when a (modify (bump_vmCount this)) ;;; ret (Some this))) as Hk.
    { pstep; [|pstep]. pstep. apply tr_bump_vmCount. }
    destruct (Hk (post res)) as [Hk1 Hk2].
    unfold post at 1, trace at 1. cbn [fst snd].
    split; [by etrans|]. by rewrite Hn2, Hk2.
  - rewrite bind_ret, bind_ret. split; [reflexivity|done].
Qed.

Lemma observe_fuel_transparent n :
  forall v a, preserves (transparent (fun _ => True)) (observe_fuel E X n v a).
Proof.
  induction n as [|n IH]; intros v a st; simpl.
  - split; [reflexivity|done].
  - apply observe_body_transparent. intros v'. apply IH.
Qed.

Lemma observe_transparent v a :
  preserves (transparent (fun _ => True)) (observe E X v a).
Proof. intros st. apply observe_fuel_transparent. Qed.

(** Reading a property that holds [v]. *)
Lemma reads_as_get_prop st r k v :
  reads_as st r k v ->
  (forall x, outcome (get_prop X r k st) = Ret x -> x = v) /\
  (target_active st = false -> get_prop X r k st = (Ret v, st, [])).
Proof.
  intros (o & p & Ho & Hc & Hl & Hp).
  assert (lookup_prop st r k = Some p) as Hlook.
  { apply (lookup_prop_own st r o); [done|]. by rewrite own_prop_named. }
  unfold get_prop. rewrite bind_gets, Hlook. simpl.
  destruct (p_body p) as [x w|[[f|s|]|] s']; try done.
  { subst x. split; [|done]. by intros x [= <-]. }
  destruct Hp as (_ & sl & Hs & Hg & Hv).
  unfold call_getter, reactiveGetter. cbn [reactiveGetter_at].
  rewrite bind_gets, Hs, Hg. cbv iota. rewrite bind_ret, bind_gets, Hv.
  split.
  - apply bind_const_outcome.
  - intros ->. by rewrite bind_ret.
Qed.

End ObserveTransparent.

(** X1. [observe] rewrites only the objects to which it attaches an Observer
    in the call: an object that carried one before, or carries none
    afterwards, is exactly as it was.  No object changes kind,
    extensibility or elements, the closures of [defineReactive] that
    existed are left alone, and no subscriber is called. *)
Theorem observe_rewrites_only_what_it_instruments (E : Env) (X : Ext)
    (v : Value) (a : bool) (st : State) :
  (forall r, is_Some (marker_ref st r)
             \/ marker_ref (post (observe E X v a st)) r = None ->
     get_obj (post (observe E X v a st)) r = get_obj st r) /\
  (forall r o, get_obj st r = Some o ->
     exists o', get_obj (post (observe E X v a st)) r = Some o' /\
       o_class o' = o_class o /\ o_ext o' = o_ext o /\
       o_elems o' = o_elems o) /\
  (forall s sl, slots st !! s = Some sl ->
     slots (post (observe E X v a st)) !! s = Some sl) /\
  trace (observe E X v a st) = [].
Proof.
  destruct (observe_transparent E X v a st) as [[Hk _] Ht].
  split; [|split; [|split; [|done]]].
  - intros r Hr. by apply (kept_obj _ _ _ Hk).
  - intros r o Ho.
    destruct (le_obj _ _ (kept_le _ _ _ Hk) r o Ho)
      as (o' & Ho' & Hc & _ & _ & He & Hel).
    by exists o'.
  - apply (kept_slots _ _ _ Hk).
Qed.

(** X2. Observation is transparent to reads: whatever [observe] is called
    on, a named data property (the marker apart) of any object that is no
    array reads afterwards the value it held before, whether the call made
    it reactive or not; with no active watcher the read changes nothing. *)
Theorem observe_keeps_what_properties_read (E : Env) (X : Ext)
    (v : Value) (a : bool) (st : State)
    (r : Ref) (o : Obj) (k : Key) (val : Value) (w e c : bool) :
  get_obj st r = Some o -> o_class o <> CArray ->
  NoDup (map fst (o_props o)) ->
  k <> ob_key -> assoc_lookup k (o_props o) = Some (data_prop val w e c) ->
  (forall x, outcome (get_prop X r k (post (observe E X v a st))) = Ret x ->
             x = val) /\
  (target_active st = false ->
   get_prop X r k (post (observe E X v a st))
     = (Ret val, post (observe E X v a st), [])).
Proof.
  intros Ho Hc Hnd Hk Hl.
  destruct (observe_transparent E X v a st) as [[Hkept Hreads] Ht].
  destruct (Hreads r o I Ho Hc Hnd) as (_ & Hlike).
  destruct (reads_as_get_prop X _ r k val (Hlike k val w e c Hk Hl))
    as [H1 H2].
  split; [done|]. intros Hact. apply H2.
  unfold target_active in *. by rewrite (le_target _ _ (kept_le _ _ _ Hkept)).
Qed.

Lemma observe_keeps_what_properties_read_witness :
  get_prop ext_idle 1 (KStr "back")
    (post (observe env_dev ext_idle (VObj 0) true store_graph))
  = (Ret (VObj 0), post (observe env_dev ext_idle (VObj 0) true store_graph),
     []).
Proof.
  refine (proj2 (observe_keeps_what_properties_read env_dev ext_idle (VObj 0)
                   true store_graph 1
                   {| o_class := CPlain; o_vnode := false; o_isVue := false;
                      o_ext := true; o_proto := ProtoObject;
                      o_props := [(KStr "back", plain_prop (VObj 0))];
                      o_elems := [] |}
                   (KStr "back") (VObj 0) true true true
                   eq_refl _ _ _ eq_refl) eq_refl).
  - done.
  - apply NoDup_singleton.
  - done.
Defined.








Section Intercept.

Context (E : Env) (X : Ext).


End Intercept.

Section ObserveNew.

Context (E : Env) (X : Ext).


End ObserveNew.



Lemma extends_refl {A} (m : M A) : extends m m.
Proof. by intros st _. Qed.

Lemma extends_bind {A B} (m m' : M A) (f f' : A -> M B) :
  extends m m' -> (forall a, extends (f a) (f' a)) ->
  extends (bind m f) (bind m' f').
Proof.
  intros Hm Hf st Hout. unfold bind in *.
  destruct (m st) as [[[a|e|] s1] e1] eqn:Hmst.
  - rewrite (Hm st) by (by rewrite Hmst). rewrite Hmst.
    rewrite (Hf a s1); [done|].
    intros H. apply Hout. unfold outcome in *.
    destruct (f a s1) as [[o s2] e2]. simpl in *. by subst.
  - rewrite (Hm st) by (by rewrite Hmst). by rewrite Hmst.
  - by destruct Hout.
Qed.

Lemma extends_for_range (body body' : nat -> M unit) k : forall i,
  (forall j, extends (body j) (body' j)) ->
  extends (for_range i k body) (for_range i k body').
Proof.
  induction k as [|k IH]; intros i Hb; simpl; [apply extends_refl|].
  apply extends_bind; [apply Hb|]. intros _. by apply IH.
Qed.

Lemma extends_for_each {A} (body body' : A -> M unit) (l : list A) :
  (forall a, extends (body a) (body' a)) ->
  extends (for_each l body) (for_each l body').
Proof.
  intros Hb. induction l as [|a l IH]; simpl; [apply extends_refl|].
  apply extends_bind; [apply Hb|]. by intros _.
Qed.

Ltac xstep :=
  lazymatch goal with
  | |- extends (bind _ _) (bind _ _) => apply extends_bind; [|intros ?]
  | |- extends (for_range _ _ _) (for_range _ _ _) =>
      apply extends_for_range; intros ?
  | |- extends (for_each _ _) (for_each _ _) =>
      apply extends_for_each; intros ?
  | |- extends (if ?b then _ else _) (if ?b then _ else _) => destruct b
  | |- extends (match ?x with _ => _ end) (match ?x with _ => _ end) =>
      destruct x
  | |- extends ?m ?m => apply extends_refl
  end.

Section FuelIndependence.

Context (E : Env) (X : Ext).

Lemma extends_observe_body obs obs' v a :
  (forall v, extends (obs v) (obs' v)) ->
  extends (observe_body E X obs v a) (observe_body E X obs' v a).
Proof.
  intros Hobs. unfold observe_body, newObserver_with, walk_with,
    observeArray_with, defineReactive_with.
  repeat first [apply Hobs | xstep].
Qed.

Lemma extends_observe_fuel n : forall v a,
  extends (observe_fuel E X n v a) (observe_fuel E X (S n) v a).
Proof.
  induction n as [|n IH]; intros v a.
  - intros st H. by destruct H.
  - change (extends (observe_body E X (fun v => observe_fuel E X n v false) v a)
              (observe_body E X (fun v => observe_fuel E X (S n) v false) v a)).
    apply extends_observe_body. intros v'. apply IH.
Qed.

Lemma observe_fuel_more n k v a st :
  outcome (observe_fuel E X n v a st) <> OutOfFuel ->
  observe_fuel E X (n + k) v a st = observe_fuel E X n v a st.
Proof.
  intros H. induction k as [|k IH]; [by rewrite Nat.add_0_r|].
  rewrite Nat.add_succ_r. rewrite (extends_observe_fuel (n + k) v a st).
  - done.
  - by rewrite IH.
Qed.

End FuelIndependence.

(** X4. [observe] terminates on every store, cyclic data included: its
    nesting is bounded by the number of objects that carry no Observer,
    because each level marks its object before it descends; a bound on the
    nesting beyond that number changes nothing. *)
Theorem observe_terminates (E : Env) (X : Ext) (v : Value) (a : bool)
    (st : State) :
  outcome (observe E X v a st) <> OutOfFuel /\
  forall n, length (unobserved st) < n ->
    observe_fuel E X n v a st = observe E X v a st.
Proof.
  split; [apply observe_total|].
  intros n Hn.
  pose proof (observe_fuel_total E X n v a st Hn) as Hok.
  pose proof (observe_total E X v a st) as Hok'. unfold observe in *.
  set (m := S (length (heap st))) in *.
  destruct (decide (n <= m)) as [Hle|Hgt].
  - replace m with (n + (m - n)) by lia. symmetry.
    by apply observe_fuel_more.
  - replace n with (m + (n - m)) by lia. by apply observe_fuel_more.
Qed.


Section IdleReads.

Context (X : Ext).





End IdleReads.


Lemma alter_slot_lookup s f st sl :
  slots st !! s = Some sl -> slots (alter_slot s f st) !! s = Some (f sl).
Proof.
  intros Hs. unfold alter_slot. rewrite Hs. unfold set_slots. cbn [slots].
  apply list_lookup_insert_eq. by eapply lookup_lt_Some.
Qed.

Lemma notifications_app tr1 tr2 :
  notifications (tr1 ++ tr2) = notifications tr1 ++ notifications tr2.
Proof. unfold notifications. apply omap_app. Qed.

(** X7. A write of a changed value to a reactive property that has no
    accessor of its own stores the value in the closure, observes it (unless
    the property is shallow), records the Observer found, and calls
    [notify()] once, on the Dep of the property; the property then reads
    the new value (where observing the value does not throw and the
    subscribers do not write the property back). *)
Theorem reactiveSetter_stores_observes_notifies (E : Env) (X : Ext)
    (s : SlotId) (sl : Slot) (newVal : Value) (st : State) :
  let child := if s_shallow sl then ret None else observe E X newVal false in
  let st1 := alter_slot s (with_val newVal) st in
  slots st !! s = Some sl ->
  s_getter sl = None -> s_setter sl = None -> s_custom sl = None ->
  unchanged newVal (s_val sl) = false ->
  (forall e, outcome (child st1) <> Throw e) ->
  (forall w st', slots (x_update X w st') !! s = slots st' !! s) ->
  outcome (reactiveSetter E X s newVal st) = Ret tt /\
  notifications (trace (reactiveSetter E X s newVal st)) = [s_dep sl] /\
  (exists c, outcome (child st1) = Ret c /\
     slots (post (reactiveSetter E X s newVal st)) !! s
     = Some (with_childOb c (with_val newVal sl))) /\
  (forall x, outcome (reactiveGetter X s (post (reactiveSetter E X s newVal st)))
             = Ret x -> x = newVal).
Proof.
  intros child st1 Hs Hg Hset Hcus Hun Hthrow Hframe.
  assert (total child) as Htot.
  { unfold child. destruct (s_shallow sl); [apply total_ret|apply observe_total]. }
  assert (preserves (kept (fun _ => True)) child) as Hkept.
  { unfold child. destruct (s_shallow sl); [apply preserves_ret, _|].
    apply tr_keeps, observe_transparent. }
  destruct (outcome_cases _ (Htot st1) Hthrow) as [c Hc].
  destruct (Hkept st1) as [Hk Htr].
  set (st2 := post (child st1)) in *.
  set (st3 := alter_slot s (with_childOb c) st2).
  assert (slots st1 !! s = Some (with_val newVal sl)) as Hs1
    by (by apply alter_slot_lookup).
  assert (slots st2 !! s = Some (with_val newVal sl)) as Hs2
    by (by apply (kept_slots _ _ _ Hk)).
  assert (slots st3 !! s = Some (with_childOb c (with_val newVal sl))) as Hs3
    by (by apply alter_slot_lookup).
  assert (reactiveSetter E X s newVal st
          = (Ret tt, post (notify E X (s_dep sl) st3),
             trace (notify E X (s_dep sl) st3))) as Hrun.
  { rewrite (reactiveSetter_unfold E X s sl newVal st Hs).
    unfold current_value, call_customSetter. rewrite Hg, Hset, Hcus.
    rewrite bind_ret, Hun, bind_ret. cbn [bool_decide andb].
    rewrite bool_decide_eq_false_2 by (by intros [? ?]). cbn [andb].
    rewrite bind_modify. fold st1. fold child.
    rewrite (bind_step child _ st1 c st2).
    - rewrite bind_modify. fold st3.
      destruct (notify_trace E X (s_dep sl) st3) as [Ho _].
      destruct (notify E X (s_dep sl) st3) as [[o p] t]. unfold outcome in Ho.
      simpl in Ho. by subst.
    - unfold st2. destruct (child st1) as [[o p] t].
      unfold outcome, trace, post in *. simpl in *. by subst. }
  assert (post (reactiveSetter E X s newVal st)
          = post (notify E X (s_dep sl) st3)) as -> by (by rewrite Hrun).
  rewrite Hrun. unfold outcome at 1, trace at 1. cbn [fst snd].
  pose proof (notify_frame E X (fun st => slots st !! s) (s_dep sl) st3 Hframe)
    as Hnf. cbv beta in Hnf.
  split; [done|]. split; [apply notify_notifications|]. split.
  - exists c. split; [done|]. by rewrite Hnf.
  - intros x. unfold reactiveGetter. cbn [reactiveGetter_at].
    rewrite bind_gets, Hnf, Hs3. cbn [with_childOb with_val s_getter s_val].
    rewrite Hg. rewrite bind_ret, bind_gets. apply bind_const_outcome.
Qed.

Lemma reactiveSetter_stores_observes_notifies_witness :
  outcome (reactiveSetter env_dev ext_idle 1 (VNum 4) store_slots) = Ret tt /\
  notifications (trace (reactiveSetter env_dev ext_idle 1 (VNum 4) store_slots))
    = [1] /\
  outcome (reactiveGetter ext_idle 1
             (post (reactiveSetter env_dev ext_idle 1 (VNum 4) store_slots)))
    = Ret (VNum 4).
Proof.
  destruct (reactiveSetter_stores_observes_notifies env_dev ext_idle 1
    {| s_obj := 0; s_key := KStr "x"; s_val := VNaN;
       s_childOb := None; s_dep := 1; s_getter := None; s_setter := None;
       s_custom := None; s_shallow := false |}
    (VNum 4) store_slots eq_refl eq_refl eq_refl eq_refl eq_refl)
    as (H1 & H2 & _ & _).
  - intros e. vm_compute. discriminate.
  - done.
  - split; [exact H1|]. split; [exact H2|]. vm_compute. reflexivity.
Defined.

Section Production.

Context (E : Env) (X : Ext) (Hprod : production E = true).

Lemma silent_notify d : emits silent (notify E X d).
Proof. by apply emits_notify. Qed.

Lemma silent_reactiveSetter_at n : forall s v,
  emits silent (reactiveSetter_at E X n s v).
Proof using Hprod.
  induction n as [|n IH]; intros s v; simpl; [estep|].
  estep; [estep|]. destruct a as [sl|]; [|estep].
  estep; [apply emits_current_value|].
  destruct (unchanged v a); [estep|].
  estep.
  - unfold call_customSetter. rewrite Hprod. cbn [negb]. unfold when.
    destruct (s_custom sl); estep.
  - destruct (_ && _); [estep|].
    estep.
    + destruct (s_setter sl) as [[f|s']|]; [estep|apply IH|estep].
    + estep.
      * destruct (s_shallow sl); [estep|].
        eapply emits_preserves, observe_attaches.
      * estep; [estep|]. apply silent_notify.
Qed.

Lemma silent_put_named r key val : emits silent (put_named E X r key val).
Proof using Hprod.
  unfold put_named, write_own, call_setter.
  repeat first [ (intros st; apply silent_reactiveSetter_at) | estep ].
Qed.

Lemma silent_assign target key val : emits silent (assign E X target key val).
Proof using Hprod.
  unfold assign, set_length, toNumber.
  repeat first [ apply silent_put_named | estep ].
Qed.

Lemma silent_native m this args : emits silent (native E X m this args).
Proof using Hprod.
  unfold native, replace_at, put_elems, toInteger, toNumber.
  repeat first [ apply silent_put_named | estep | intros st; constructor ].
Qed.

Lemma silent_mutator m this args : emits silent (mutator E X m this args).
Proof.
  unfold mutator.
  estep; [apply silent_native|]. estep; [estep|].
  estep.
  - destruct (inserted_of m args); [|estep].
    estep; [estep|]. destruct a1; [|estep].
    eapply emits_preserves, attaches_observeArray.
  - estep; [estep|]. estep; [|estep].
    destruct a2 as [[? ?]|]; [apply silent_notify|estep].
Qed.

Lemma silent_call_method target m args :
  emits silent (call_method E X target m args).
Proof.
  unfold call_method. estep; [estep|].
  destruct (p_body <$> a) as [[[| | | | | | | |[m'|m'|?|?]] ?|? ?]|];
    try estep; [apply silent_mutator|apply silent_native].
Qed.

Lemma silent_defineReactive obj key val custom shallow :
  emits silent (defineReactive E X obj key val custom shallow).
Proof.
  unfold defineReactive, defineReactive_with, newDep.
  estep; [intros st; constructor|]. estep; [estep|].
  destruct a0 as [o|]; [|estep].
  destruct (match own_prop o key with
            | Some p => negb (p_conf p) | None => false end); [estep|].
  estep.
  - destruct val; [estep|]. destruct (_ || _); [|estep].
    eapply emits_preserves, reads_get_prop.
  - estep.
    + destruct shallow; [estep|]. eapply emits_preserves, observe_attaches.
    + estep; [estep|]. estep; [|estep].
      unfold define_own. repeat estep.
Qed.

Lemma silent_set target key val : emits silent (set E X target key val).
Proof using Hprod.
  unfold set. rewrite Hprod. cbn [negb andb]. unfold when.
  estep; [estep|]. estep; [estep|].
  destruct (a0 && isValidArrayIndex key).
  - unfold set_length. repeat first [ apply silent_call_method | estep ].
  - estep; [unfold key_in; destruct target; estep|].
    destruct (a1 && negb (in_object_prototype key)).
    + estep; [apply silent_assign|estep].
    + estep; [estep|]. estep; [estep|]. estep; [estep|].
      destruct (a3 || a4); [cbv iota; repeat estep|].
      destruct (negb (truthy a2)); [estep; [apply silent_assign|estep]|].
      estep; [estep|]. destruct a5 as [[obr rec]|]; [|estep].
      estep; [apply silent_defineReactive|].
      repeat estep; apply silent_notify.
Qed.

Lemma silent_del target key : emits silent (del E X target key).
Proof using Hprod.
  unfold del. rewrite Hprod. cbn [negb andb]. unfold when.
  estep; [estep|]. estep; [estep|].
  destruct (a0 && isValidArrayIndex key).
  - repeat estep; apply silent_call_method.
  - destruct (isUndef target); [estep|].
    estep; [estep|]. estep; [estep|]. estep; [estep|].
    destruct (a2 || a3); [cbv iota; repeat estep|].
    estep; [estep|]. destruct (negb a4); [estep|].
    estep; [unfold delete_prop; repeat estep|].
    destruct (negb (truthy a1)); [estep|].
    estep; [estep|]. destruct a6 as [[? ?]|]; [apply silent_notify|estep].
Qed.

End Production.

(** X8. A production build is silent: [set], [del] and a write to a
    reactive property never report a warning and never call a
    [customSetter]; all they emit are notifications and the updates of
    subscribers. *)
Theorem production_build_is_silent (E : Env) (X : Ext) :
  production E = true ->
  forall (target : Value) (key : Key) (val : Value) (s : SlotId) (st : State),
    Forall silent (trace (set E X target key val st)) /\
    Forall silent (trace (del E X target key st)) /\
    Forall silent (trace (reactiveSetter E X s val st)).
Proof.
  intros Hprod target key val s st.
  split; [by apply silent_set|]. split; [by apply silent_del|].
  by apply silent_reactiveSetter_at.
Qed.

Lemma production_build_is_silent_witness :
  Forall silent (trace (set env_prod_sync ext_idle (VNum 3) (KStr "x")
                          (VNum 1) store_slots)) /\
  Forall silent (trace (del env_prod_sync ext_idle (VNum 3) (KStr "x")
                          store_slots)) /\
  Forall silent (trace (reactiveSetter env_prod_sync ext_idle 0 (VNum 1)
                          store_slots)).
Proof.
  exact (production_build_is_silent env_prod_sync ext_idle eq_refl (VNum 3)
           (KStr "x") (VNum 1) 0 store_slots).
Defined.


Lemma marker_ref_push_slot sl st r :
  marker_ref (push_slot sl st) r = marker_ref st r.
Proof. reflexivity. Qed.

Section SetFacts2.

Context (E : Env) (X : Ext).

(** The guards of [set] and [del] on an object that is not treated as an
    array element store. *)
Lemma set_object_unfold r key val st :
  isArray st (VObj r) && isValidArrayIndex key = false ->
  set E X (VObj r) key val st =
  (present <- key_in key (VObj r) ;;
    if present && negb (in_object_prototype key) then
      assign E X (VObj r) key val ;;;
      ret val
    else
      ob <- gets (fun st => marker_of st (VObj r)) ;;
      isvue <- gets (fun st => isVue st (VObj r)) ;;
      root <- gets (fun st => root_count st ob) ;;
      if isvue || root then
        when (negb (production E)) (emit (EWarn WarnAvoidAdding)) ;;;
        ret val
      else if negb (truthy ob) then
        assign E X (VObj r) key val ;;;
        ret val
      else
        o <- gets (fun st => as_observer st ob) ;;
        match o with
        | Some (obr, rec) =>
            defineReactive E X (ob_value rec) key (Some val) None false ;;;
            o' <- gets (fun st => get_observer st obr) ;;
            match o' with
            | Some rec' => notify E X (ob_dep rec')
            | None => throw TypeError
            end ;;;
            ret val
        | None => throw TypeError
        end) st.
Proof.
  intros H. unfold set. cbn [isUndef isPrimitive orb]. rewrite andb_false_r.
  unfold when at 1. rewrite bind_ret, bind_gets, H. reflexivity.
Qed.

Lemma del_object_unfold r key st :
  isArray st (VObj r) && isValidArrayIndex key = false ->
  del E X (VObj r) key st =
  (ob <- gets (fun st => marker_of st (VObj r)) ;;
    isvue <- gets (fun st => isVue st (VObj r)) ;;
    root <- gets (fun st => root_count st ob) ;;
    if isvue || root then
      when (negb (production E)) (emit (EWarn WarnAvoidDeleting))
    else
      own <- gets (fun st => hasOwn st (VObj r) key) ;;
      if negb own then ret tt
      else
        delete_prop (VObj r) key ;;;
        if negb (truthy ob) then ret tt
        else
          o <- gets (fun st => as_observer st ob) ;;
          match o with
          | Some (_, rec) => notify E X (ob_dep rec)
          | None => throw TypeError
          end) st.
Proof.
  intros H. unfold del. cbn [isUndef isPrimitive orb]. rewrite andb_false_r.
  unfold when at 1. rewrite bind_ret, bind_gets, H. reflexivity.
Qed.

End SetFacts2.

(** X9. On a Vue instance, or on an object that is the root data of one
    ([vmCount] above zero), [set] of a key the object does not have and
    [del] of a key refuse, unless the target is an array and the key a
    valid index (that case is decided first and goes through [splice],
    root data or not): they return at once, leave the store as it was and
    notify nobody; only a non-production build reports a warning. *)
Theorem set_del_refuse_on_root_data (E : Env) (X : Ext) (r : Ref) (key : Key)
    (val : Value) (st : State) :
  isArray st (VObj r) && isValidArrayIndex key = false ->
  isVue st (VObj r) || root_count st (marker_of st (VObj r)) = true ->
  (lookup_prop st r key = None \/ in_object_prototype key = true ->
   set E X (VObj r) key val st
   = (Ret val, st, if production E then [] else [EWarn WarnAvoidAdding])) /\
  del E X (VObj r) key st
  = (Ret tt, st, if production E then [] else [EWarn WarnAvoidDeleting]).
Proof.
  intros Harr Hroot. split.
  - intros Habs. rewrite set_object_unfold by done.
    unfold key_in. rewrite bind_gets.
    assert (bool_decide (is_Some (lookup_prop st r key))
            && negb (in_object_prototype key) = false) as ->.
    { destruct Habs as [-> | ->]; [|apply andb_false_r].
      rewrite bool_decide_eq_false_2; [done|]. by intros [? ?]. }
    rewrite !bind_gets, Hroot. by destruct (production E).
  - rewrite del_object_unfold by done.
    rewrite !bind_gets, Hroot. by destruct (production E).
Qed.

Lemma set_del_refuse_on_root_data_witness :
  set env_dev ext_idle (VObj 0) (KStr "fresh") (VNum 7) store_observed
    = (Ret (VNum 7), store_observed, [EWarn WarnAvoidAdding]) /\
  del env_dev ext_idle (VObj 0) (KStr "n") store_observed
    = (Ret tt, store_observed, [EWarn WarnAvoidDeleting]).
Proof.
  assert (isArray store_observed (VObj 0) && isValidArrayIndex (KStr "fresh")
          = false) as H1 by (vm_compute; reflexivity).
  assert (isVue store_observed (VObj 0)
          || root_count store_observed (marker_of store_observed (VObj 0))
          = true) as H2 by (vm_compute; reflexivity).
  assert (lookup_prop store_observed 0 (KStr "fresh") = None) as H3
    by (vm_compute; reflexivity).
  split.
  - exact (proj1 (set_del_refuse_on_root_data env_dev ext_idle 0 (KStr "fresh")
                    (VNum 7) store_observed H1 H2) (or_introl H3)).
  - exact (proj2 (set_del_refuse_on_root_data env_dev ext_idle 0 (KStr "n")
                    (VNum 7) store_observed H1 H2)).
Defined.



Section DelFacts.

Context (E : Env) (X : Ext).


End DelFacts.



Lemma assoc_lookup_remove_eq k ps : assoc_lookup k (assoc_remove k ps) = None.
Proof.
  induction ps as [|[k' p'] ps IH]; simpl; [done|].
  destruct (decide (k = k')) as [->|Hne]; simpl; [done|].
  by rewrite decide_False.
Qed.

Lemma assoc_lookup_remove_ne k k' ps :
  k <> k' -> assoc_lookup k' (assoc_remove k ps) = assoc_lookup k' ps.
Proof.
  intros Hne. induction ps as [|[k1 p1] ps IH]; simpl; [done|].
  destruct (decide (k = k1)) as [->|Hne1]; simpl.
  - by rewrite decide_False by done.
  - destruct (decide (k' = k1)); [done|apply IH].
Qed.

(** X12. [del] on an object that is neither an array, a Vue instance nor
    root data.  A key the object does not own is left alone, inherited or
    not: nothing changes, nobody is notified.  An own key that is not
    configurable makes the (strict-mode) [delete] throw, before any
    notification.  An own configurable key is deleted, the other
    properties staying as they were; [notify()] is then called once, on the
    Dep of the object's Observer, and not at all when the object has no
    [__ob__]. *)
Theorem del_deletes_own_property (E : Env) (X : Ext) (r : Ref) (key : Key)
    (st : State) (o : Obj) :
  let o' := with_props (assoc_remove key (o_props o)) o in
  get_obj st r = Some o -> o_class o <> CArray ->
  isVue st (VObj r) || root_count st (marker_of st (VObj r)) = false ->
  (forall w s, get_obj (x_update X w s) r = get_obj s r) ->
  (own_prop o key = None -> del E X (VObj r) key st = (Ret tt, st, [])) /\
  (forall p, own_prop o key = Some p -> p_conf p = false ->
     del E X (VObj r) key st = (Throw TypeError, st, [])) /\
  (forall p, own_prop o key = Some p -> p_conf p = true ->
     own_prop o' key = None /\
     (forall k, k <> key -> own_prop o' k = own_prop o k) /\
     (truthy (marker_of st (VObj r)) = false ->
        del E X (VObj r) key st = (Ret tt, put_obj r o' st, [])) /\
     (forall obr rec, marker_ref st r = Some obr ->
        get_observer st obr = Some rec ->
        outcome (del E X (VObj r) key st) = Ret tt /\
        get_obj (post (del E X (VObj r) key st)) r = Some o' /\
        notifications (trace (del E X (VObj r) key st)) = [ob_dep rec])).
Proof.
  intros o' Ho Hc Hroot Hframe.
  assert (isArray st (VObj r) && isValidArrayIndex key = false) as Harr.
  { unfold isArray, class_of. rewrite Ho. simpl.
    rewrite bool_decide_eq_false_2; [done|]. by intros [= ?]. }
  pose proof (del_object_unfold E X r key st Harr) as Hdel.
  rewrite !bind_gets, Hroot in Hdel. cbv iota in Hdel.
  rewrite bind_gets in Hdel. unfold hasOwn in Hdel. rewrite Ho in Hdel.
  split; [|split].
  - intros Hown. rewrite Hdel, Hown.
    rewrite bool_decide_eq_false_2 by (by intros [? ?]). done.
  - intros p Hown Hconf. rewrite Hdel, Hown.
    rewrite bool_decide_eq_true_2 by (by eexists). cbn [negb].
    unfold delete_prop. rewrite bind_assoc, bind_gets, Ho, Hown, Hconf.
    by rewrite bind_throw.
  - intros p Hown Hconf.
    set (st1 := put_obj r o' st).
    assert (delete_prop (VObj r) key st = (Ret tt, st1, [])) as Hdelete.
    { unfold delete_prop. rewrite bind_gets, Ho, Hown, Hconf.
      destruct key as [s|i]; [done|].
      by rewrite bool_decide_eq_false_2. }
    rewrite Hown in Hdel.
    rewrite bool_decide_eq_true_2 in Hdel by (by eexists). cbn [negb] in Hdel.
    rewrite (bind_step _ _ st tt st1 Hdelete) in Hdel.
    assert (get_obj st1 r = Some o') as Ho1.
    { unfold st1. rewrite get_obj_put_obj by eauto. by rewrite decide_True. }
    assert (o_class o' <> CArray) as Hc' by done.
    split; [rewrite own_prop_named by done; apply assoc_lookup_remove_eq|].
    split.
    { intros k Hk. rewrite !own_prop_named by done.
      apply assoc_lookup_remove_ne. by apply not_eq_sym. }
    split.
    + intros Hfalsy. rewrite Hdel, Hfalsy. done.
    + intros obr rec Hm Hrec.
      destruct (marker_ref_marker_of st r obr Hm) as [Hmo _].
      rewrite Hmo in Hdel. cbn [truthy negb] in Hdel.
      rewrite bind_gets in Hdel. unfold as_observer, st1 in Hdel.
      rewrite get_observer_put_obj, Hrec in Hdel by eauto. fold st1 in Hdel.
      destruct (notify_trace E X (ob_dep rec) st1) as [Hno Htr].
      rewrite Hdel. split; [done|]. split; [|apply notify_notifications].
      by rewrite (notify_frame E X (fun s => get_obj s r) (ob_dep rec) st1
                    Hframe).
Qed.

Lemma del_deletes_own_property_witness :
  outcome (del env_dev ext_idle (VObj 1) (KStr "back") store_observed)
    = Ret tt /\
  notifications (trace (del env_dev ext_idle (VObj 1) (KStr "back")
                          store_observed)) = [3] /\
  del env_dev ext_idle (VObj 1) (KStr "zz") store_observed
    = (Ret tt, store_observed, []).
Proof.
  set (o := {| o_class := CPlain; o_vnode := false; o_isVue := false;
               o_ext := true; o_proto := ProtoObject;
               o_props := [(KStr "back", reactive_prop 1);
                           (ob_key, data_prop (VObj 4) true false true)];
               o_elems := [] |}).
  assert (get_obj store_observed 1 = Some o) as H1
    by (vm_compute; reflexivity).
  assert (isVue store_observed (VObj 1)
          || root_count store_observed (marker_of store_observed (VObj 1))
          = false) as H2 by (vm_compute; reflexivity).
  assert (marker_ref store_observed 1 = Some 4) as H3
    by (vm_compute; reflexivity).
  assert (get_observer store_observed 4
          = Some {| ob_value := 1; ob_dep := 3; ob_vmCount := 0 |}) as H4
    by (vm_compute; reflexivity).
  destruct (del_deletes_own_property env_dev ext_idle 1 (KStr "back")
              store_observed o H1 ltac:(done) H2 (fun _ _ => eq_refl))
    as (_ & _ & Hb).
  destruct (Hb (reactive_prop 1) eq_refl eq_refl) as (_ & _ & _ & Hb').
  destruct (Hb' 4 _ H3 H4) as (Ho & _ & Hn).
  destruct (del_deletes_own_property env_dev ext_idle 1 (KStr "zz")
              store_observed o H1 ltac:(done) H2 (fun _ _ => eq_refl))
    as (Hz & _).
  split; [exact Ho|]. split; [exact Hn|]. exact (Hz eq_refl).
Defined.

Lemma run_targets_stack ops : forall d st,
  closes d ops = true -> d <= length (targetStack st) ->
  targetStack (run_targets ops st)
    = take (length (targetStack st) - d) (targetStack st) /\
  heap (run_targets ops st) = heap st /\
  slots (run_targets ops st) = slots st /\
  deps (run_targets ops st) = deps st /\
  shouldObserve (run_targets ops st) = shouldObserve st /\
  (ops <> [] -> target_synced (run_targets ops st)).
Proof.
  induction ops as [|[t|] ops IH]; intros d st Hc Hd; simpl in *.
  - apply Nat.eqb_eq in Hc as ->. rewrite Nat.sub_0_r, take_ge by lia. done.
  - destruct (IH (S d) (pushTarget t st) Hc) as (H1 & H2 & H3 & H4 & H5 & H6).
    { simpl. rewrite length_app. simpl. lia. }
    rewrite H1, H2, H3, H4, H5. simpl. rewrite length_app. simpl.
    split; [|split; [done|split; [done|split; [done|split; [done|]]]]].
    + replace (length (targetStack st) + 1 - S d)
        with (length (targetStack st) - d) by lia.
      apply take_app_le. lia.
    + intros _. destruct ops as [|op ops']; [apply pushTarget_synced|].
      by apply H6.
  - destruct d as [|d]; [done|].
    assert (removelast (targetStack st)
            = take (length (targetStack st) - 1) (targetStack st)) as Hrl.
    { destruct (targetStack st) as [|x l] using rev_ind; [done|].
      rewrite removelast_last, length_app. simpl.
      replace (length l + 1 - 1) with (length l) by lia.
      by rewrite take_app_length. }
    destruct (IH d (popTarget st) Hc) as (H1 & H2 & H3 & H4 & H5 & H6).
    { simpl. rewrite Hrl, length_take. lia. }
    rewrite H1, H2, H3, H4, H5. simpl. rewrite Hrl, length_take.
    split; [|split; [done|split; [done|split; [done|split; [done|]]]]].
    + rewrite take_take. f_equal. lia.
    + intros _. destruct ops as [|op ops']; [apply popTarget_synced|].
      by apply H6.
Qed.

(** X13. Calls of [pushTarget] and [popTarget] that pair up leave the
    reader context as it was: after a run in which every pop answers a
    push of the run and every push is popped, the stack is the one before
    and [Dep.target] is the watcher that was active, given it was the top
    of the stack (or [undefined] with an empty stack) at the start. *)
Theorem paired_targets_restore (ops : list TargetOp) (st : State) :
  target_synced st -> closes 0 ops = true -> run_targets ops st = st.
Proof.
  intros Hs Hc.
  destruct (run_targets_stack ops 0 st Hc ltac:(lia))
    as (H1 & H2 & H3 & H4 & H5 & H6).
  rewrite Nat.sub_0_r, take_ge in H1 by lia.
  assert (target (run_targets ops st) = target st) as H7.
  { destruct ops as [|op ops']; [done|].
    rewrite H6 by done. by rewrite H1. }
  destruct st, (run_targets ops _). simpl in *. by subst.
Qed.

Lemma paired_targets_restore_witness :
  run_targets [OpPush (TWatcher watcher2); OpPush TNull; OpPop;
               OpPush (TWatcher watcher3); OpPop; OpPop]
    (pushTarget (TWatcher watcher1) initial)
  = pushTarget (TWatcher watcher1) initial.
Proof.
  apply paired_targets_restore; [apply pushTarget_synced|reflexivity].
Defined.

Lemma put_obj_last st c o :
  put_obj (length (heap st)) o (set_heap (heap st ++ [c]) st) =
  set_heap (heap st ++ [CObj o]) st.
Proof.
  unfold put_obj, set_heap. cbn [heap slots deps shouldObserve target
    targetStack]. f_equal.
  rewrite insert_app_r_alt by lia. by rewrite Nat.sub_diag.
Qed.

Lemma get_obj_last st o :
  get_obj (set_heap (heap st ++ [CObj o]) st) (length (heap st)) = Some o.
Proof.
  unfold get_obj, set_heap. cbn [heap].
  rewrite lookup_app_r by lia. by rewrite Nat.sub_diag.
Qed.

Lemma set_heap_twice h1 h2 st : set_heap h2 (set_heap h1 st) = set_heap h2 st.
Proof. reflexivity. Qed.

Lemma vnode_at_frame st st' r o :
  vnode_at st r o -> get_obj st' r = Some o -> vnode_at st' r o.
Proof. intros (_ & H) Ho. by split. Qed.

Lemma vnode_at_old st c r o :
  vnode_at st r o -> vnode_at (set_heap (heap st ++ [c]) st) r o.
Proof.
  intros Hv. apply (vnode_at_frame st); [done|].
  rewrite get_obj_alloc_old; [apply Hv|].
  apply get_obj_lt. exists o. apply Hv.
Qed.

Lemma write_field_lookup k v ps k' p :
  (forall k p, assoc_lookup k ps = Some p -> exists v, p_body p = PData v true) ->
  assoc_lookup k' (write_field k v ps) = Some p ->
  exists v, p_body p = PData v true.
Proof.
  intros Hall. unfold write_field.
  destruct (decide (k = k')) as [<-|Hne].
  - destruct (assoc_lookup k ps); rewrite assoc_lookup_set_eq;
      intros [= <-]; by eexists.
  - destruct (assoc_lookup k ps); rewrite assoc_lookup_set_ne by done;
      apply Hall.
Qed.

Lemma write_fields_lookup l ps k' p :
  (forall k p, assoc_lookup k ps = Some p -> exists v, p_body p = PData v true) ->
  assoc_lookup k' (write_fields l ps) = Some p ->
  exists v, p_body p = PData v true.
Proof.
  revert ps k' p. induction l as [|[k v] l IH]; intros ps k' p Hall; simpl.
  - apply Hall.
  - apply IH. intros k0 p0. by apply write_field_lookup.
Qed.

Lemma vnode_at_last st o :
  o_class o = CPlain -> o_vnode o = true -> o_ext o = true ->
  o_proto o = ProtoVNode ->
  (forall k p, assoc_lookup k (o_props o) = Some p ->
     exists v, p_body p = PData v true) ->
  vnode_at (set_heap (heap st ++ [CObj o]) st) (length (heap st)) o.
Proof. intros. split; [apply get_obj_last|done]. Qed.

Lemma field_props_writable l k p :
  assoc_lookup k (map field_prop l) = Some p ->
  exists v, p_body p = PData v true.
Proof.
  induction l as [|[k0 v0] l IH]; simpl; [done|].
  destruct (decide (k = KStr k0)); [|done]. intros [= <-]. by eexists.
Qed.

Lemma fields_agree (x : string) (l1 l2 : list (string * Value)) k :
  Forall2 (fun a b => a.1 = b.1 /\ (a.1 <> x -> a.2 = b.2)) l1 l2 ->
  k <> x ->
  assoc_lookup (KStr k) (map field_prop l1) =
  assoc_lookup (KStr k) (map field_prop l2).
Proof.
  intros Hl Hk. induction Hl as [|[k1 v1] [k2 v2] l1 l2 [Hk12 Hv] Hl IH];
    [done|].
  simpl in *. subst k2.
  destruct (decide (KStr k = KStr k1)) as [[= ->]|_]; [|done].
  by rewrite Hv.
Qed.

Lemma vnode_at_fresh st l :
  vnode_at (set_heap (heap st ++ [CObj (vnode_object (map field_prop l))]) st)
    (length (heap st)) (vnode_object (map field_prop l)).
Proof. apply vnode_at_last; try done. apply field_props_writable. Qed.

Section VNodeFacts.

Context (E : Env) (X : Ext) (H : Host).

(** Reading a field of a VNode runs no code: it is the own data property,
    [undefined] without one. *)
Lemma member_field r o k st :
  vnode_at st r o -> vnode_proto_prop (KStr k) = None ->
  member X H (VObj r) k st = (Ret (field o k), st, []).
Proof.
  intros (Ho & Hc & _ & _ & Hp & Hall) Hk. unfold member, get_prop.
  rewrite bind_gets. unfold field.
  assert (Hown : own_prop o (KStr k) = assoc_lookup (KStr k) (o_props o)).
  { apply own_prop_named. by rewrite Hc. }
  destruct (assoc_lookup (KStr k) (o_props o)) as [p|] eqn:Hl.
  - rewrite (lookup_prop_own st r o _ p Ho) by (by rewrite Hown).
    destruct (Hall _ _ Hl) as (v & Hv). simpl. by rewrite Hv.
  - assert (lookup_prop st r (KStr k) = None) as ->; [|done].
    unfold lookup_prop.
    destruct (length (heap st)); simpl; by rewrite Ho, Hown, Hp.
Qed.

(** [vnode.child] is read through the accessor of [VNode.prototype] and
    gives [vnode.componentInstance]. *)
Lemma vnode_child_read r o st :
  vnode_at st r o -> assoc_lookup (KStr "child") (o_props o) = None ->
  get_prop X r (KStr "child") st
  = (Ret (field o "componentInstance"), st, []).
Proof.
  intros Hv Hno.
  pose proof (member_field r o "componentInstance" st Hv eq_refl) as Hm.
  destruct Hv as (Ho & Hc & _ & _ & Hp & Hall).
  assert (Hown : forall k, own_prop o k = assoc_lookup k (o_props o)).
  { intros k. apply own_prop_named. by rewrite Hc. }
  unfold get_prop. rewrite bind_gets.
  assert (lookup_prop st r (KStr "child")
          = Some {| p_body := PAccessor (Some GChild) None;
                    p_enum := false; p_conf := true |}) as ->.
  { unfold lookup_prop.
    destruct (length (heap st)); simpl; by rewrite Ho, Hown, Hno, Hp. }
  cbn [fmap option_fmap option_map p_body call_getter]. unfold child, child_with.
  unfold member, get_prop in Hm. rewrite bind_gets in Hm |- *.
  destruct (p_body <$> lookup_prop st r (KStr "componentInstance"))
    as [[v w|[[f|s|]|] s']|] eqn:Hl; try done.
  all: exfalso.
  all: destruct (lookup_prop st r (KStr "componentInstance")) as [p|] eqn:Hlp;
    [|done].
  all: assert (exists v, p_body p = PData v true) as [v Hv];
    [|simpl in Hl; rewrite Hv in Hl; done].
  all: unfold lookup_prop in Hlp.
  all: destruct (assoc_lookup (KStr "componentInstance") (o_props o))
         as [q|] eqn:Hq;
    [rewrite (find_prop_own _ st r o _ q Ho) in Hlp by (by rewrite Hown);
     injection Hlp as <-; by apply (Hall _ _ Hq)
    |destruct (length (heap st)); simpl in Hlp;
     rewrite Ho, Hown, Hq, Hp in Hlp; done].
Qed.

(** Writing a field of a VNode replaces the value of the property, or adds
    the property after the others when it is new. *)
Lemma assign_field r o k v st :
  vnode_at st r o -> vnode_proto_prop (KStr k) = None ->
  assign E X (VObj r) (KStr k) v st =
  (Ret tt, put_obj r (with_props (write_field (KStr k) v (o_props o)) o) st,
   []).
Proof.
  intros (Ho & Hc & _ & He & Hp & Hall) Hk. unfold assign.
  rewrite bind_gets, Ho. cbv iota beta.
  rewrite !(bool_decide_eq_false_2 (o_class o = CArray)) by (by rewrite Hc).
  cbn [andb]. unfold put_named. rewrite bind_gets, Ho. cbv iota beta.
  rewrite bind_gets.
  assert (Hown : own_prop o (KStr k) = assoc_lookup (KStr k) (o_props o)).
  { apply own_prop_named. by rewrite Hc. }
  unfold write_own, write_field.
  destruct (assoc_lookup (KStr k) (o_props o)) as [p|] eqn:Hl.
  - rewrite (lookup_prop_own st r o _ p Ho) by (by rewrite Hown).
    destruct (Hall _ _ Hl) as (v0 & Hv). simpl. by rewrite Hv.
  - assert (lookup_prop st r (KStr k) = None) as ->.
    { unfold lookup_prop.
      destruct (length (heap st)); simpl; by rewrite Ho, Hown, Hp. }
    simpl. by rewrite He.
Qed.

Lemma assign_field_last o k v st :
  vnode_at (set_heap (heap st ++ [CObj o]) st) (length (heap st)) o ->
  vnode_proto_prop (KStr k) = None ->
  assign E X (VObj (length (heap st))) (KStr k) v
    (set_heap (heap st ++ [CObj o]) st) =
  (Ret tt,
   set_heap (heap st ++
     [CObj (with_props (write_field (KStr k) v (o_props o)) o)]) st, []).
Proof.
  intros Hv Hk. rewrite (assign_field _ o) by done. by rewrite put_obj_last.
Qed.

Lemma vnode_at_written st o k v :
  vnode_at (set_heap (heap st ++ [CObj o]) st) (length (heap st)) o ->
  vnode_at
    (set_heap (heap st ++
       [CObj (with_props (write_field (KStr k) v (o_props o)) o)]) st)
    (length (heap st)) (with_props (write_field (KStr k) v (o_props o)) o).
Proof.
  intros (_ & Hc & Hvn & He & Hp & Hall).
  apply vnode_at_last; try done.
  intros k' p. simpl. by apply write_field_lookup.
Qed.

(** A run of field assignments on the newest object. *)
Lemma assign_all_last l o st :
  vnode_at (set_heap (heap st ++ [CObj o]) st) (length (heap st)) o ->
  Forall (fun kv => vnode_proto_prop (KStr kv.1) = None) l ->
  assign_all E X (length (heap st)) l (set_heap (heap st ++ [CObj o]) st) =
  (Ret tt,
   set_heap (heap st ++ [CObj (with_props (write_fields l (o_props o)) o)]) st,
   []).
Proof.
  revert o. induction l as [|[k v] l IH]; intros o Hv Hl.
  - unfold assign_all. simpl. unfold ret. do 3 f_equal.
    by destruct o.
  - inversion Hl as [|? ? Hk Hl']; subst. unfold assign_all.
    cbn [for_each]. change (KStr (k, v).1) with (KStr k).
    change ((k, v).2) with v.
    rewrite (bind_step _ _ _ _ _ (assign_field_last o k v st Hv Hk)).
    pose proof (IH _ (vnode_at_written st o k v Hv) Hl') as IH'.
    unfold assign_all in IH'. rewrite IH'. done.
Qed.

(** [data.key] is read without running code when [data] is as
    [plain_key] asks. *)
Lemma member_key data st :
  truthy data = true -> plain_key st data ->
  member X H data "key" st = (Ret (data_key H st data), st, []).
Proof.
  intros Ht Hp. unfold data_key. rewrite Ht.
  destruct data; try done.
  destruct Hp as (o & Ho & Hp). unfold member, get_prop. rewrite bind_gets.
  destruct (own_prop o (KStr "key")) as [p|] eqn:Hown.
  - rewrite (lookup_prop_own st _ o _ p Ho Hown).
    destruct Hp as (v & w & Hv). simpl. by rewrite Hv.
  - assert (lookup_prop st r (KStr "key") = None) as ->; [|done].
    unfold lookup_prop.
    destruct (length (heap st)); simpl; rewrite Ho, Hown;
      by destruct Hp as [-> | ->].
Qed.

Lemma plain_key_frame data st st' :
  (forall r o, get_obj st r = Some o -> get_obj st' r = Some o) ->
  plain_key st data ->
  plain_key st' data /\ data_key H st' data = data_key H st data.
Proof.
  intros Hf Hp. destruct data; try done.
  destruct Hp as (o & Ho & Hp). split.
  - exists o. split; [by apply Hf|done].
  - unfold data_key. simpl.
    destruct (own_prop o (KStr "key")) as [p|] eqn:Hown.
    + by rewrite (lookup_prop_own st _ o _ p Ho Hown),
        (lookup_prop_own st' _ o _ p (Hf _ _ Ho) Hown).
    + assert (forall s, get_obj s r = Some o ->
                lookup_prop s r (KStr "key") = None) as Hnone.
      { intros s Hs. unfold lookup_prop.
        destruct (length (heap s)); simpl; rewrite Hs, Hown;
          by destruct Hp as [-> | ->]. }
      by rewrite (Hnone st Ho), (Hnone st' (Hf _ _ Ho)).
Qed.

Lemma get_obj_alloc_some st c r o :
  get_obj st r = Some o -> get_obj (set_heap (heap st ++ [c]) st) r = Some o.
Proof.
  intros Ho. rewrite get_obj_alloc_old; [done|].
  apply get_obj_lt. by exists o.
Qed.

(** The constructor: one new object, with the fields in the order of the
    assignments; nothing else is written and no code of the program runs. *)
Lemma newVNode_run tag data children text elm context componentOptions
    asyncFactory st :
  (truthy data = true -> plain_key st data) ->
  newVNode E X H tag data children text elm context componentOptions
    asyncFactory st =
  (Ret (length (heap st)),
   set_heap (heap st ++
     [CObj (vnode_with tag data children text elm VUndef context VUndef
              VUndef VUndef (data_key H st data) componentOptions VUndef
              VUndef (VBool false) (VBool false) (VBool true) (VBool false)
              (VBool false) (VBool false) asyncFactory VUndef
              (VBool false))]) st, []).
Proof.
  intros Hdata. unfold newVNode.
  rewrite (bind_step (alloc _) _ st (length (heap st))
             (set_heap (heap st ++ [CObj (vnode_object [])]) st))
    by reflexivity.
  cbv beta.

  match goal with
  | |- context [assign_all E X _ ?l] =>
      assert (Hl : Forall (fun kv => vnode_proto_prop (KStr kv.1) = None) l)
        by (repeat constructor);
      rewrite (bind_step _ _ _ _ _
        (assign_all_last l (vnode_object []) st (vnode_at_fresh st []) Hl));
      clear Hl
  end.
  match goal with
  | |- context [with_props ?ps (vnode_object [])] =>
      change (with_props ps (vnode_object [])) with (vnode_object ps);
      let ps' := eval vm_compute in ps in
      change ps with ps'
  end.
  set (st1 := set_heap _ st).
  assert (Hkey : (if truthy data then member X H data "key" else ret data) st1
                 = (Ret (data_key H st data), st1, [])).
  { destruct (truthy data) eqn:Ht.
    - destruct (plain_key_frame data st st1) as (Hp1 & Hk1).
      + intros r o. apply get_obj_alloc_some.
      + by apply Hdata.
      + rewrite (member_key data st1 Ht Hp1). by rewrite Hk1.
    - unfold data_key. by rewrite Ht. }
  rewrite (bind_step _ _ _ _ _ Hkey). subst st1.
  match goal with
  | |- context [bind (assign_all E X _ ?l) _ (set_heap (_ ++ [CObj ?o]) _)] =>
      assert (Hl : Forall (fun kv => vnode_proto_prop (KStr kv.1) = None) l)
        by (repeat constructor);
      rewrite (bind_step _ _ _ _ _
        (assign_all_last l o st
           (vnode_at_fresh st
              [("tag", tag); ("data", data); ("children", children);
               ("text", text); ("elm", elm); ("ns", VUndef);
               ("context", context); ("fnContext", VUndef);
               ("fnOptions", VUndef); ("fnScopeId", VUndef)]) Hl));
      clear Hl
  end.
  reflexivity.
Qed.


Lemma createTextVNode_run text st :
  newVNode E X H VUndef VUndef VUndef (VStr text) VUndef VUndef VUndef VUndef
    st =
  (Ret (length (heap st)),
   set_heap (heap st ++
     [CObj (vnode_with VUndef VUndef VUndef (VStr text) VUndef
              VUndef VUndef VUndef VUndef VUndef VUndef VUndef VUndef VUndef
              (VBool false) (VBool false) (VBool true) (VBool false)
              (VBool false) (VBool false) VUndef VUndef (VBool false))]) st,
   []).
Proof. by rewrite newVNode_run. Qed.

Lemma createEmptyVNode_run text st :
  createEmptyVNode E X H text st =
  (Ret (length (heap st)),
   set_heap (heap st ++
     [CObj (vnode_with VUndef VUndef VUndef
              (match text with VUndef => VStr "" | _ => text end) VUndef
              VUndef VUndef VUndef VUndef VUndef VUndef VUndef VUndef VUndef
              (VBool false) (VBool false) (VBool true) (VBool true)
              (VBool false) (VBool false) VUndef VUndef (VBool false))]) st,
   []).
Proof.
  unfold createEmptyVNode.
  rewrite (bind_step _ _ _ _ _
    (newVNode_run VUndef VUndef VUndef VUndef VUndef VUndef VUndef VUndef st
       ltac:(done))).
  unfold vnode_with.
  rewrite (bind_step _ _ _ _ _
    (assign_field_last _ "text" _ st (vnode_at_fresh st _) eq_refl)).
  rewrite (bind_step _ _ _ _ _
    (assign_field_last _ "isComment" _ st (vnode_at_written st _ _ _
       (vnode_at_fresh st _)) eq_refl)).
  reflexivity.
Qed.

Lemma copy_field_last r o k oc st :
  vnode_at st r o ->
  vnode_at (set_heap (heap st ++ [CObj oc]) st) (length (heap st)) oc ->
  vnode_proto_prop (KStr k) = None ->
  copy_field E X H (VObj r) (length (heap st)) k
    (set_heap (heap st ++ [CObj oc]) st) =
  (Ret tt,
   set_heap (heap st ++
     [CObj (with_props (write_field (KStr k) (field o k) (o_props oc)) oc)])
     st, []).
Proof.
  intros Hv Hc Hk. unfold copy_field.
  rewrite (bind_step _ _ _ _ _
    (member_field r o k _ (vnode_at_old st _ r o Hv) Hk)).
  by apply assign_field_last.
Qed.

Lemma copy_fields_last r o l oc st :
  vnode_at st r o ->
  vnode_at (set_heap (heap st ++ [CObj oc]) st) (length (heap st)) oc ->
  Forall (fun k => vnode_proto_prop (KStr k) = None) l ->
  for_each l (copy_field E X H (VObj r) (length (heap st)))
    (set_heap (heap st ++ [CObj oc]) st) =
  (Ret tt,
   set_heap (heap st ++
     [CObj (with_props
              (write_fields (map (fun k => (k, field o k)) l) (o_props oc))
              oc)]) st, []).
Proof.
  intros Hv. revert oc. induction l as [|k l IH]; intros oc Hc Hl.
  - simpl. unfold ret. do 3 f_equal. by destruct oc.
  - inversion Hl as [|? ? Hk Hl']; subst. cbn [for_each].
    rewrite (bind_step _ _ _ _ _ (copy_field_last r o k oc st Hv Hc Hk)).
    rewrite (IH _ (vnode_at_written st oc k _ Hc) Hl'). done.
Qed.

(** [cloneVNode]: the children array is copied into a new array when there
    is one, and one new VNode is made; nothing that existed is written. *)
Lemma cloneVNode_run r o st :
  vnode_at st r o ->
  (truthy (field o "data") = true -> plain_key st (field o "data")) ->
  native_children st (field o "children") ->
  let c := field o "children" in
  let copy := if truthy c then children_copy st c else [] in
  cloneVNode E X H (VObj r) st =
  (Ret (length (heap st) + length copy),
   set_heap (heap st ++ copy ++ [CObj (clone_of o (cloned_children st c))])
     st, []).
Proof.
  intros Hv Hdata Hkids c copy. unfold cloneVNode.
  rewrite (bind_step _ _ _ _ _ (member_field r o "tag" st Hv eq_refl)).
  rewrite (bind_step _ _ _ _ _ (member_field r o "data" st Hv eq_refl)).
  rewrite (bind_step _ _ _ _ _ (member_field r o "children" st Hv eq_refl)).
  match goal with
  | |- bind _ ?K st = _ =>
      assert (Htail : forall st1 kids, vnode_at st1 r o ->
        (truthy (field o "data") = true -> plain_key st1 (field o "data")) ->
        K kids st1 =
        (Ret (length (heap st1)),
         set_heap (heap st1 ++ [CObj (clone_of o kids)]) st1, []))
  end.
  { intros st1 kids Hv1 Hd1.
    rewrite (bind_step _ _ _ _ _ (member_field r o "text" st1 Hv1 eq_refl)).
    rewrite (bind_step _ _ _ _ _ (member_field r o "elm" st1 Hv1 eq_refl)).
    rewrite (bind_step _ _ _ _ _
      (member_field r o "context" st1 Hv1 eq_refl)).
    rewrite (bind_step _ _ _ _ _
      (member_field r o "componentOptions" st1 Hv1 eq_refl)).
    rewrite (bind_step _ _ _ _ _
      (member_field r o "asyncFactory" st1 Hv1 eq_refl)).
    rewrite (bind_step _ _ _ _ _ (newVNode_run _ _ _ _ _ _ _ _ st1 Hd1)).
    unfold vnode_with.
    match goal with
    | |- context [for_each ?l] =>
        assert (Hl : Forall (fun k => vnode_proto_prop (KStr k) = None) l)
          by (repeat constructor);
        rewrite (bind_step _ _ _ _ _
          (copy_fields_last r o l _ st1 Hv1 (vnode_at_fresh st1 _) Hl));
        clear Hl
    end.
    match goal with
    | |- context [CObj (with_props ?ps ?oc)] =>
        assert (Hc : vnode_at (set_heap (heap st1 ++
                       [CObj (with_props ps oc)]) st1) (length (heap st1))
                       (with_props ps oc))
    end.
    { apply vnode_at_last; [reflexivity|reflexivity|reflexivity|reflexivity|].
      intros k p.
      cbn [o_props with_props]. apply write_fields_lookup.
      intros k' p'. apply field_props_writable. }
    rewrite (bind_step _ _ _ _ _
      (assign_field_last _ "isCloned" (VBool true) st1 Hc eq_refl)).
    reflexivity. }
  subst copy c. unfold cloned_children.
  destruct Hkids as [Hf|(a & Ha & Harr & Hslice)].
  - rewrite Hf. cbv iota. rewrite bind_ret. rewrite (Htail st _ Hv Hdata).
    simpl. by rewrite Nat.add_0_r.
  - rewrite Ha in *. cbn [truthy children_copy]. cbv iota.
    rewrite (bind_assoc (member X H (VObj r) "children")).
    rewrite (bind_step _ _ _ _ _ (member_field r o "children" st Hv eq_refl)).
    rewrite Ha. unfold call_slice.
    rewrite bind_assoc, bind_gets, Harr, Hslice.
    cbn [andb]. cbv iota. rewrite !bind_assoc, bind_gets, !bind_assoc.
    rewrite (bind_step (alloc _) _ st (length (heap st))
               (set_heap (heap st ++ [new_array (elems_of st a)]) st))
      by reflexivity.
    rewrite bind_ret.
    rewrite (Htail (set_heap (heap st ++ [new_array (elems_of st a)]) st)).
    + cbn [heap set_heap length]. rewrite length_app. cbn [length].
      rewrite set_heap_twice. by rewrite <- app_assoc.
    + by apply vnode_at_old.
    + intros Ht.
      apply (plain_key_frame (field o "data") st); [|by apply Hdata].
      intros r' o'. apply get_obj_alloc_some.
Qed.

End VNodeFacts.

Lemma lookup_slice_fresh st es :
  is_array_slice
    (lookup_prop (set_heap (heap st ++ [new_array es]) st)
       (length (heap st)) (KStr "slice")) = true.
Proof.
  unfold lookup_prop.
  assert (get_obj (set_heap (heap st ++ [new_array es]) st) (length (heap st))
          = Some {| o_class := CArray; o_vnode := false; o_isVue := false;
                    o_ext := true; o_proto := ProtoArray; o_props := [];
                    o_elems := es |}) as Ho by apply get_obj_last.
  destruct (length (heap (set_heap (heap st ++ [new_array es]) st)));
    simpl; by rewrite Ho.
Qed.

Lemma store_vnode_at :
  vnode_at store_vnode 2
    (vnode_with (VStr "div") (VObj 0) (VObj 1) VUndef VUndef VUndef VUndef
       VUndef VUndef VUndef (VStr "k1") VUndef (VObj 0) VUndef (VBool false)
       (VBool true) (VBool true) (VBool false) (VBool false) (VBool false)
       VUndef VUndef (VBool false)).
Proof.
  split; [reflexivity|]. repeat split. apply field_props_writable.
Qed.

Lemma store_vnode_data : truthy (VObj 0) = true -> plain_key store_vnode (VObj 0).
Proof.
  intros _. eexists. split; [reflexivity|]. simpl. by eexists _, _.
Qed.

Lemma store_vnode_children : native_children store_vnode (VObj 1).
Proof. right. exists 1. repeat split. Qed.

(** X14. [new VNode(tag, data, children, text, elm, context,
    componentOptions, asyncFactory)] makes exactly one new object and writes
    nothing else: the eight arguments go to their fields, [key] is
    [data && data.key], [isRootInsert] is [true], the other flags are
    [false] and the remaining fields [undefined].  When reading [data.key]
    runs no code, neither does the constructor. *)
Theorem vnode_constructor_builds_one_object (E : Env) (X : Ext) (H : Host)
    (tag data children text elm context componentOptions asyncFactory : Value)
    (st : State) :
  (truthy data = true -> plain_key st data) ->
  newVNode E X H tag data children text elm context componentOptions
    asyncFactory st =
  (Ret (length (heap st)),
   set_heap (heap st ++
     [CObj (vnode_with tag data children text elm VUndef context VUndef
              VUndef VUndef (data_key H st data) componentOptions VUndef
              VUndef (VBool false) (VBool false) (VBool true) (VBool false)
              (VBool false) (VBool false) asyncFactory VUndef
              (VBool false))]) st, []).
Proof. apply newVNode_run. Qed.

Lemma vnode_constructor_builds_one_object_witness :
  newVNode env_dev ext_idle host_idle (VStr "p") (VObj 0) VUndef VUndef VUndef
    VUndef VUndef VUndef store_vnode =
  (Ret 4,
   set_heap (heap store_vnode ++
     [CObj (vnode_with (VStr "p") (VObj 0) VUndef VUndef VUndef VUndef VUndef
              VUndef VUndef VUndef (VStr "k1") VUndef VUndef VUndef
              (VBool false) (VBool false) (VBool true) (VBool false)
              (VBool false) (VBool false) VUndef VUndef (VBool false))])
     store_vnode, []).
Proof.
  exact (vnode_constructor_builds_one_object env_dev ext_idle host_idle
           (VStr "p") (VObj 0) VUndef VUndef VUndef VUndef VUndef VUndef
           store_vnode store_vnode_data).
Defined.

(** X15. [createEmptyVNode(text)] makes one VNode with [isComment] true
    and the given text, the empty string when the argument is [undefined];
    it touches nothing else and never throws.  [createTextVNode(val)]
    makes one VNode whose only set field is [text], holding [String(val)]:
    for a value that is no object it touches nothing else and never
    throws; for an object the conversion runs first, the node is made in
    the store it leaves, and an exception of the conversion is the call's
    (no node is made). *)
Theorem text_and_comment_vnodes (E : Env) (X : Ext) (H : Host) (v : Value)
    (st : State) :
  createEmptyVNode E X H v st =
  (Ret (length (heap st)),
   set_heap (heap st ++
     [CObj (vnode_with VUndef VUndef VUndef
              (match v with VUndef => VStr "" | _ => v end) VUndef
              VUndef VUndef VUndef VUndef VUndef VUndef VUndef VUndef VUndef
              (VBool false) (VBool false) (VBool true) (VBool true)
              (VBool false) (VBool false) VUndef VUndef (VBool false))]) st,
   []) /\
  ((forall r, v <> VObj r) ->
   createTextVNode E X H v st =
   (Ret (length (heap st)),
    set_heap (heap st ++
      [CObj (vnode_with VUndef VUndef VUndef (VStr (string_of H v)) VUndef
               VUndef VUndef VUndef VUndef VUndef VUndef VUndef VUndef VUndef
               (VBool false) (VBool false) (VBool true) (VBool false)
               (VBool false) (VBool false) VUndef VUndef (VBool false))]) st,
    [])) /\
  (forall r text st1 tr, v = VObj r ->
     h_object_string H r st = (Ret text, st1, tr) ->
     createTextVNode E X H v st =
     (Ret (length (heap st1)),
      set_heap (heap st1 ++
        [CObj (vnode_with VUndef VUndef VUndef (VStr text) VUndef
                 VUndef VUndef VUndef VUndef VUndef VUndef VUndef VUndef
                 VUndef (VBool false) (VBool false) (VBool true)
                 (VBool false) (VBool false) (VBool false) VUndef VUndef
                 (VBool false))]) st1,
      tr)) /\
  (forall r e st1 tr, v = VObj r ->
     h_object_string H r st = (Throw e, st1, tr) ->
     createTextVNode E X H v st = (Throw e, st1, tr)).
Proof.
  split; [apply createEmptyVNode_run|]. unfold createTextVNode.
  split; [|split].
  - intros Hv.
    destruct v as [| | | | | | |r|];
      cbn [to_string]; try (rewrite bind_ret; apply createTextVNode_run).
    by destruct (Hv r).
  - intros r text st1 tr -> Hs. unfold to_string, bind. rewrite Hs.
    rewrite createTextVNode_run. by rewrite app_nil_r.
  - intros r e st1 tr -> Hs. unfold to_string, bind. by rewrite Hs.
Qed.

Lemma text_and_comment_vnodes_witness :
  outcome (createTextVNode env_dev ext_idle host_idle (VNum 42) store_vnode)
    = Ret 4 /\
  (field_of (post (createTextVNode env_dev ext_idle host_idle (VNum 42)
                     store_vnode)) 4 "text") = VStr "42" /\
  createTextVNode env_dev ext_idle host_idle (VObj 0) store_vnode
    = (Throw TypeError, store_vnode, []).
Proof.
  destruct (text_and_comment_vnodes env_dev ext_idle host_idle (VNum 42)
              store_vnode) as (_ & Hp & _ & _).
  rewrite Hp by done.
  destruct (text_and_comment_vnodes env_dev ext_idle host_idle (VObj 0)
              store_vnode) as (_ & _ & _ & Ht).
  rewrite (Ht 0 TypeError store_vnode [] eq_refl eq_refl).
  repeat split.
Defined.

(** X16. [cloneVNode(vnode)] is a shallow copy that writes nothing that
    existed.  The clone takes [tag], [data], [text], [elm], [context],
    [componentOptions], [asyncFactory], [ns], [isStatic], [key],
    [isComment], [fnContext], [fnOptions], [fnScopeId] and [asyncMeta] from
    the original ([key] from [vnode.key], not from [data.key]); it has
    [isCloned] true and does not inherit [componentInstance], [parent],
    [raw], [isRootInsert], [isOnce] or [isAsyncPlaceholder].  A children
    array is copied into a new array with the same elements, so the clone
    and the original do not share it. *)
Theorem cloneVNode_copies_shallowly (E : Env) (X : Ext) (H : Host) (r : Ref)
    (o : Obj) (st : State) :
  vnode_at st r o ->
  (truthy (field o "data") = true -> plain_key st (field o "data")) ->
  native_children st (field o "children") ->
  let c := field o "children" in
  let copy := if truthy c then children_copy st c else [] in
  let st' :=
    set_heap (heap st ++ copy ++ [CObj (clone_of o (cloned_children st c))])
      st in
  cloneVNode E X H (VObj r) st =
    (Ret (length (heap st) + length copy), st', []) /\
  get_prop X (length (heap st) + length copy) (KStr "child") st' =
    (Ret VUndef, st', []) /\
  (forall x, x < length (heap st) -> heap st' !! x = heap st !! x) /\
  (forall a, c = VObj a ->
     cloned_children st c = VObj (length (heap st)) /\ length (heap st) <> a /\
     elems_of st' (length (heap st)) = elems_of st a).
Proof.
  intros Hv Hdata Hkids c copy st'. split; [|split; [|split]].
  - by apply cloneVNode_run.
  - assert (vnode_at st' (length (heap st) + length copy)
              (clone_of o (cloned_children st c))) as Hv'.
    { split; [|repeat split; apply field_props_writable].
      unfold get_obj, st'. cbn [heap set_heap].
      rewrite app_assoc, lookup_app_r by (rewrite length_app; lia).
      by rewrite length_app, Nat.sub_diag. }
    by rewrite (vnode_child_read X H _ _ st' Hv' eq_refl).
  - intros x Hx. unfold st'. cbn [heap set_heap]. by rewrite lookup_app_l.
  - intros a Ha.
    destruct Hkids as [Hf|(a' & Ha' & Harr & _)]; fold c in Hf || fold c in Ha'.
    { rewrite Ha in Hf. done. }
    rewrite Ha in Ha'. injection Ha' as <-.
    assert (is_Some (get_obj st a)) as Hsome.
    { fold c in Harr. rewrite Ha in Harr. unfold isArray, class_of in Harr.
      apply bool_decide_eq_true in Harr.
      destruct (get_obj st a); [by eexists|done]. }
    apply get_obj_lt in Hsome.
    split; [|split; [lia|]].
    + unfold cloned_children. by rewrite Ha.
    + unfold elems_of at 1. unfold get_obj, st', copy. rewrite Ha.
      cbn [heap set_heap truthy children_copy].
      rewrite lookup_app_r by lia. by rewrite Nat.sub_diag.
Qed.

Lemma cloneVNode_copies_shallowly_witness :
  cloneVNode env_dev ext_idle host_idle (VObj 2) store_vnode =
  (Ret 5,
   set_heap (heap store_vnode ++
     [new_array [VNum 1; VNum 2];
      CObj (vnode_with (VStr "div") (VObj 0) (VObj 4) VUndef VUndef VUndef
              VUndef VUndef VUndef VUndef (VStr "k1") VUndef VUndef VUndef
              (VBool false) (VBool true) (VBool true) (VBool false)
              (VBool true) (VBool false) VUndef VUndef (VBool false))])
     store_vnode, []).
Proof.
  exact (proj1 (cloneVNode_copies_shallowly env_dev ext_idle host_idle 2 _
                  store_vnode store_vnode_at store_vnode_data
                  store_vnode_children)).
Defined.

(** X17. Cloning a clone gives what cloning the original gives: the second
    clone has the fields of a clone of the original, with one more copy of
    the children array, and the first clone and the original stay as they
    were. *)
Theorem cloneVNode_of_a_clone (E : Env) (X : Ext) (H : Host) (r : Ref)
    (o : Obj) (st : State) :
  vnode_at st r o ->
  (truthy (field o "data") = true -> plain_key st (field o "data")) ->
  native_children st (field o "children") ->
  let c := field o "children" in
  let st1 := post (cloneVNode E X H (VObj r) st) in
  exists c1 c2 o1 kids,
    outcome (cloneVNode E X H (VObj r) st) = Ret c1 /\
    outcome (cloneVNode E X H (VObj c1) st1) = Ret c2 /\
    trace (cloneVNode E X H (VObj c1) st1) = [] /\
    c2 <> c1 /\
    get_obj st1 c1 = Some o1 /\
    get_obj (post (cloneVNode E X H (VObj c1) st1)) c2 = Some (clone_of o kids)
    /\ get_obj (post (cloneVNode E X H (VObj c1) st1)) c1 = Some o1 /\
    get_obj (post (cloneVNode E X H (VObj c1) st1)) r = Some o /\
    (forall k, k <> "children" -> field (clone_of o kids) k = field o1 k) /\
    (forall a, c = VObj a -> exists a2, kids = VObj a2 /\ a2 <> a /\
       field o1 "children" <> kids /\
       elems_of (post (cloneVNode E X H (VObj c1) st1)) a2 = elems_of st a).
Proof.
  intros Hv Hdata Hkids c st1.
  pose proof (cloneVNode_run E X H r o st Hv Hdata Hkids) as Hrun.
  cbv zeta in Hrun. fold c in Hrun.
  set (copy := if truthy c then children_copy st c else []) in *.
  set (kids1 := cloned_children st c) in *.
  set (c1 := length (heap st) + length copy) in *.
  assert (Hst1 : st1 = set_heap (heap st ++ copy ++ [CObj (clone_of o kids1)])
                         st) by (unfold st1; by rewrite Hrun).
  assert (Hlen1 : length (heap st1) = S c1).
  { rewrite Hst1. cbn [heap set_heap]. rewrite !length_app. simpl. lia. }
  assert (Hr : r < length (heap st)).
  { apply get_obj_lt. exists o. apply Hv. }
  assert (Hold : forall x ox, get_obj st x = Some ox -> get_obj st1 x = Some ox).
  { intros x ox Hx. assert (x < length (heap st)) as Hlt.
    { apply get_obj_lt. by exists ox. }
    unfold get_obj in *. rewrite Hst1. cbn [heap set_heap].
    by rewrite lookup_app_l. }
  assert (Hc1 : get_obj st1 c1 = Some (clone_of o kids1)).
  { unfold get_obj. rewrite Hst1. cbn [heap set_heap].
    rewrite app_assoc, lookup_app_r by (rewrite length_app; lia).
    by rewrite length_app, Nat.sub_diag. }
  assert (Hv1 : vnode_at st1 c1 (clone_of o kids1)).
  { split; [done|repeat split; apply field_props_writable]. }
  assert (Hd1 : truthy (field (clone_of o kids1) "data") = true ->
                plain_key st1 (field (clone_of o kids1) "data")).
  { change (field (clone_of o kids1) "data") with (field o "data").
    intros Ht. by apply (plain_key_frame H (field o "data") st), Hdata. }
  assert (Hk1 : native_children st1 (field (clone_of o kids1) "children")).
  { change (field (clone_of o kids1) "children") with kids1.
    unfold kids1, cloned_children.
    destruct Hkids as [Hf|(a & Ha & Harr & Hs)]; fold c in Hf || fold c in Ha.
    - left. by rewrite Hf.
    - right. exists (length (heap st)). rewrite Ha. cbn [truthy].
      split; [done|].
      assert (st1 = set_heap
                (heap (set_heap (heap st ++ [new_array (elems_of st a)]) st)
                 ++ [CObj (clone_of o kids1)])
                (set_heap (heap st ++ [new_array (elems_of st a)]) st)) as Heq.
      { rewrite Hst1. unfold copy. rewrite Ha.
        cbn [truthy children_copy heap set_heap]. by rewrite <- app_assoc. }
      assert (get_obj st1 (length (heap st)) =
              Some {| o_class := CArray; o_vnode := false; o_isVue := false;
                      o_ext := true; o_proto := ProtoArray; o_props := [];
                      o_elems := elems_of st a |}) as Harr1.
      { rewrite Heq. apply get_obj_alloc_some. apply get_obj_last. }
      split.
      + unfold isArray, class_of. by rewrite Harr1.
      + unfold lookup_prop. destruct (length (heap st1)); simpl;
          by rewrite Harr1. }
  pose proof (cloneVNode_run E X H c1 _ st1 Hv1 Hd1 Hk1) as Hrun2.
  cbv zeta in Hrun2.
  change (field (clone_of o kids1) "children") with kids1 in Hrun2.
  set (copy2 := if truthy kids1 then children_copy st1 kids1 else []) in *.
  set (kids2 := cloned_children st1 kids1) in *.
  change (clone_of (clone_of o kids1) kids2) with (clone_of o kids2) in Hrun2.
  set (st2 := set_heap (heap st1 ++ copy2 ++ [CObj (clone_of o kids2)]) st1)
    in *.
  assert (Hold2 : forall x ox, get_obj st1 x = Some ox ->
                               get_obj st2 x = Some ox).
  { intros x ox Hx. assert (x < length (heap st1)) as Hlt.
    { apply get_obj_lt. by exists ox. }
    unfold get_obj in *. unfold st2. cbn [heap set_heap].
    by rewrite lookup_app_l. }
  exists c1, (length (heap st1) + length copy2), (clone_of o kids1), kids2.
  rewrite Hrun2. unfold outcome, post, trace. cbn [fst snd].
  split; [by rewrite Hrun|]. split; [done|]. split; [done|].
  split; [lia|]. split; [done|]. split.
  { unfold get_obj, st2. cbn [heap set_heap].
    rewrite app_assoc, lookup_app_r by (rewrite length_app; lia).
    by rewrite length_app, Nat.sub_diag. }
  split; [by apply Hold2|]. split; [apply Hold2, Hold, Hv|]. split.
  { intros k Hk. unfold field.
    assert (assoc_lookup (KStr k) (o_props (clone_of o kids2)) =
            assoc_lookup (KStr k) (o_props (clone_of o kids1))) as ->; [|done].
    apply (fields_agree "children"); [|done].
    repeat (constructor;
            [split; [reflexivity|first [reflexivity|by intros []]]|]).
    constructor. }
  intros a Ha.
  destruct Hkids as [Hf|(a' & Ha' & Harr & _)]; fold c in Hf || fold c in Ha'.
  { rewrite Ha in Hf. done. }
  rewrite Ha in Ha'. injection Ha' as <-.
  assert (a < length (heap st)) as Hlt.
  { fold c in Harr. rewrite Ha in Harr. unfold isArray, class_of in Harr.
    apply bool_decide_eq_true in Harr. apply get_obj_lt.
    destruct (get_obj st a); [by eexists|done]. }
  assert (kids1 = VObj (length (heap st))) as Hkids1.
  { unfold kids1, cloned_children. by rewrite Ha. }
  assert (kids2 = VObj (length (heap st1))) as Hkids2.
  { unfold kids2, cloned_children. by rewrite Hkids1. }
  exists (length (heap st1)). split; [done|]. split; [lia|]. split.
  { change (field (clone_of o kids1) "children") with kids1.
    rewrite Hkids1, Hkids2. intros [= Heq]. lia. }
  assert (elems_of st1 (length (heap st)) = elems_of st a) as He1.
  { unfold elems_of at 1. unfold get_obj. rewrite Hst1. unfold copy.
    rewrite Ha. cbn [heap set_heap truthy children_copy].
    rewrite lookup_app_r by lia. by rewrite Nat.sub_diag. }
  rewrite <- He1. unfold elems_of at 1. unfold get_obj, st2, copy2.
  rewrite Hkids1. cbn [heap set_heap truthy children_copy].
  rewrite lookup_app_r by lia. by rewrite Nat.sub_diag.
Qed.

Lemma cloneVNode_of_a_clone_witness :
  exists c1 c2 o1 kids,
    outcome (cloneVNode env_dev ext_idle host_idle (VObj 2) store_vnode)
      = Ret c1 /\
    outcome (cloneVNode env_dev ext_idle host_idle (VObj c1)
               (post (cloneVNode env_dev ext_idle host_idle (VObj 2)
                        store_vnode))) = Ret c2 /\
    trace (cloneVNode env_dev ext_idle host_idle (VObj c1)
             (post (cloneVNode env_dev ext_idle host_idle (VObj 2)
                      store_vnode))) = [] /\
    c2 <> c1 /\
    get_obj (post (cloneVNode env_dev ext_idle host_idle (VObj 2)
                     store_vnode)) c1 = Some o1 /\
    field o1 "isCloned" = VBool true /\
    field o1 "children" <> kids.
Proof.
  destruct (cloneVNode_of_a_clone env_dev ext_idle host_idle 2 _ store_vnode
              store_vnode_at store_vnode_data store_vnode_children)
    as (c1 & c2 & o1 & kids & H1 & H2 & H3 & H4 & H5 & H6 & H7 & H8 & H9 & H10).
  exists c1, c2, o1, kids.
  refine (conj H1 (conj H2 (conj H3 (conj H4 (conj H5 (conj _ _)))))).
  - rewrite <- (H9 "isCloned"); [reflexivity|discriminate].
  - destruct (H10 1 eq_refl) as (a2 & _ & _ & Hne & _). exact Hne.
Defined.

(** X18. [observe] never makes a VNode reactive and never writes to one:
    whatever it is called on (the VNode itself, or an object or array that
    holds it, however deep), every VNode of the store is afterwards exactly
    as it was, and [observe(vnode)] itself returns [undefined] and changes
    nothing. *)
Theorem observe_leaves_vnodes_alone (E : Env) (X : Ext) (v : Value)
    (a : bool) (st : State) (r : Ref) (o : Obj) :
  get_obj st r = Some o -> o_vnode o = true ->
  get_obj (post (observe E X v a st)) r = Some o /\
  observe E X (VObj r) a st = (Ret None, st, []).
Proof.
  intros Ho Hvn. split.
  - destruct (observe_transparent E X v a st) as [[Hk _] _].
    by apply (kept_vnode _ _ _ Hk r o).
  - unfold observe. cbn [observe_fuel]. unfold observe_body.
    rewrite bind_gets. unfold isVNode. rewrite Ho, Hvn.
    by rewrite orb_true_r.
Qed.

Lemma observe_leaves_vnodes_alone_witness :
  get_obj (post (observe env_dev ext_idle (VObj 3) false store_vnode)) 2
  = get_obj store_vnode 2.
Proof.
  exact (proj1 (observe_leaves_vnodes_alone env_dev ext_idle (VObj 3) false
                  store_vnode 2 _ (proj1 store_vnode_at) eq_refl)).
Defined.

(** X19. After [toggleObserving(false)], [observe] creates no Observer: it
    returns the Observer the value already carries, or [undefined], and
    leaves every object, closure and subscriber list as it was, with
    nothing allocated. *)
Theorem observe_creates_nothing_when_toggled_off (E : Env) (X : Ext)
    (v : Value) (a : bool) (st : State) :
  shouldObserve st = false ->
  (outcome (observe E X v a st) = Ret None \/
   exists r obr, v = VObj r /\ marker_ref st r = Some obr /\
     outcome (observe E X v a st) = Ret (Some obr)) /\
  (forall r, get_obj (post (observe E X v a st)) r = get_obj st r) /\
  length (heap (post (observe E X v a st))) = length (heap st) /\
  slots (post (observe E X v a st)) = slots st /\
  deps (post (observe E X v a st)) = deps st /\
  trace (observe E X v a st) = [].
Proof.
  intros Hoff.
  assert (Hno : observable E st v = false).
  { unfold observable. by rewrite Hoff. }
  destruct (negb (isObject st v) || isVNode st v) eqn:Hskip.
  { assert (observe E X v a st = (Ret None, st, [])) as ->.
    { unfold observe. cbn [observe_fuel]. unfold observe_body.
      by rewrite bind_gets, Hskip. }
    split; [by left|done]. }
  apply orb_false_iff in Hskip as [Hobj Hvn]. apply negb_false_iff in Hobj.
  destruct v as [| | | | | | |r|]; try done.
  destruct (marker_ref st r) as [obr|] eqn:Hm.
  { rewrite (observe_existing E X r obr a st Hm Hvn).
    unfold outcome, post, trace. cbn [fst snd].
    split; [right; by exists r, obr|].
    destruct a; [|done].
    split; [intros r'; apply get_obj_bump_vmCount|].
    split; [apply bump_vmCount_length|].
    unfold bump_vmCount. by destruct (get_observer st obr). }
  assert (has_observer st (VObj r) = false) as Hh.
  { destruct (has_observer st (VObj r)) eqn:Hh; [|done].
    destruct (has_observer_marker_ref st r Hh) as (x & Hx & _). congruence. }
  assert (observe E X (VObj r) a st = (Ret None, st, [])) as ->.
  { unfold observe. cbn [observe_fuel]. unfold observe_body.
    rewrite bind_gets, Hobj, Hvn. cbn [negb orb].
    rewrite bind_gets, Hh. rewrite bind_assoc, bind_gets, Hno.
    by rewrite !bind_ret. }
  split; [by left|done].
Qed.

Lemma observe_creates_nothing_when_toggled_off_witness :
  outcome (observe env_dev ext_idle (VObj 0) true
             (toggleObserving false store_graph)) = Ret None /\
  outcome (observe env_dev ext_idle (VObj 0) false
             (toggleObserving false store_observed)) = Ret (Some 3).
Proof.
  split.
  - destruct (proj1 (observe_creates_nothing_when_toggled_off env_dev ext_idle
                       (VObj 0) true (toggleObserving false store_graph)
                       eq_refl)) as [Hn|(r & obr & _ & Hm & _)].
    + exact Hn.
    + assert (marker_ref (toggleObserving false store_graph) r = None) as Hnone.
      { destruct r as [|[|[|r]]]; vm_compute; reflexivity. }
      rewrite Hnone in Hm. discriminate Hm.
  - assert (observe env_dev ext_idle (VObj 0) false
              (toggleObserving false store_observed)
            = (Ret (Some 3), toggleObserving false store_observed, []))
      as -> by (vm_compute; reflexivity).
    reflexivity.
Defined.
